(** * netlog: the ring log behind /dev/netlog

    A shallow embedding of the log device of the netlog kernel module
    (the file that defines [store_record], [next_record],
    [netlog_log_open], [netlog_log_read], [netlog_log_llseek] and
    [netlog_log_poll]) together with the properties of the ring that the
    specification states.

    Conventions.  The embedding fixes the LP64 little-endian layout of
    x86-64 Linux: [size_t] and [u64] are 8 bytes, [int], [pid_t], [uid_t]
    and [u32] are 4 bytes, and [struct netlog_log] is 80 bytes with
    alignment 8.  Fixed-width integers are values of [Z] with the
    wrap-around written out.  The arena [log_buf] is a list of bytes;
    every access is bounds-checked against its length and an access that
    leaves the array is reported as a fault instead of being given a
    meaning.  The spin lock and the per-session mutex serialise the
    functions, so each call is one atomic step on the state. *)

From Stdlib Require Import ZArith String Ascii DecimalString Lia.
From stdpp Require Import base option list gmap.

Local Open Scope Z_scope.

(* [lia] with division and modulo by constants *)
Ltac Zify.zify_post_hook ::= Z.to_euclidean_division_equations.

(** ** Machine integers *)

Definition u8 (z : Z) : Z := z mod 2 ^ 8.
Definition u16 (z : Z) : Z := z mod 2 ^ 16.
Definition u32 (z : Z) : Z := z mod 2 ^ 32.
Definition u64 (z : Z) : Z := z mod 2 ^ 64.

(** Reinterpretation of the low 32 bits as an [int]. *)
Definition s32 (z : Z) : Z :=
  let w := u32 z in if w <? 2 ^ 31 then w else w - 2 ^ 32.

Definition INT_MAX : Z := 2147483647.

Definition sizeof_size_t : Z := 8.
Definition sizeof_netlog_log : Z := 80.
Definition LOG_ALIGN : Z := 8.
Definition sizeof_in_addr : Z := 4.
Definition sizeof_in6_addr : Z := 16.

Definition AF_INET : Z := 2.
Definition AF_INET6 : Z := 10.

Definition SEEK_SET : Z := 0.
Definition SEEK_CUR : Z := 1.
Definition SEEK_END : Z := 2.

Definition EBADF : Z := 9.
Definition EAGAIN : Z := 11.
Definition ENOMEM : Z := 12.
Definition EFAULT : Z := 14.
Definition EINVAL : Z := 22.
Definition ESPIPE : Z := 29.
Definition EPIPE : Z := 32.

Definition POLLIN : Z := 1.
Definition POLLPRI : Z := 2.
Definition POLLERR : Z := 8.
Definition POLLNVAL : Z := 32.
Definition POLLRDNORM : Z := 64.

(** Offsets of the members of [struct netlog_log]. *)
Module field.
Definition len : Z := 0.
Definition path_len : Z := 8.
Definition nsec : Z := 16.
Definition pid : Z := 24.
Definition uid : Z := 28.
Definition action : Z := 32.
Definition protocol : Z := 33.
Definition family : Z := 34.
Definition src_port : Z := 36.
Definition dst_port : Z := 40.
Definition dst : Z := 44.
Definition src : Z := 60.
End field.

(** ** Faults and the result monad *)

Inductive fault : Type :=
  | OobRead    (* a load outside the accessed array *)
  | OobWrite   (* a store outside the accessed array *)
  | Spin.      (* a loop that used up its iteration bound *)

Inductive res (A : Type) : Type :=
  | Ok (a : A)
  | Fault (f : fault).
Arguments Ok {A} a.
Arguments Fault {A} f.

#[global] Instance res_ret : MRet res := fun A a => Ok a.
#[global] Instance res_bind : MBind res := fun A B k m =>
  match m with Ok a => k a | Fault f => Fault f end.

Definition is_ok {A} (r : res A) : bool :=
  match r with Ok _ => true | Fault _ => false end.

(** ** Bytes in an array *)

Definition in_arena (buf : list Z) (p n : Z) : bool :=
  (0 <=? p) && (0 <=? n) && (p + n <=? Z.of_nat (length buf)).

Definition load (buf : list Z) (p n : Z) : res (list Z) :=
  if in_arena buf p n
  then Ok (take (Z.to_nat n) (drop (Z.to_nat p) buf))
  else Fault OobRead.

Definition store (buf : list Z) (p : Z) (bs : list Z) : res (list Z) :=
  if in_arena buf p (Z.of_nat (length bs))
  then Ok (take (Z.to_nat p) buf ++ bs ++ drop (Z.to_nat p + length bs) buf)
  else Fault OobWrite.

Fixpoint le_bytes (n : nat) (v : Z) : list Z :=
  match n with
  | O => []
  | S n' => v mod 256 :: le_bytes n' (v / 256)
  end.

Fixpoint le_value (bs : list Z) : Z :=
  match bs with
  | [] => 0
  | b :: bs' => b + 256 * le_value bs'
  end.

Definition load_le (buf : list Z) (p : Z) (n : nat) : res Z :=
  bs ← load buf p (Z.of_nat n); Ok (le_value bs).

Definition store_le (buf : list Z) (p : Z) (n : nat) (v : Z) : res (list Z) :=
  store buf p (le_bytes n v).

(** [memset(p, c, n)] and [memcpy(p, src, n)]; the source of a [memcpy]
    is an array of its own, read from its start. *)
Definition memset (buf : list Z) (p c n : Z) : res (list Z) :=
  store buf p (replicate (Z.to_nat n) (u8 c)).

Definition memcpy (buf : list Z) (p : Z) (src : list Z) (n : Z) : res (list Z) :=
  bs ← load src 0 n; store buf p bs.

(** [strlen]: the number of bytes before the first NUL; a list without
    a NUL stands for the string that its terminator follows. *)
Fixpoint strlen (s : list Z) : Z :=
  match s with
  | [] => 0
  | c :: s' => if c =? 0 then 0 else 1 + strlen s'
  end.

(** ** The static state of the log *)

Record netlog : Type := Netlog {
  log_buf : list Z;
  log_first_seq : Z;
  log_first_idx : Z;
  log_next_seq : Z;
  log_next_idx : Z;
  first_read : bool;
  dmesg : list string   (* what [printk] has emitted, oldest first *)
}.

Definition set_first (seq idx : Z) (s : netlog) : netlog :=
  Netlog (log_buf s) seq idx (log_next_seq s) (log_next_idx s)
         (first_read s) (dmesg s).

Definition set_next (seq idx : Z) (s : netlog) : netlog :=
  Netlog (log_buf s) (log_first_seq s) (log_first_idx s) seq idx
         (first_read s) (dmesg s).

Definition set_buf (buf : list Z) (s : netlog) : netlog :=
  Netlog buf (log_first_seq s) (log_first_idx s) (log_next_seq s)
         (log_next_idx s) (first_read s) (dmesg s).

Definition set_first_read (b : bool) (s : netlog) : netlog :=
  Netlog (log_buf s) (log_first_seq s) (log_first_idx s) (log_next_seq s)
         (log_next_idx s) b (dmesg s).

Definition printk (msg : string) (s : netlog) : netlog :=
  Netlog (log_buf s) (log_first_seq s) (log_first_idx s) (log_next_seq s)
         (log_next_idx s) (first_read s) (dmesg s ++ [msg]).

(** The message of the warning: the text that follows the
    [MODULE_NAME ": "] prefix of the format, without its newline. *)
Definition truncation_warning : string :=
  "Warning, troncating path"%string.

(** [log_path]: the path follows the fixed part of the record. *)
Definition log_path (record : Z) : Z := record + sizeof_netlog_log.

(** [next_record]: a zero length marks the wrap-around. *)
Definition next_record (buf : list Z) (idx : Z) : res Z :=
  len ← load_le buf idx 8;
  if len =? 0 then Ok 0 else Ok (u32 (idx + len)).

Definition copy_ip (buf : list Z) (dst : Z) (src : list Z) (family : Z)
  : res (list Z) :=
  if family =? AF_INET then memcpy buf dst src sizeof_in_addr
  else if family =? AF_INET6 then memcpy buf dst src sizeof_in6_addr
  else Ok buf.

(** The two steps on the path at the head of [store_record]. *)
Definition path_too_long (LOG_BUF_LEN path_len : Z) : bool :=
  (path_len >? Z.shiftr LOG_BUF_LEN 4) || (path_len >? INT_MAX).

Definition stored_path_len (LOG_BUF_LEN : Z) (path : list Z) : Z :=
  let path_len := strlen path in
  if path_too_long LOG_BUF_LEN path_len
  then Z.min (Z.shiftr LOG_BUF_LEN 4) INT_MAX
  else path_len.

Definition record_size_of (path_len : Z) : Z :=
  let record_size := u64 (sizeof_netlog_log + path_len + 1) in
  u64 (record_size + Z.land (u64 (- record_size)) (LOG_ALIGN - 1)).

Section Store.

(** [LOG_BUF_LEN] is defined in a header of the module, log.h. *)
Variable LOG_BUF_LEN : Z.

(** The local [free] of the eviction loop. *)
Definition free (s : netlog) : Z :=
  if log_next_idx s >? log_first_idx s
  then Z.max (u32 (LOG_BUF_LEN - log_next_idx s)) (log_first_idx s)
  else u32 (log_first_idx s - log_next_idx s).

(** One pass through the body of the loop after the [break] test:
    drop the oldest message. *)
Definition drop_oldest (s : netlog) : res netlog :=
  idx ← next_record (log_buf s) (log_first_idx s);
  Ok (set_first (u64 (log_first_seq s + 1)) idx s).

(** The [while (log_first_seq < log_next_seq)] loop of [store_record]. *)
Fixpoint evict (fuel : nat) (record_size : Z) (s : netlog) : res netlog :=
  if log_first_seq s <? log_next_seq s then
    if free s >? record_size + sizeof_size_t then Ok s
    else
      match fuel with
      | O => Fault Spin
      | S fuel' => s' ← drop_oldest s; evict fuel' record_size s'
      end
  else Ok s.

(** The wrap-around test and the sentinel. *)
Definition must_wrap (record_size : Z) (s : netlog) : bool :=
  u64 (log_next_idx s + record_size + sizeof_size_t) >=? LOG_BUF_LEN.

Definition wrap_around (record_size : Z) (s : netlog) : res netlog :=
  if must_wrap record_size s then
    buf ← store_le (log_buf s) (log_next_idx s) 8 0;
    Ok (set_next (log_next_seq s) 0 (set_buf buf s))
  else Ok s.

(** Filling in the record at [record]. *)
Definition fill_record (buf : list Z) (record record_size path_len : Z)
    (pid uid : Z) (path : list Z) (action protocol family : Z)
    (src_ip : option (list Z)) (src_port : Z)
    (dst_ip : option (list Z)) (dst_port : Z) (now : Z) : res (list Z) :=
  buf ← store_le buf (record + field.len) 8 record_size;
  buf ← store_le buf (record + field.path_len) 8 path_len;
  buf ← store_le buf (record + field.nsec) 8 (u64 now);
  buf ← store_le buf (record + field.pid) 4 (u32 pid);
  buf ← store_le buf (record + field.uid) 4 (u32 uid);
  buf ← store_le buf (record + field.action) 1 (u8 action);
  buf ← store_le buf (record + field.protocol) 1 (u8 protocol);
  buf ← store_le buf (record + field.family) 2 (u16 family);
  buf ← match src_ip with
        | None => memset buf (record + field.src) 0 16
        | Some ip => copy_ip buf (record + field.src) ip (u16 family)
        end;
  buf ← match dst_ip with
        | None => memset buf (record + field.dst) 0 16
        | Some ip => copy_ip buf (record + field.dst) ip (u16 family)
        end;
  buf ← store_le buf (record + field.src_port) 4 (u32 src_port);
  buf ← store_le buf (record + field.dst_port) 4 (u32 dst_port);
  memcpy buf (log_path record) path path_len.

(** What [store_record] does once the loop has made room: the sentinel
    if the tail is too short, the record, and the new write position. *)
Definition write_record (record_size path_len : Z) (pid uid : Z)
    (path : list Z) (action protocol family : Z)
    (src_ip : option (list Z)) (src_port : Z)
    (dst_ip : option (list Z)) (dst_port : Z) (now : Z)
    (s : netlog) : res netlog :=
  s ← wrap_around record_size s;
  let record := log_next_idx s in
  buf ← fill_record (log_buf s) record record_size path_len pid uid path
        action protocol family src_ip src_port dst_ip dst_port now;
  Ok (set_next (u64 (log_next_seq s + 1)) (u32 (log_next_idx s + record_size))
        (set_buf buf s)).

(** The warning of the truncation test. *)
Definition warn_truncation (path : list Z) (s : netlog) : netlog :=
  if path_too_long LOG_BUF_LEN (strlen path)
  then printk truncation_warning s else s.

(** [store_record]; [now] is the value [local_clock()] returns. *)
Definition store_record (pid uid : Z) (path : list Z)
    (action protocol family : Z)
    (src_ip : option (list Z)) (src_port : Z)
    (dst_ip : option (list Z)) (dst_port : Z) (now : Z)
    (s : netlog) : res netlog :=
  let s := warn_truncation path s in
  let path_len := stored_path_len LOG_BUF_LEN path in
  let record_size := record_size_of path_len in
  s ← evict (Z.to_nat (log_next_seq s - log_first_seq s)) record_size s;
  write_record record_size path_len pid uid path action protocol family
    src_ip src_port dst_ip dst_port now s.

(** The state at module load: zeroed statics, [first_read] set. *)
Definition netlog_init : netlog :=
  Netlog (replicate (Z.to_nat LOG_BUF_LEN) 0) 0 0 0 0 true [].

End Store.

(** ** Text produced by [sprintf] *)

Definition bytes_of_string (s : string) : list Z :=
  (fun c => Z.of_nat (nat_of_ascii c)) <$> list_ascii_of_string s.

(** [%d], [%u] and [%lu] of a value already brought into range. *)
Definition dec (z : Z) : list Z :=
  bytes_of_string (NilZero.string_of_int (Z.to_int z)).

(** Right-justify in a field of [width], as [%5lu] and [%06lu] do. *)
Definition pad_left (c : Z) (width : nat) (bs : list Z) : list Z :=
  replicate (width - length bs) c ++ bs.

(** [%.*s]: at most [prec] bytes from [p], stopping before a NUL; a
    negative precision counts as zero. *)
Fixpoint load_str (buf : list Z) (p : Z) (prec : nat) : res (list Z) :=
  match prec with
  | O => Ok []
  | S prec' =>
      c ← load_le buf p 1;
      if c =? 0 then Ok []
      else (cs ← load_str buf (p + 1) prec'; Ok (c :: cs))
  end.

(** The constants of netlog.h and log.h that the reader prints or
    switches on, and the size of [user_data.buf]. *)
Record netlog_h : Type := NetlogH {
  LOG_FACILITY : Z;
  LOG_LEVEL : Z;
  MODULE_NAME : string;
  ACTION_CONNECT : Z;
  ACTION_ACCEPT : Z;
  ACTION_CLOSE : Z;
  ACTION_BIND : Z;
  PROTO_TCP : Z;
  PROTO_UDP : Z
}.

Definition sizeof_user_buf : Z := 8192.

(** ** Reader sessions *)

Record user_data : Type := UserData {
  log_curr_seq : Z;
  log_curr_idx : Z
}.

(** What a call to [read] comes to: it returns a value and has copied
    [out] to user space, or it is asleep on [log_wait]. *)
Inductive read_result : Type :=
  | Returned (ret : Z) (out : list Z)
  | Sleeping.

Section Reader.

Variable h : netlog_h.

(** The kernel's [%pI4] and [%pI6c] conversions. *)
Variable pI4 : list Z -> list Z.
Variable pI6c : list Z -> list Z.

Definition log_protocol (buf : list Z) (record : Z) : res (list Z) :=
  protocol ← load_le buf (record + field.protocol) 1;
  if protocol =? PROTO_TCP h then Ok (bytes_of_string "TCP")
  else if protocol =? PROTO_UDP h then Ok (bytes_of_string "UDP")
  else Ok (bytes_of_string "UNK").

(** The two [switch (record->family)] blocks: address and port. *)
Definition print_endpoint (buf : list Z) (family addr port : Z)
  : res (list Z) :=
  if family =? AF_INET then
    ip ← load buf addr sizeof_in_addr;
    p ← load_le buf port 4;
    Ok (pI4 ip ++ bytes_of_string ":" ++ dec (s32 p))
  else if family =? AF_INET6 then
    ip ← load buf addr sizeof_in6_addr;
    p ← load_le buf port 4;
    Ok (bytes_of_string "[" ++ pI6c ip ++ bytes_of_string "]:" ++ dec (s32 p))
  else Ok (bytes_of_string "Unknown").

(** The line that [netlog_log_read] builds in [data->buf] for the
    record at [record]. *)
Definition render_record (buf : list Z) (record : Z) : res (list Z) :=
  nsec ← load_le buf (record + field.nsec) 8;
  let ts := nsec / 1000000000 in
  let rem_nsec := nsec mod 1000000000 in
  let line :=
    bytes_of_string "<" ++
    dec (u32 (Z.lor (Z.shiftl (LOG_FACILITY h) 3) (LOG_LEVEL h))) ++
    bytes_of_string ">1 - - " ++ bytes_of_string (MODULE_NAME h) ++
    bytes_of_string " - - - [" ++ pad_left 32 5 (dec ts) ++
    bytes_of_string "." ++ pad_left 48 6 (dec (rem_nsec / 1000)) ++
    bytes_of_string "]: " in
  path_len ← load_le buf (record + field.path_len) 8;
  path ← load_str buf (log_path record) (Z.to_nat (s32 path_len));
  pid ← load_le buf (record + field.pid) 4;
  proto ← log_protocol buf record;
  let line := line ++ path ++ bytes_of_string "[" ++ dec (s32 pid) ++
              bytes_of_string "] " ++ proto ++ bytes_of_string " " in
  family ← load_le buf (record + field.family) 2;
  src ← print_endpoint buf family (record + field.src)
          (record + field.src_port);
  let line := line ++ src in
  action ← load_le buf (record + field.action) 1;
  line ←
    (if action =? ACTION_CONNECT h then
       dst ← print_endpoint buf family (record + field.dst)
               (record + field.dst_port);
       Ok (line ++ bytes_of_string " -> " ++ dst)
     else if action =? ACTION_ACCEPT h then
       dst ← print_endpoint buf family (record + field.dst)
               (record + field.dst_port);
       Ok (line ++ bytes_of_string " <- " ++ dst)
     else if action =? ACTION_CLOSE h then
       dst ← print_endpoint buf family (record + field.dst)
               (record + field.dst_port);
       Ok (line ++ bytes_of_string " <!> " ++ dst)
     else if action =? ACTION_BIND h then
       Ok (line ++ bytes_of_string " BIND ")
     else Ok (line ++ bytes_of_string " UNK "));
  uid ← load_le buf (record + field.uid) 4;
  let line := line ++ bytes_of_string " (uid=" ++ dec (s32 uid) ++
              bytes_of_string ")" ++ [10] in
  if Z.of_nat (length line) + 1 >? sizeof_user_buf
  then Fault OobWrite
  else Ok line.

(** [netlog_log_llseek] *)
Definition netlog_log_llseek (data : option user_data) (offset whence : Z)
    (s : netlog) : Z * option user_data :=
  match data with
  | None => (- EBADF, None)
  | Some d =>
      if negb (offset =? 0) then (- ESPIPE, Some d)
      else if whence =? SEEK_SET then
        (0, Some (UserData (log_first_seq s) (log_first_idx s)))
      else if whence =? SEEK_CUR then (0, Some d)
      else if whence =? SEEK_END then
        (0, Some (UserData (log_next_seq s) (log_next_idx s)))
      else (- EINVAL, Some d)
  end.

(** [netlog_log_read] on a file that has its private data.  [nonblock]
    is [O_NONBLOCK] in [f_flags], [count] the size of the user buffer and
    [user_ok] whether [copy_to_user] can write to it. *)
Definition read_session (d : user_data) (nonblock : bool) (count : Z)
    (user_ok : bool) (s : netlog) : res (read_result * user_data) :=
  if log_curr_seq d =? log_next_seq s then
    if nonblock then Ok (Returned (- EAGAIN) [], d)
    else Ok (Sleeping, d)
  else if log_curr_seq d <? log_first_seq s then
    Ok (Returned (- EPIPE) [],
        UserData (log_first_seq s) (log_first_idx s))
  else
    line ← render_record (log_buf s) (log_curr_idx d);
    let len := Z.of_nat (length line) in
    idx ← next_record (log_buf s) (log_curr_idx d);
    let d' := UserData (u64 (log_curr_seq d + 1)) idx in
    if len >? count then Ok (Returned (- EINVAL) [], d')
    else if negb user_ok then Ok (Returned (- EFAULT) [], d')
    else Ok (Returned len line, d').

Definition netlog_log_read (data : option user_data) (nonblock : bool)
    (count : Z) (user_ok : bool) (s : netlog)
  : res (read_result * option user_data) :=
  match data with
  | None => Ok (Returned (- EBADF) [], None)
  | Some d =>
      r ← read_session d nonblock count user_ok s;
      Ok (r.1, Some r.2)
  end.

(** [netlog_log_poll] *)
Definition netlog_log_poll (data : option user_data) (s : netlog) : Z :=
  match data with
  | None => Z.lor POLLERR POLLNVAL
  | Some d =>
      if log_curr_seq d <? log_next_seq s then
        if log_curr_seq d <? log_first_seq s
        then Z.lor (Z.lor (Z.lor POLLIN POLLRDNORM) POLLERR) POLLPRI
        else Z.lor POLLIN POLLRDNORM
      else 0
  end.

(** [netlog_log_open]; [alloc_ok] tells whether [kmalloc] succeeds. *)
Definition netlog_log_open (alloc_ok : bool) (s : netlog)
  : Z * option user_data * netlog :=
  if negb alloc_ok then (- ENOMEM, None, s)
  else if first_read s then
    (0, Some (UserData (log_first_seq s) (log_first_idx s)),
     set_first_read false s)
  else
    (0, Some (UserData (log_next_seq s) (log_next_idx s)), s).

(** [netlog_log_release] frees the private data. *)
Definition netlog_log_release (data : option user_data)
  : Z * option user_data := (0, None).

End Reader.

(** ** Events, and the device as a whole *)

(** The arguments of one call to [store_record], with the clock value
    the call reads. *)
Record event : Type := Event {
  ev_pid : Z;
  ev_uid : Z;
  ev_path : list Z;
  ev_action : Z;
  ev_protocol : Z;
  ev_family : Z;
  ev_src_ip : option (list Z);
  ev_src_port : Z;
  ev_dst_ip : option (list Z);
  ev_dst_port : Z;
  ev_now : Z
}.

Definition submit (LOG_BUF_LEN : Z) (e : event) (s : netlog) : res netlog :=
  store_record LOG_BUF_LEN (ev_pid e) (ev_uid e) (ev_path e) (ev_action e)
    (ev_protocol e) (ev_family e) (ev_src_ip e) (ev_src_port e)
    (ev_dst_ip e) (ev_dst_port e) (ev_now e) s.

Definition submit_all (LOG_BUF_LEN : Z) (es : list event) (s : netlog)
  : res netlog :=
  foldl (fun r e => s ← r; submit LOG_BUF_LEN e s) (Ok s) es.

(** The address handed to [copy_ip] has the size of its family. *)
Definition ip_readable (family : Z) (ip : option (list Z)) : bool :=
  match ip with
  | None => true
  | Some bs =>
      if u16 family =? AF_INET then sizeof_in_addr <=? Z.of_nat (length bs)
      else if u16 family =? AF_INET6
           then sizeof_in6_addr <=? Z.of_nat (length bs)
      else true
  end.

Definition event_ok (e : event) : bool :=
  ip_readable (ev_family e) (ev_src_ip e) &&
  ip_readable (ev_family e) (ev_dst_ip e).

(** The open files of the device, each with its [private_data]. *)
Record system : Type := System {
  store_of : netlog;
  files : gmap nat user_data
}.

Inductive call : Type :=
  | Append (e : event)
  | Open (f : nat) (alloc_ok : bool)
  | Read (f : nat) (nonblock : bool) (count : Z) (user_ok : bool)
  | Llseek (f : nat) (offset whence : Z)
  | Release (f : nat).

Definition set_file (f : nat) (data : option user_data)
    (fs : gmap nat user_data) : gmap nat user_data :=
  match data with
  | Some d => <[f := d]> fs
  | None => delete f fs
  end.

Section Device.

Variable LOG_BUF_LEN : Z.
Variable h : netlog_h.
Variable pI4 : list Z -> list Z.
Variable pI6c : list Z -> list Z.

Definition boot : system := System (netlog_init LOG_BUF_LEN) ∅.

Definition step (c : call) (sy : system) : res system :=
  match c with
  | Append e =>
      s ← submit LOG_BUF_LEN e (store_of sy);
      Ok (System s (files sy))
  | Open f alloc_ok =>
      let r := netlog_log_open alloc_ok (store_of sy) in
      Ok (System r.2 (match r.1.2 with
                      | Some d => <[f := d]> (files sy)
                      | None => files sy
                      end))
  | Read f nonblock count user_ok =>
      r ← netlog_log_read h pI4 pI6c (files sy !! f) nonblock count user_ok
            (store_of sy);
      Ok (System (store_of sy) (set_file f r.2 (files sy)))
  | Llseek f offset whence =>
      let r := netlog_log_llseek (files sy !! f) offset whence (store_of sy) in
      Ok (System (store_of sy) (set_file f r.2 (files sy)))
  | Release f =>
      Ok (System (store_of sy)
            (set_file f (netlog_log_release (files sy !! f)).2 (files sy)))
  end.

Fixpoint run (cs : list call) (sy : system) : res system :=
  match cs with
  | [] => Ok sy
  | c :: cs' => sy' ← step c sy; run cs' sy'
  end.

End Device.

(** A call that opens a file and gets its private data. *)
Definition opens (c : call) : bool :=
  match c with
  | Open _ true => true
  | _ => false
  end.

(** Sample conversions and constants for running the reader on
    concrete states.  [dotted_quad] is [%pI4]; [hex_groups] prints the
    eight groups of an IPv6 address in full. *)
Definition dotted_quad (ip : list Z) : list Z :=
  match ip with
  | [a; b; c; d] =>
      dec a ++ [46] ++ dec b ++ [46] ++ dec c ++ [46] ++ dec d
  | _ => []
  end.

Definition hex_digit (d : Z) : Z := if d <? 10 then 48 + d else 87 + d.

Fixpoint hex_groups (ip : list Z) : list Z :=
  match ip with
  | a :: b :: rest =>
      [hex_digit (a / 16); hex_digit (a mod 16);
       hex_digit (b / 16); hex_digit (b mod 16)] ++
      match rest with [] => [] | _ => 58 :: hex_groups rest end
  | _ => []
  end.

Definition sample_h : netlog_h :=
  NetlogH 0 6 "netlog" 0 1 2 3 0 1.

(** ** Notions used in the statements *)

(** [k] passes through the body of the eviction loop. *)
Fixpoint drops (k : nat) (s : netlog) : res netlog :=
  match k with
  | O => Ok s
  | S k' => s' ← drop_oldest s; drops k' s'
  end.

(** The length headers of all records counted as live can be read. *)
Definition headers_readable (s : netlog) : bool :=
  is_ok (drops (Z.to_nat (log_next_seq s - log_first_seq s)) s).

(** The sequence numbers are values of [u64]. *)
Definition seq_typed (s : netlog) : Prop :=
  0 <= log_first_seq s /\ 0 <= log_next_seq s < 2 ^ 64.

(** The arena has its declared size and the write position leaves room
    for a sentinel before the end. *)
Definition tail_ok (LOG_BUF_LEN : Z) (s : netlog) : Prop :=
  length (log_buf s) = Z.to_nat LOG_BUF_LEN /\
  0 <= log_next_idx s /\
  log_next_idx s + sizeof_size_t < LOG_BUF_LEN.

(** [buf'] has the size of [buf] and differs from it at most in
    [lo, hi). *)
Definition same_outside (lo hi : Z) (buf buf' : list Z) : Prop :=
  length buf' = length buf /\
  forall i : nat, Z.of_nat i < lo \/ hi <= Z.of_nat i -> buf' !! i = buf !! i.

(** The states of the log that calls to the module can produce. *)
Inductive reachable (LOG_BUF_LEN : Z) : netlog -> Prop :=
  | reachable_init : reachable LOG_BUF_LEN (netlog_init LOG_BUF_LEN)
  | reachable_store s e s' :
      reachable LOG_BUF_LEN s ->
      submit LOG_BUF_LEN e s = Ok s' ->
      reachable LOG_BUF_LEN s'
  | reachable_open s alloc_ok :
      reachable LOG_BUF_LEN s ->
      reachable LOG_BUF_LEN (netlog_log_open alloc_ok s).2.

(** Where [store_record] puts the record, given the state after the
    eviction loop. *)
Definition record_start (LOG_BUF_LEN record_size : Z) (s : netlog) : Z :=
  if must_wrap LOG_BUF_LEN record_size s then 0 else log_next_idx s.

(** The number of bytes that [store_record] stores for a path. *)
Definition record_size_for (LOG_BUF_LEN : Z) (path : list Z) : Z :=
  record_size_of (stored_path_len LOG_BUF_LEN path).

(** The bound on the passes of the eviction loop: the number of records
    counted as live. *)
Definition passes (s : netlog) : nat :=
  Z.to_nat (log_next_seq s - log_first_seq s).

(** Successive reads of one session against an unchanged log.  Each
    call is given as [(nonblock, count, user_ok)]; the results are
    listed in order, and a read that faults ends the list. *)
Fixpoint read_many (h : netlog_h) (pI4 pI6c : list Z -> list Z)
    (calls : list (bool * Z * bool)) (d : user_data) (s : netlog)
  : list read_result * user_data :=
  match calls with
  | [] => ([], d)
  | (nonblock, count, user_ok) :: calls' =>
      match read_session h pI4 pI6c d nonblock count user_ok s with
      | Ok (r, d') =>
          let rest := read_many h pI4 pI6c calls' d' s in
          (r :: rest.1, rest.2)
      | Fault _ => ([], d)
      end
  end.

(** ** The specification's wording, for comparison *)

(** The eviction loop as the specification words it: records are
    dropped while live records exist and the free space is smaller than
    [record_size + header_size]. *)
Fixpoint evict_as_specified (LOG_BUF_LEN header_size : Z) (fuel : nat)
    (record_size : Z) (s : netlog) : res netlog :=
  if log_first_seq s <? log_next_seq s then
    if free LOG_BUF_LEN s <? record_size + header_size then
      match fuel with
      | O => Fault Spin
      | S fuel' =>
          s' ← drop_oldest s;
          evict_as_specified LOG_BUF_LEN header_size fuel' record_size s'
      end
    else Ok s
  else Ok s.

(** The wrap-around test as the specification words it: the tail
    segment cannot fit [record_size]. *)
Definition must_wrap_as_specified (LOG_BUF_LEN record_size : Z)
    (s : netlog) : bool :=
  LOG_BUF_LEN - log_next_idx s <? record_size.

(** [read_at] as the specification words it: a sentinel at the cursor
    is followed to offset 0 before the record is decoded, and the cursor
    moves to the offset after that record. *)
Definition read_at_as_specified (h : netlog_h) (pI4 pI6c : list Z -> list Z)
    (d : user_data) (s : netlog) : res (list Z * user_data) :=
  len ← load_le (log_buf s) (log_curr_idx d) 8;
  let record := if len =? 0 then 0 else log_curr_idx d in
  line ← render_record h pI4 pI6c (log_buf s) record;
  len ← load_le (log_buf s) record 8;
  Ok (line, UserData (u64 (log_curr_seq d + 1)) (u32 (record + len))).

(** The number of framed records met on the way from [idx] to [stop],
    sentinels not counted; [fuel] bounds the walk. *)
Fixpoint frames_between (fuel : nat) (buf : list Z) (idx stop : Z) : res Z :=
  if idx =? stop then Ok 0
  else
    match fuel with
    | O => Fault Spin
    | S fuel' =>
        len ← load_le buf idx 8;
        if len =? 0 then frames_between fuel' buf 0 stop
        else (n ← frames_between fuel' buf (u32 (idx + len)) stop; Ok (1 + n))
    end.

(** ** Concrete runs *)

(** What can be seen of a result. *)
Definition observe {A B : Type} (f : A -> B) (r : res A) : option B :=
  match r with
  | Ok a => Some (f a)
  | Fault _ => None
  end.

(** The state a run ends in; a run that faults is read as an empty
    log. *)
Definition state_after (r : res netlog) : netlog :=
  match r with
  | Ok s => s
  | Fault _ => Netlog [] 0 0 0 0 true []
  end.

Definition system_after (r : res system) : system :=
  match r with
  | Ok sy => sy
  | Fault _ => System (Netlog [] 0 0 0 0 true []) ∅
  end.

(** An IPv4 connect by process [n], with a path of [path_len] bytes. *)
Definition sample_event (n : Z) (path_len : nat) : event :=
  Event n 1000 (replicate path_len 97) 0 0 AF_INET
        (Some [10; 0; 0; 1]) 1234 (Some [10; 0; 0; 2]) 80
        (n * 1000000000).

(** *** An arena of 4096 bytes *)

(** Records of the largest size for a 4096-byte arena, 344 bytes. *)
Definition large_events (from count : nat) : list event :=
  (fun n => sample_event (Z.of_nat n) 256) <$> seq from count.

(** One small record, and the line that renders it. *)
Definition one_record : res netlog :=
  submit 4096 (sample_event 1 7) (netlog_init 4096).

Definition line_of_first : list Z :=
  bytes_of_string
    "<6>1 - - netlog - - - [    1.000000]: aaaaaaa[1] TCP 10.0.0.1:1234 -> 10.0.0.2:80 (uid=1000)"
  ++ [10].

(** Eleven large records fill the arena up to offset 3784. *)
Definition eleven_large : res netlog :=
  submit_all 4096 (large_events 1 11) (netlog_init 4096).

(** A record of 304 bytes, appended when 312 bytes are left. *)
Definition event_304 : event := sample_event 12 216.

(** Twenty-one large records: the oldest position is at the sentinel
    that the first lap left at 3784. *)
Definition twenty_one_large : res netlog :=
  submit_all 4096 (large_events 1 21) (netlog_init 4096).

(** Twenty-two large records: one lap and the whole of a second. *)
Definition twenty_two_large : res netlog :=
  submit_all 4096 (large_events 1 22) (netlog_init 4096).

(** A second session is opened when eleven records are in the log, so
    at the write position; the writer then wraps. *)
Definition reader_across_wrap : list call :=
  Open 0 true :: (Append <$> large_events 1 11) ++
  [Open 1 true; Append (sample_event 12 256)].

Definition system_across_wrap : res system :=
  run 4096 sample_h dotted_quad hex_groups reader_across_wrap (boot 4096).

(** The line of the twelfth record, and the line that the bytes at the
    sentinel render to. *)
Definition line_of_twelfth : list Z :=
  bytes_of_string "<6>1 - - netlog - - - [   12.000000]: " ++
  replicate 256 97 ++
  bytes_of_string "[12] TCP 10.0.0.1:1234 -> 10.0.0.2:80 (uid=1000)" ++ [10].

Definition line_of_sentinel : list Z :=
  bytes_of_string
    "<6>1 - - netlog - - - [    0.000000]: [0] TCP Unknown -> Unknown (uid=0)"
  ++ [10].

(** Eleven laps of large records, two small records, and large records
    again: 147 appends. *)
Definition long_run : list event :=
  large_events 1 122 ++ [sample_event 123 0; sample_event 124 0] ++
  large_events 125 23.

(** *** An arena of 256 bytes *)

(** Records of 88 bytes; two of them fill a lap of a 256-byte arena. *)
Definition small_events (from count : nat) : list event :=
  (fun n => sample_event (Z.of_nat n) 7) <$> seq from count.

Definition small_log (count : nat) : res netlog :=
  submit_all 256 (small_events 1 count) (netlog_init 256).

(** Five records of 88 bytes, one of 104 bytes, and two of 88 bytes. *)
Definition short_run : list event :=
  small_events 1 5 ++ [sample_event 6 16] ++ small_events 7 2.


(** A session opened, released, and the log written to in between. *)
Definition open_write_release : list call :=
  [Open 0 true; Append (sample_event 1 7); Release 0].

(** Three records go into the 256-byte log before the first session is
    opened; the third wrapped. *)
Definition first_open_after_wrap : list call :=
  (Append <$> small_events 1 3) ++ [Open 0 true].

(** The line of the third of these records. *)
Definition line_of_third : list Z :=
  bytes_of_string
    "<6>1 - - netlog - - - [    3.000000]: aaaaaaa[3] TCP 10.0.0.1:1234 -> 10.0.0.2:80 (uid=1000)"
  ++ [10].

(** *** An arena of 512 bytes *)

(** Four records of 96 bytes and one of 88 bytes, which starts at
    offset 384; then four records of 96 bytes, the first of which wraps,
    so that the write position is 384 again. *)
Definition lap_events : list event :=
  [sample_event 1 15; sample_event 2 15; sample_event 3 15;
   sample_event 4 15; sample_event 5 7; sample_event 6 15;
   sample_event 7 15; sample_event 8 15; sample_event 9 15].

(** A second session is opened after these nine appends, at the write
    position. *)
Definition late_joiner : list call :=
  Open 0 true :: (Append <$> lap_events) ++ [Open 1 true].

(** The tenth append, a record of 120 bytes, wraps. *)
Definition late_joiner_at_wrap : list call :=
  late_joiner ++ [Append (sample_event 10 32)].

(** The lines of the fifth and of the tenth event. *)
Definition line_of_fifth : list Z :=
  bytes_of_string
    "<6>1 - - netlog - - - [    5.000000]: aaaaaaa[5] TCP 10.0.0.1:1234 -> 10.0.0.2:80 (uid=1000)"
  ++ [10].

Definition line_of_tenth : list Z :=
  bytes_of_string "<6>1 - - netlog - - - [   10.000000]: " ++
  replicate 32 97 ++
  bytes_of_string "[10] TCP 10.0.0.1:1234 -> 10.0.0.2:80 (uid=1000)" ++ [10].

(** ** Notions used in the proofs *)

(** What the stores after the first two keep true: the bytes outside
    the record, and its first two members. *)
Definition filling (lo hi : Z) (buf0 : list Z) (A B : Z) (b : list Z) : Prop :=
  same_outside lo hi buf0 b /\
  load_le b lo 8 = Ok A /\
  load_le b (lo + 8) 8 = Ok B.

(** Everything but the position of the oldest record is as before. *)
Definition only_first_moved (s s' : netlog) : Prop :=
  log_buf s' = log_buf s /\ log_next_seq s' = log_next_seq s /\
  log_next_idx s' = log_next_idx s /\ first_read s' = first_read s /\
  dmesg s' = dmesg s.

(** What a completed [write_record] leaves behind, for a record of
    [rs] bytes carrying [path_len] bytes of [path]. *)
Definition record_written (LOG_BUF_LEN rs path_len : Z) (path : list Z)
    (s s' : netlog) : Prop :=
  let r := record_start LOG_BUF_LEN rs s in
  tail_ok LOG_BUF_LEN s' /\
  log_first_seq s' = log_first_seq s /\
  log_first_idx s' = log_first_idx s /\
  log_next_seq s' = u64 (log_next_seq s + 1) /\
  log_next_idx s' = r + rs /\
  first_read s' = first_read s /\
  dmesg s' = dmesg s /\
  load_le (log_buf s') (r + field.len) 8 = Ok rs /\
  load_le (log_buf s') (r + field.path_len) 8 = Ok path_len /\
  load (log_buf s') (log_path r) path_len
    = Ok (take (Z.to_nat path_len) path) /\
  (must_wrap LOG_BUF_LEN rs s = true ->
   load_le (log_buf s') (log_next_idx s) 8 = Ok 0) /\
  (forall i : nat,
     ~ (r <= Z.of_nat i < r + rs) ->
     ~ (must_wrap LOG_BUF_LEN rs s = true /\
        log_next_idx s <= Z.of_nat i < log_next_idx s + sizeof_size_t) ->
     log_buf s' !! i = log_buf s !! i).

(** ** The character device: [init_netlog_dev] and [destroy_netlog_dev] *)

(** What the driver registers with the kernel. *)
Inductive resource : Type :=
  | DevClass          (* class_create / class_destroy *)
  | ChrdevRegion      (* alloc_chrdev_region / unregister_chrdev_region *)
  | CharDev           (* cdev_add / cdev_del *)
  | DevNode.          (* device_create / device_destroy *)

#[global] Instance resource_eq_dec : EqDecision resource.
Proof. solve_decision. Defined.

Definition MAX_ERRNO : Z := 4095.

(** [IS_ERR] on a pointer read as a [long]; [PTR_ERR] is the value
    itself. *)
Definition IS_ERR (ptr : Z) : bool := (- MAX_ERRNO <=? ptr) && (ptr <? 0).

(** What the four kernel calls of [init_netlog_dev] return: a pointer
    or an [ERR_PTR] for [class_create] and [device_create], an [int]
    for the other two. *)
Record dev_results : Type := DevResults {
  class_create_ret : Z;
  alloc_chrdev_region_ret : Z;
  cdev_add_ret : Z;
  device_create_ret : Z
}.

(** The registrations in force, latest first, and the kernel log. *)
Record kernel : Type := Kernel {
  registered : list resource;
  kmsg : list string
}.

Definition register (r : resource) (k : kernel) : kernel :=
  Kernel (r :: registered k) (kmsg k).

Fixpoint remove_first (r : resource) (l : list resource) : list resource :=
  match l with
  | [] => []
  | x :: l' => if decide (x = r) then l' else x :: remove_first r l'
  end.

(** [class_destroy], [unregister_chrdev_region], [cdev_del] and
    [device_destroy] take the latest registration of the resource
    away. *)
Definition unregister (r : resource) (k : kernel) : kernel :=
  Kernel (remove_first r (registered k)) (kmsg k).

Definition kprint (msg : string) (k : kernel) : kernel :=
  Kernel (registered k) (kmsg k ++ [msg]).

Definition tab : string := String (ascii_of_nat 9) EmptyString.
Definition newline : string := String (ascii_of_nat 10) EmptyString.

Definition created_message (h : netlog_h) : string :=
  (MODULE_NAME h ++ ":" ++ tab ++ "[+]Created /dev/" ++ MODULE_NAME h ++
   " for logs" ++ newline)%string.

Definition removing_message (h : netlog_h) : string :=
  (MODULE_NAME h ++ ":" ++ tab ++ "[+]Removing /dev/" ++ MODULE_NAME h ++
   newline)%string.

(** The three clean-up labels of [init_netlog_dev]; each falls through
    to the next. *)
Definition clean_class (k : kernel) : kernel := unregister DevClass k.
Definition clean_chrdev_region (k : kernel) : kernel :=
  clean_class (unregister ChrdevRegion k).
Definition clean_cdev (k : kernel) : kernel :=
  clean_chrdev_region (unregister CharDev k).

(** [init_netlog_dev] *)
Definition init_netlog_dev (h : netlog_h) (env : dev_results) (k : kernel)
  : Z * kernel :=
  if IS_ERR (class_create_ret env) then (class_create_ret env, k)
  else
    let k := register DevClass k in
    let err := alloc_chrdev_region_ret env in
    if err <? 0 then (err, clean_class k)
    else
      let k := register ChrdevRegion k in
      let err := cdev_add_ret env in
      if err <? 0 then (err, clean_chrdev_region k)
      else
        let k := register CharDev k in
        if IS_ERR (device_create_ret env)
        then (device_create_ret env, clean_cdev k)
        else
          let k := register DevNode k in
          (0, kprint (created_message h) k).

(** [destroy_netlog_dev] *)
Definition destroy_netlog_dev (h : netlog_h) (k : kernel) : kernel :=
  let k := kprint (removing_message h) k in
  let k := unregister DevNode k in
  let k := unregister CharDev k in
  let k := unregister ChrdevRegion k in
  unregister DevClass k.

(** All four calls of [init_netlog_dev] succeed. *)
Definition dev_calls_succeed (env : dev_results) : bool :=
  negb (IS_ERR (class_create_ret env)) &&
  (0 <=? alloc_chrdev_region_ret env) &&
  (0 <=? cdev_add_ret env) &&
  negb (IS_ERR (device_create_ret env)).

(** The value of the first call that failed. *)
Definition first_error (env : dev_results) : Z :=
  if IS_ERR (class_create_ret env) then class_create_ret env
  else if alloc_chrdev_region_ret env <? 0 then alloc_chrdev_region_ret env
  else if cdev_add_ret env <? 0 then cdev_add_ret env
  else device_create_ret env.

(** ** The record of an event, and its line *)

(** The bytes of an address member after [store_record]: zeroes for a
    NULL pointer, the first [n] bytes of the address otherwise. *)
Definition ip_field (n : nat) (ip : option (list Z)) : list Z :=
  match ip with
  | None => replicate n 0
  | Some a => take n a
  end.

(** The members of the record at [record] read back as [store_record]
    stored them for the event [e]. *)
Definition record_intact (LOG_BUF_LEN : Z) (e : event) (buf : list Z)
    (record : Z) : Prop :=
  let pl := stored_path_len LOG_BUF_LEN (ev_path e) in
  load_le buf (record + field.len) 8
    = Ok (record_size_for LOG_BUF_LEN (ev_path e)) /\
  load_le buf (record + field.path_len) 8 = Ok pl /\
  load_le buf (record + field.nsec) 8 = Ok (u64 (ev_now e)) /\
  load_le buf (record + field.pid) 4 = Ok (u32 (ev_pid e)) /\
  load_le buf (record + field.uid) 4 = Ok (u32 (ev_uid e)) /\
  load_le buf (record + field.action) 1 = Ok (u8 (ev_action e)) /\
  load_le buf (record + field.protocol) 1 = Ok (u8 (ev_protocol e)) /\
  load_le buf (record + field.family) 2 = Ok (u16 (ev_family e)) /\
  load_le buf (record + field.src_port) 4 = Ok (u32 (ev_src_port e)) /\
  load_le buf (record + field.dst_port) 4 = Ok (u32 (ev_dst_port e)) /\
  load buf (log_path record) pl = Ok (take (Z.to_nat pl) (ev_path e)) /\
  (u16 (ev_family e) = AF_INET ->
   load buf (record + field.src) sizeof_in_addr
     = Ok (ip_field 4 (ev_src_ip e)) /\
   load buf (record + field.dst) sizeof_in_addr
     = Ok (ip_field 4 (ev_dst_ip e))) /\
  (u16 (ev_family e) = AF_INET6 ->
   load buf (record + field.src) sizeof_in6_addr
     = Ok (ip_field 16 (ev_src_ip e)) /\
   load buf (record + field.dst) sizeof_in6_addr
     = Ok (ip_field 16 (ev_dst_ip e))).

Section Lines.

Variable h : netlog_h.
Variable pI4 : list Z -> list Z.
Variable pI6c : list Z -> list Z.
Variable LOG_BUF_LEN : Z.

(** Address and port of an event as the format strings of
    [netlog_log_read] print them. *)
Definition endpoint_of_event (e : event) (ip : option (list Z)) (port : Z)
  : list Z :=
  if u16 (ev_family e) =? AF_INET then
    pI4 (ip_field 4 ip) ++ bytes_of_string ":" ++ dec (s32 port)
  else if u16 (ev_family e) =? AF_INET6 then
    bytes_of_string "[" ++ pI6c (ip_field 16 ip) ++ bytes_of_string "]:" ++
    dec (s32 port)
  else bytes_of_string "Unknown".

(** The line of an event: what the format strings of [netlog_log_read]
    give for the values that [store_record] was called with. *)
Definition line_of_event (e : event) : list Z :=
  let nsec := u64 (ev_now e) in
  let ts := nsec / 1000000000 in
  let rem_nsec := nsec mod 1000000000 in
  let line :=
    bytes_of_string "<" ++
    dec (u32 (Z.lor (Z.shiftl (LOG_FACILITY h) 3) (LOG_LEVEL h))) ++
    bytes_of_string ">1 - - " ++ bytes_of_string (MODULE_NAME h) ++
    bytes_of_string " - - - [" ++ pad_left 32 5 (dec ts) ++
    bytes_of_string "." ++ pad_left 48 6 (dec (rem_nsec / 1000)) ++
    bytes_of_string "]: " in
  let path :=
    take (Z.to_nat (stored_path_len LOG_BUF_LEN (ev_path e))) (ev_path e) in
  let proto :=
    if u8 (ev_protocol e) =? PROTO_TCP h then bytes_of_string "TCP"
    else if u8 (ev_protocol e) =? PROTO_UDP h then bytes_of_string "UDP"
    else bytes_of_string "UNK" in
  let line := line ++ path ++ bytes_of_string "[" ++ dec (s32 (ev_pid e)) ++
              bytes_of_string "] " ++ proto ++ bytes_of_string " " in
  let src := endpoint_of_event e (ev_src_ip e) (ev_src_port e) in
  let dst := endpoint_of_event e (ev_dst_ip e) (ev_dst_port e) in
  let line := line ++ src in
  let action := u8 (ev_action e) in
  let line :=
    if action =? ACTION_CONNECT h then line ++ bytes_of_string " -> " ++ dst
    else if action =? ACTION_ACCEPT h
         then line ++ bytes_of_string " <- " ++ dst
    else if action =? ACTION_CLOSE h
         then line ++ bytes_of_string " <!> " ++ dst
    else if action =? ACTION_BIND h then line ++ bytes_of_string " BIND "
    else line ++ bytes_of_string " UNK " in
  line ++ bytes_of_string " (uid=" ++ dec (s32 (ev_uid e)) ++
  bytes_of_string ")" ++ [10].

(** What a read that delivers the event returns. *)
Definition delivered (e : event) : read_result :=
  Returned (Z.of_nat (length (line_of_event e))) (line_of_event e).

End Lines.

(** The offset after the records of [es], laid out from offset 0. *)
Definition offset_after (LOG_BUF_LEN : Z) (es : list event) : Z :=
  foldr (fun e n => record_size_for LOG_BUF_LEN (ev_path e) + n) 0 es.

(** Loads that give known bytes: each fact is an offset and the bytes
    found there. *)
Definition holds (facts : list (Z * list Z)) (b : list Z) : Prop :=
  Forall (fun f => load b f.1 (Z.of_nat (length f.2)) = Ok f.2) facts.

(** The range of a fact lies outside [p, p + n). *)
Definition apart (p n : Z) (facts : list (Z * list Z)) : Prop :=
  Forall (fun f => f.1 + Z.of_nat (length f.2) <= p \/ p + n <= f.1) facts.

(** No cursor of an open file is ahead of the writer. *)
Definition cursors_behind (sy : system) : Prop :=
  map_Forall (fun _ d => log_curr_seq d <= log_next_seq (store_of sy))
             (files sy).

(** The calls that append. *)
Definition appends (c : call) : bool :=
  match c with
  | Append _ => true
  | _ => false
  end.

(** What every call keeps true of the device, [n] being the number of
    records appended so far. *)
Definition device_inv (LOG_BUF_LEN n : Z) (sy : system) : Prop :=
  tail_ok LOG_BUF_LEN (store_of sy) /\
  0 <= log_first_seq (store_of sy) <= log_next_seq (store_of sy) /\
  log_next_seq (store_of sy) = n /\
  cursors_behind sy.

(** The records of [es] lie one after the other from offset 0. *)
Definition stored_in_order (LOG_BUF_LEN : Z) (es : list event)
    (buf : list Z) : Prop :=
  forall es1 e es2, es = es1 ++ e :: es2 ->
    record_intact LOG_BUF_LEN e buf (offset_after LOG_BUF_LEN es1).

(** A non-blocking read into a buffer of the size of [user_data.buf]. *)
Definition read_call : bool * Z * bool := (true, sizeof_user_buf, true).

(** ** Sample inputs *)

(** Two pointers in the kernel's address range and two zero returns:
    all four calls of [init_netlog_dev] succeed. *)
Definition sample_results : dev_results :=
  DevResults (- 2 ^ 46) 0 0 (- 2 ^ 46 + 4096).

(** A session opened on the empty log, then one append. *)
Definition open_then_write : list call :=
  [Open 0 true; Append (sample_event 1 7)].

Definition bytes_after (r : res (list Z)) : list Z :=
  match r with
  | Ok b => b
  | Fault _ => []
  end.

(** A path of 8191 bytes, for an arena of 128 KiB. *)
Definition event_8191 : event := sample_event 1 (Z.to_nat 8191).

(** A record of family 1 (AF_UNIX) filled in at the start of an arena
    whose bytes are all 7. *)
Definition unix_record : res (list Z) :=
  fill_record (replicate 256 7) 0 88 7 1 1000 (replicate 7 97) 0 0 1
    (Some [1; 2; 3; 4]) 1 (Some [5; 6; 7; 8]) 2 0.

(** ** Arithmetic of the fixed-width types *)

Lemma u64_small z : 0 <= z < 2 ^ 64 -> u64 z = z.
Proof. intros. unfold u64. apply Z.mod_small. lia. Qed.

Lemma u32_small z : 0 <= z < 2 ^ 32 -> u32 z = z.
Proof. intros. unfold u32. apply Z.mod_small. lia. Qed.

Lemma le_value_bytes n v :
  le_value (le_bytes n v) = v mod 256 ^ Z.of_nat n.
Proof.
  revert v. induction n as [|n IH]; intros v.
  - simpl. by rewrite Z.mod_1_r.
  - cbn [le_bytes le_value]. rewrite IH.
    replace (256 ^ Z.of_nat (S n)) with (256 * 256 ^ Z.of_nat n)
      by (rewrite Nat2Z.inj_succ, Z.pow_succ_r; lia).
    symmetry. apply Z.rem_mul_r; lia.
Qed.

Lemma length_le_bytes n v : length (le_bytes n v) = n.
Proof. revert v. induction n; intros; simpl; auto. Qed.

Lemma strlen_range s : 0 <= strlen s <= Z.of_nat (length s).
Proof.
  induction s as [|c s IH]; simpl; [lia|].
  destruct (c =? 0); lia.
Qed.

(** ** Loads and stores *)

Lemma in_arena_iff buf p n :
  in_arena buf p n = true <->
  0 <= p /\ 0 <= n /\ p + n <= Z.of_nat (length buf).
Proof. unfold in_arena. rewrite !andb_true_iff, !Z.leb_le. tauto. Qed.

Lemma store_inv buf p bs buf' :
  store buf p bs = Ok buf' ->
  0 <= p /\ p + Z.of_nat (length bs) <= Z.of_nat (length buf) /\
  buf' = take (Z.to_nat p) buf ++ bs ++ drop (Z.to_nat p + length bs) buf.
Proof.
  unfold store. destruct (in_arena _ _ _) eqn:E; [|discriminate].
  apply in_arena_iff in E. intros [= <-]. repeat split; lia.
Qed.

Lemma store_in_arena buf p bs :
  0 <= p -> p + Z.of_nat (length bs) <= Z.of_nat (length buf) ->
  exists buf', store buf p bs = Ok buf'.
Proof.
  intros Hp Hn. unfold store.
  assert (in_arena buf p (Z.of_nat (length bs)) = true) as ->
    by (apply in_arena_iff; lia).
  eauto.
Qed.

Lemma store_not_oob_write buf p bs :
  0 <= p -> p + Z.of_nat (length bs) <= Z.of_nat (length buf) ->
  store buf p bs <> Fault OobWrite.
Proof. intros Hp Hn. destruct (store_in_arena buf p bs Hp Hn) as [? ->]. done. Qed.

Lemma store_same_outside buf p bs buf' :
  store buf p bs = Ok buf' ->
  same_outside p (p + Z.of_nat (length bs)) buf buf'.
Proof.
  intros H. apply store_inv in H as (Hp & Hn & ->). split.
  - rewrite !length_app, length_take, length_drop. lia.
  - intros i [Hi|Hi].
    + rewrite lookup_app_l by (rewrite length_take; lia).
      apply lookup_take_lt. lia.
    + rewrite lookup_app_r by (rewrite length_take; lia).
      rewrite length_take.
      rewrite lookup_app_r by lia.
      rewrite lookup_drop. f_equal. lia.
Qed.

Lemma load_store_same buf p bs buf' :
  store buf p bs = Ok buf' ->
  load buf' p (Z.of_nat (length bs)) = Ok bs.
Proof.
  intros H. pose proof (store_same_outside _ _ _ _ H) as [Hlen _].
  apply store_inv in H as (Hp & Hn & ->). unfold load.
  assert (in_arena (take (Z.to_nat p) buf ++ bs ++
                    drop (Z.to_nat p + length bs) buf) p
                   (Z.of_nat (length bs)) = true) as ->
    by (apply in_arena_iff; lia).
  f_equal. rewrite drop_app_length' by (rewrite length_take; lia).
  rewrite Nat2Z.id. apply take_app_length.
Qed.

Lemma same_outside_refl lo hi buf : same_outside lo hi buf buf.
Proof. by split. Qed.

Lemma same_outside_trans lo hi b1 b2 b3 :
  same_outside lo hi b1 b2 -> same_outside lo hi b2 b3 ->
  same_outside lo hi b1 b3.
Proof.
  intros [L1 H1] [L2 H2]. split; [congruence|].
  intros i Hi. rewrite H2, H1; auto.
Qed.

Lemma same_outside_weaken lo hi lo' hi' b1 b2 :
  same_outside lo hi b1 b2 -> lo' <= lo -> hi <= hi' ->
  same_outside lo' hi' b1 b2.
Proof.
  intros [L1 H1] Hlo Hhi. split; [done|].
  intros i Hi. apply H1. lia.
Qed.

Lemma load_same_outside lo hi buf buf' q n :
  same_outside lo hi buf buf' ->
  q + n <= lo \/ hi <= q ->
  load buf' q n = load buf q n.
Proof.
  intros [Hlen Hout] Hq. unfold load.
  assert (in_arena buf' q n = in_arena buf q n) as ->
    by (unfold in_arena; by rewrite Hlen).
  destruct (in_arena buf q n) eqn:E; [|done].
  apply in_arena_iff in E as (H0 & Hn & Hb). f_equal.
  apply list_eq. intros i.
  destruct (decide (i < Z.to_nat n)%nat) as [Hi|Hi].
  - rewrite !lookup_take_lt, !lookup_drop by done. apply Hout. lia.
  - rewrite !lookup_take_ge by lia. done.
Qed.

Lemma load_le_same_outside lo hi buf buf' q n :
  same_outside lo hi buf buf' ->
  q + Z.of_nat n <= lo \/ hi <= q ->
  load_le buf' q n = load_le buf q n.
Proof.
  intros H Hq. unfold load_le. by rewrite (load_same_outside _ _ _ _ _ _ H Hq).
Qed.

Lemma store_le_in_arena buf p n v :
  0 <= p -> p + Z.of_nat n <= Z.of_nat (length buf) ->
  exists buf', store_le buf p n v = Ok buf' /\
    same_outside p (p + Z.of_nat n) buf buf' /\
    load_le buf' p n = Ok (v mod 256 ^ Z.of_nat n).
Proof.
  intros Hp Hn. unfold store_le.
  destruct (store_in_arena buf p (le_bytes n v)) as [buf' H];
    [done | by rewrite length_le_bytes |].
  exists buf'. split; [done|]. split.
  - pose proof (store_same_outside _ _ _ _ H) as Hs.
    by rewrite length_le_bytes in Hs.
  - unfold load_le. apply load_store_same in H.
    rewrite length_le_bytes in H. rewrite H. cbn.
    by rewrite le_value_bytes.
Qed.

Lemma load_length buf p n bs :
  load buf p n = Ok bs -> length bs = Z.to_nat n.
Proof.
  unfold load. destruct (in_arena _ _ _) eqn:E; [|discriminate].
  apply in_arena_iff in E. intros [= <-].
  rewrite length_take, length_drop. lia.
Qed.

(** ** Filling in a record *)

Lemma filling_same lo hi buf0 A B b b' p q :
  filling lo hi buf0 A B b ->
  same_outside p q b b' ->
  lo + 16 <= p -> q <= hi ->
  filling lo hi buf0 A B b'.
Proof.
  intros (S & LA & LB) S' Hp Hq. split; [|split].
  - eapply same_outside_trans; [exact S|].
    eapply same_outside_weaken; [exact S'|lia..].
  - rewrite <- LA. eapply load_le_same_outside; [exact S'|]. lia.
  - rewrite <- LB. eapply load_le_same_outside; [exact S'|]. lia.
Qed.

Lemma filling_length lo hi buf0 A B b :
  filling lo hi buf0 A B b -> length b = length buf0.
Proof. by intros ([? _] & _). Qed.

Lemma store_step lo hi buf0 A B b p bs :
  filling lo hi buf0 A B b ->
  lo + 16 <= p -> p + Z.of_nat (length bs) <= hi ->
  0 <= lo -> hi <= Z.of_nat (length buf0) ->
  exists b', store b p bs = Ok b' /\ filling lo hi buf0 A B b'.
Proof.
  intros F Hp Hq Hlo Hhi.
  destruct (store_in_arena b p bs) as [b' E];
    [lia | rewrite (filling_length _ _ _ _ _ _ F); lia |].
  exists b'. split; [done|].
  eapply filling_same; [exact F | by apply store_same_outside | lia..].
Qed.

Lemma store_le_step lo hi buf0 A B b p n v :
  filling lo hi buf0 A B b ->
  lo + 16 <= p -> p + Z.of_nat n <= hi ->
  0 <= lo -> hi <= Z.of_nat (length buf0) ->
  exists b', store_le b p n v = Ok b' /\ filling lo hi buf0 A B b'.
Proof.
  intros. unfold store_le. apply store_step; try done.
  by rewrite length_le_bytes.
Qed.

Lemma put_ip_step lo hi buf0 A B b p family ip :
  filling lo hi buf0 A B b ->
  lo + 16 <= p -> p + 16 <= hi ->
  0 <= lo -> hi <= Z.of_nat (length buf0) ->
  let m := match ip with
           | None => memset b p 0 16
           | Some a => copy_ip b p a (u16 family)
           end in
  (m = Fault OobRead /\ ip_readable family ip = false) \/
  (exists b', m = Ok b' /\ filling lo hi buf0 A B b' /\
              ip_readable family ip = true).
Proof.
  intros F Hp Hq Hlo Hhi. destruct ip as [a|]; cbn zeta.
  - unfold copy_ip, ip_readable, memcpy, sizeof_in_addr, sizeof_in6_addr.
    destruct (u16 family =? AF_INET);
      [|destruct (u16 family =? AF_INET6)].
    + destruct (4 <=? Z.of_nat (length a)) eqn:E.
      * apply Z.leb_le in E. right.
        destruct (load a 0 4) as [bs|] eqn:El.
        2:{ unfold load in El.
            assert (in_arena a 0 4 = true) as Hin
              by (apply in_arena_iff; lia).
            rewrite Hin in El. discriminate. }
        pose proof (load_length _ _ _ _ El) as Hbs. cbn.
        destruct (store_step lo hi buf0 A B b p bs F) as (b' & -> & F');
          [lia.. |]. eauto.
      * apply Z.leb_gt in E. left. unfold load.
        assert (in_arena a 0 4 = false) as ->.
        { apply not_true_is_false. rewrite in_arena_iff. lia. }
        done.
    + destruct (16 <=? Z.of_nat (length a)) eqn:E.
      * apply Z.leb_le in E. right.
        destruct (load a 0 16) as [bs|] eqn:El.
        2:{ unfold load in El.
            assert (in_arena a 0 16 = true) as Hin
              by (apply in_arena_iff; lia).
            rewrite Hin in El. discriminate. }
        pose proof (load_length _ _ _ _ El) as Hbs. cbn.
        destruct (store_step lo hi buf0 A B b p bs F) as (b' & -> & F');
          [lia.. |]. eauto.
      * apply Z.leb_gt in E. left. unfold load.
        assert (in_arena a 0 16 = false) as ->.
        { apply not_true_is_false. rewrite in_arena_iff. lia. }
        done.
    + right. eauto.
  - right. unfold memset.
    destruct (store_step lo hi buf0 A B b p (replicate (Z.to_nat 16) (u8 0)) F)
      as (b' & -> & F'); [lia | rewrite length_replicate; lia | lia.. |].
    eauto.
Qed.

Lemma fill_record_spec buf record rs path_len pid uid path
    action protocol family src_ip src_port dst_ip dst_port now :
  0 <= record -> record + rs <= Z.of_nat (length buf) ->
  0 <= path_len <= Z.of_nat (length path) ->
  sizeof_netlog_log + path_len <= rs ->
  let r := fill_record buf record rs path_len pid uid path action protocol
             family src_ip src_port dst_ip dst_port now in
  (r = Fault OobRead /\
   ip_readable family src_ip && ip_readable family dst_ip = false) \/
  (exists buf', r = Ok buf' /\
     ip_readable family src_ip && ip_readable family dst_ip = true /\
     same_outside record (record + rs) buf buf' /\
     load_le buf' (record + field.len) 8 = Ok (rs mod 2 ^ 64) /\
     load_le buf' (record + field.path_len) 8 = Ok (path_len mod 2 ^ 64) /\
     load buf' (log_path record) path_len
       = Ok (take (Z.to_nat path_len) path)).
Proof.
  intros Hrec Hfit Hpl Hrs r. subst r.
  unfold fill_record, log_path, sizeof_netlog_log in *.
  unfold field.len, field.path_len, field.nsec, field.pid, field.uid,
    field.action, field.protocol, field.family, field.src_port,
    field.dst_port, field.dst, field.src.
  rewrite Z.add_0_r.
  destruct (store_le_in_arena buf record 8 rs) as (b1 & -> & S1 & L1);
    [lia..|]. cbn [mbind res_bind].
  assert (length b1 = length buf) as Hl1 by apply S1.
  destruct (store_le_in_arena b1 (record + 8) 8 path_len)
    as (b2 & -> & S2 & L2); [lia..|]. cbn [mbind res_bind].
  change (256 ^ Z.of_nat 8) with (2 ^ 64) in L1, L2.
  assert (filling record (record + rs) buf (rs mod 2 ^ 64)
            (path_len mod 2 ^ 64) b2) as F.
  { split; [|split].
    - eapply same_outside_trans;
        (eapply same_outside_weaken; [eassumption|lia..]).
    - rewrite <- L1. eapply load_le_same_outside; [exact S2|]. lia.
    - exact L2. }
  clear S1 L1 S2 L2 Hl1.
  repeat
    match goal with
    | |- context [store_le ?b ?p ?n ?v ≫= _] =>
        destruct (store_le_step record (record + rs) buf _ _ b p n v F)
          as (? & -> & F'); [lia..|];
        clear F; rename F' into F; cbn [mbind res_bind]
    end.
  match goal with
  | |- context [mbind _ (match src_ip with _ => _ end)] =>
      destruct (put_ip_step record (record + rs) buf _ _ _
                  (record + 60) family src_ip F)
        as [[-> Hs]|(b' & -> & F' & Hs)]; [lia..| |];
      cbn [mbind res_bind]
  end.
  { left. by rewrite Hs. }
  clear F; rename F' into F.
  match goal with
  | |- context [mbind _ (match dst_ip with _ => _ end)] =>
      destruct (put_ip_step record (record + rs) buf _ _ _
                  (record + 44) family dst_ip F)
        as [[-> Hd]|(b'' & -> & F' & Hd)]; [lia..| |];
      cbn [mbind res_bind]
  end.
  { left. rewrite Hd. by rewrite andb_false_r. }
  clear F; rename F' into F.
  repeat
    match goal with
    | |- context [store_le ?b ?p ?n ?v ≫= _] =>
        destruct (store_le_step record (record + rs) buf _ _ b p n v F)
          as (? & -> & F'); [lia..|];
        clear F; rename F' into F; cbn [mbind res_bind]
    end.
  right. unfold memcpy.
  assert (load path 0 path_len = Ok (take (Z.to_nat path_len) path)) as ->.
  { unfold load.
    assert (in_arena path 0 path_len = true) as ->
      by (apply in_arena_iff; lia).
    done. }
  cbn [mbind res_bind].
  set (bs := take (Z.to_nat path_len) path).
  assert (length bs = Z.to_nat path_len) as Hbs
    by (subst bs; rewrite length_take; lia).
  match goal with
  | |- context [store ?b ?p bs] =>
      destruct (store_step record (record + rs) buf _ _ b p bs F)
        as (bf & E & (Sf & LA & LB)); [lia..|]
  end.
  exists bf. rewrite E. rewrite Hs, Hd.
  repeat split; try apply Sf; try done.
  apply load_store_same in E. by rewrite Hbs, Z2Nat.id in E by lia.
Qed.

(** ** Sizes *)

Lemma record_size_bounds p :
  0 <= p < 2 ^ 32 ->
  sizeof_netlog_log + p + 1 <= record_size_of p <= sizeof_netlog_log + p + 8
  /\ record_size_of p mod 8 = 0.
Proof.
  intros Hp. unfold record_size_of, sizeof_netlog_log, LOG_ALIGN.
  rewrite (u64_small (80 + p + 1)) by lia.
  set (x := 80 + p + 1).
  change (8 - 1) with (Z.ones 3). rewrite Z.land_ones by lia.
  assert (u64 (- x) mod 2 ^ 3 = (- x) mod 8) as ->.
  { unfold u64. change (2 ^ 3) with 8.
    apply Z.mod_mod_divide. exists (2 ^ 61). reflexivity. }
  assert (0 <= (- x) mod 8 < 8) by (apply Z.mod_pos_bound; lia).
  rewrite u64_small by lia.
  assert ((x + (- x) mod 8) mod 8 = 0).
  { rewrite Zplus_mod_idemp_r. replace (x + - x) with 0 by lia. done. }
  unfold x in *. lia.
Qed.

Section Capacity.

Variable LOG_BUF_LEN : Z.
Hypothesis capacity : 256 <= LOG_BUF_LEN < 2 ^ 31.

Lemma limit_value : Z.shiftr LOG_BUF_LEN 4 = LOG_BUF_LEN / 16.
Proof. by rewrite Z.shiftr_div_pow2. Qed.

Lemma path_too_long_iff n :
  0 <= n ->
  path_too_long LOG_BUF_LEN n = (n >? LOG_BUF_LEN / 16).
Proof.
  intros Hn. unfold path_too_long, INT_MAX. rewrite limit_value.
  destruct (n >? LOG_BUF_LEN / 16) eqn:E; [done|].
  cbn. rewrite Z.gtb_ltb in *. apply Z.ltb_ge. apply Z.ltb_ge in E. lia.
Qed.

Lemma stored_path_len_value path :
  stored_path_len LOG_BUF_LEN path
  = Z.min (strlen path) (LOG_BUF_LEN / 16).
Proof.
  unfold stored_path_len.
  pose proof (strlen_range path) as Hs.
  rewrite path_too_long_iff by lia. rewrite limit_value. unfold INT_MAX.
  destruct (strlen path >? LOG_BUF_LEN / 16) eqn:E;
    rewrite Z.gtb_ltb in E.
  - apply Z.ltb_lt in E. lia.
  - apply Z.ltb_ge in E. lia.
Qed.

Lemma stored_path_len_range path :
  0 <= stored_path_len LOG_BUF_LEN path <= Z.of_nat (length path) /\
  stored_path_len LOG_BUF_LEN path <= LOG_BUF_LEN / 16.
Proof.
  rewrite stored_path_len_value. pose proof (strlen_range path). lia.
Qed.

Lemma record_size_for_range path :
  let rs := record_size_for LOG_BUF_LEN path in
  sizeof_netlog_log + stored_path_len LOG_BUF_LEN path + 1 <= rs /\
  rs <= 88 + LOG_BUF_LEN / 16 /\
  2 * rs + sizeof_size_t <= LOG_BUF_LEN.
Proof.
  cbn zeta. unfold record_size_for.
  pose proof (stored_path_len_range path) as [H1 H2].
  pose proof (record_size_bounds (stored_path_len LOG_BUF_LEN path)) as [H3 _];
    [lia|].
  unfold sizeof_netlog_log, sizeof_size_t in *. lia.
Qed.

End Capacity.

(** ** The eviction loop *)

Lemma only_first_moved_refl s : only_first_moved s s.
Proof. by repeat split. Qed.

Lemma only_first_moved_trans s1 s2 s3 :
  only_first_moved s1 s2 -> only_first_moved s2 s3 -> only_first_moved s1 s3.
Proof.
  unfold only_first_moved. intros (?&?&?&?&?) (?&?&?&?&?).
  repeat split; congruence.
Qed.

Lemma drop_oldest_inv s s' :
  drop_oldest s = Ok s' ->
  only_first_moved s s' /\
  log_first_seq s' = u64 (log_first_seq s + 1) /\
  next_record (log_buf s) (log_first_idx s) = Ok (log_first_idx s').
Proof.
  unfold drop_oldest.
  destruct (next_record _ _) as [idx|] eqn:E; cbn; [|done].
  intros [= <-]. cbn. by repeat split.
Qed.

Lemma drop_oldest_fault s f : drop_oldest s = Fault f -> f = OobRead.
Proof.
  unfold drop_oldest, next_record, load_le, load.
  destruct (in_arena _ _ _); cbn.
  - by destruct (_ =? 0).
  - by intros [= <-].
Qed.

Lemma drops_moved k s s' : drops k s = Ok s' -> only_first_moved s s'.
Proof.
  revert s. induction k as [|k IH]; intros s; cbn.
  - intros [= <-]. apply only_first_moved_refl.
  - destruct (drop_oldest s) as [s1|] eqn:E; cbn; [|done].
    intros H. apply drop_oldest_inv in E as [E _].
    eapply only_first_moved_trans; eauto.
Qed.

Lemma evict_unfold LOG_BUF_LEN fuel rs s :
  evict LOG_BUF_LEN fuel rs s =
  if log_first_seq s <? log_next_seq s then
    if free LOG_BUF_LEN s >? rs + sizeof_size_t then Ok s
    else match fuel with
         | O => Fault Spin
         | S fuel' => s' ← drop_oldest s; evict LOG_BUF_LEN fuel' rs s'
         end
  else Ok s.
Proof. by destruct fuel. Qed.

Lemma evict_drops LOG_BUF_LEN fuel rs s s' :
  evict LOG_BUF_LEN fuel rs s = Ok s' ->
  exists k, (k <= fuel)%nat /\ drops k s = Ok s' /\
    (forall j sj, (j < k)%nat -> drops j s = Ok sj ->
       log_first_seq sj < log_next_seq sj /\
       free LOG_BUF_LEN sj <= rs + sizeof_size_t) /\
    (log_first_seq s' >= log_next_seq s' \/
     free LOG_BUF_LEN s' > rs + sizeof_size_t).
Proof.
  revert s. induction fuel as [|fuel IH]; intros s; rewrite evict_unfold.
  - destruct (log_first_seq s <? log_next_seq s) eqn:Elive.
    + destruct (free LOG_BUF_LEN s >? rs + sizeof_size_t) eqn:Efree; [|done].
      intros [= <-]. exists O. split; [lia|]. split; [done|]. split; [intros; lia|].
      right. rewrite Z.gtb_ltb in Efree. apply Z.ltb_lt in Efree. lia.
    + intros [= <-]. exists O. split; [lia|]. split; [done|]. split; [intros; lia|].
      left. apply Z.ltb_ge in Elive. lia.
  - destruct (log_first_seq s <? log_next_seq s) eqn:Elive.
    + destruct (free LOG_BUF_LEN s >? rs + sizeof_size_t) eqn:Efree.
      * intros [= <-]. exists O. split; [lia|]. split; [done|]. split; [intros; lia|].
        right. rewrite Z.gtb_ltb in Efree. apply Z.ltb_lt in Efree. lia.
      * destruct (drop_oldest s) as [s1|] eqn:E; cbn; [|done].
        intros H. apply IH in H as (k & Hk & Hd & Hbefore & Hafter).
        exists (S k). split; [lia|]. split; [cbn; by rewrite E|]. split; [|done].
        intros [|j] sj Hj; cbn.
        -- intros [= <-]. apply Z.ltb_lt in Elive.
           rewrite Z.gtb_ltb in Efree. apply Z.ltb_ge in Efree. lia.
        -- rewrite E. cbn. apply Hbefore. lia.
    + intros [= <-]. exists O. split; [lia|]. split; [done|]. split; [intros; lia|].
      left. apply Z.ltb_ge in Elive. lia.
Qed.

Lemma evict_moved LOG_BUF_LEN fuel rs s s' :
  evict LOG_BUF_LEN fuel rs s = Ok s' -> only_first_moved s s'.
Proof.
  intros H. apply evict_drops in H as (k & _ & H & _).
  by eapply drops_moved.
Qed.

Lemma evict_fault LOG_BUF_LEN fuel rs s f :
  evict LOG_BUF_LEN fuel rs s = Fault f -> f = OobRead \/ f = Spin.
Proof.
  revert s. induction fuel as [|fuel IH]; intros s; rewrite evict_unfold.
  - repeat case_match; try done. intros [= <-]. by right.
  - repeat case_match; try done.
    destruct (drop_oldest s) as [s1|f1] eqn:E; cbn.
    + apply IH.
    + intros [= <-]. left. by eapply drop_oldest_fault.
Qed.

Lemma passes_drop s s1 :
  seq_typed s -> log_first_seq s < log_next_seq s ->
  drop_oldest s = Ok s1 ->
  seq_typed s1 /\ log_first_seq s1 = log_first_seq s + 1 /\
  passes s = S (passes s1).
Proof.
  intros (H0 & H1 & H2) Hlive E.
  apply drop_oldest_inv in E as ((_ & En & _) & Ef & _).
  rewrite u64_small in Ef by lia.
  unfold seq_typed, passes. rewrite En, Ef. repeat split; lia.
Qed.

Lemma evict_no_spin LOG_BUF_LEN fuel rs s :
  seq_typed s -> (passes s <= fuel)%nat ->
  evict LOG_BUF_LEN fuel rs s <> Fault Spin.
Proof.
  revert s. induction fuel as [|fuel IH]; intros s Ht Hf;
    rewrite evict_unfold.
  - destruct (log_first_seq s <? log_next_seq s) eqn:Elive; [|done].
    apply Z.ltb_lt in Elive. unfold passes in Hf. lia.
  - destruct (log_first_seq s <? log_next_seq s) eqn:Elive; [|done].
    destruct (free LOG_BUF_LEN s >? rs + sizeof_size_t); [done|].
    apply Z.ltb_lt in Elive.
    destruct (drop_oldest s) as [s1|f1] eqn:E; cbn.
    + destruct (passes_drop s s1 Ht Elive E) as (Ht1 & _ & Hp).
      apply IH; [done | lia].
    + apply drop_oldest_fault in E as ->. done.
Qed.

Lemma evict_readable LOG_BUF_LEN fuel rs s :
  seq_typed s -> (passes s <= fuel)%nat ->
  is_ok (drops fuel s) = true ->
  exists s', evict LOG_BUF_LEN fuel rs s = Ok s'.
Proof.
  revert s. induction fuel as [|fuel IH]; intros s Ht Hf Hr;
    rewrite evict_unfold.
  - destruct (log_first_seq s <? log_next_seq s) eqn:Elive; [|eauto].
    apply Z.ltb_lt in Elive. unfold passes in Hf. lia.
  - destruct (log_first_seq s <? log_next_seq s) eqn:Elive; [|eauto].
    destruct (free LOG_BUF_LEN s >? rs + sizeof_size_t); [eauto|].
    apply Z.ltb_lt in Elive. cbn in Hr.
    destruct (drop_oldest s) as [s1|f1] eqn:E; cbn in *; [|done].
    destruct (passes_drop s s1 Ht Elive E) as (Ht1 & _ & Hp).
    apply IH; [done | lia | done].
Qed.

(** ** Writing the record *)

Section Writing.

Variable LOG_BUF_LEN : Z.
Hypothesis capacity : 256 <= LOG_BUF_LEN < 2 ^ 31.

Lemma must_wrap_iff rs s :
  0 <= log_next_idx s < LOG_BUF_LEN -> 0 <= rs <= LOG_BUF_LEN ->
  must_wrap LOG_BUF_LEN rs s = true <->
  LOG_BUF_LEN <= log_next_idx s + rs + sizeof_size_t.
Proof.
  intros Hn Hrs. unfold must_wrap, sizeof_size_t.
  rewrite u64_small by lia. rewrite Z.geb_le. done.
Qed.

Lemma write_record_spec s pid uid path action protocol family
    src_ip src_port dst_ip dst_port now :
  tail_ok LOG_BUF_LEN s ->
  let path_len := stored_path_len LOG_BUF_LEN path in
  let rs := record_size_for LOG_BUF_LEN path in
  let r := record_start LOG_BUF_LEN rs s in
  let w := write_record LOG_BUF_LEN rs path_len pid uid path action protocol
             family src_ip src_port dst_ip dst_port now s in
  (must_wrap LOG_BUF_LEN rs s = true ->
   0 <= log_next_idx s /\ log_next_idx s + sizeof_size_t <= LOG_BUF_LEN) /\
  (0 <= r /\ r + rs <= LOG_BUF_LEN) /\
  ((w = Fault OobRead /\
    ip_readable family src_ip && ip_readable family dst_ip = false) \/
   (exists s', w = Ok s' /\
      ip_readable family src_ip && ip_readable family dst_ip = true /\
      record_written LOG_BUF_LEN rs path_len path s s')).
Proof.
  intros (Hlen & Hn0 & Hn1) path_len rs r w.
  pose proof (stored_path_len_range LOG_BUF_LEN capacity path) as [Hpl Hpl'].
  pose proof (record_size_for_range LOG_BUF_LEN capacity path)
    as (Hrs1 & Hrs2 & Hrs3).
  fold path_len in Hpl, Hpl', Hrs1. cbn zeta in Hrs1, Hrs2, Hrs3.
  fold rs in Hrs1, Hrs2, Hrs3.
  unfold sizeof_size_t, sizeof_netlog_log in *.
  assert (Hw : must_wrap LOG_BUF_LEN rs s = true <->
               LOG_BUF_LEN <= log_next_idx s + rs + 8).
  { apply must_wrap_iff; lia. }
  assert (Hr : 0 <= r /\ r + rs <= LOG_BUF_LEN).
  { subst r. unfold record_start.
    destruct (must_wrap LOG_BUF_LEN rs s) eqn:E; [lia|].
    assert (~ LOG_BUF_LEN <= log_next_idx s + rs + 8)
      by (rewrite <- Hw; congruence). lia. }
  split; [intros _; lia|]. split; [exact Hr|].
  subst w. unfold write_record, wrap_around.
  assert (Hr' : r = record_start LOG_BUF_LEN rs s) by done.
  unfold record_start in Hr'.
  destruct (must_wrap LOG_BUF_LEN rs s) eqn:E.
  - (* the sentinel, then the record at offset 0 *)
    destruct (store_le_in_arena (log_buf s) (log_next_idx s) 8 0)
      as (b0 & -> & S0 & L0); [lia | lia |]. cbn [mbind res_bind].
    change (0 mod 256 ^ Z.of_nat 8) with 0 in L0.
    cbn [log_next_idx log_buf set_next set_buf log_next_seq].
    assert (Hb0 : length b0 = length (log_buf s)) by apply S0.
    destruct (fill_record_spec b0 0 rs path_len pid uid path action protocol
                family src_ip src_port dst_ip dst_port now)
      as [[-> Hbad]|(b' & -> & Eip & Sf & Ll & Lp & Lpath)];
      [lia | lia | lia | unfold sizeof_netlog_log; lia | by left |].
    right. cbn [mbind res_bind].
    eexists. split; [reflexivity|]. split; [done|].
    assert (Hwrap : LOG_BUF_LEN <= log_next_idx s + rs + 8) by (by apply Hw).
    unfold record_written, record_start, tail_ok, sizeof_size_t.
    rewrite E. cbn.
    rewrite !u32_small by lia.
    rewrite !Z.mod_small in * by lia.
    assert (Hb' : length b' = length b0) by apply Sf.
    repeat split; try done; try lia; try congruence.
    + intros _. rewrite <- L0.
      eapply load_le_same_outside; [exact Sf|]. lia.
    + intros i Hi1 Hi2. destruct Sf as [_ Sf], S0 as [_ S0].
      rewrite Sf by lia. apply S0.
      destruct (decide (log_next_idx s <= Z.of_nat i < log_next_idx s + 8));
        [|lia]. exfalso. apply Hi2. done.
  - (* the record at the write position *)
    cbn [mbind res_bind].
    assert (Hnowrap : ~ LOG_BUF_LEN <= log_next_idx s + rs + 8)
      by (rewrite <- Hw; congruence).
    destruct (fill_record_spec (log_buf s) (log_next_idx s) rs path_len pid
                uid path action protocol family src_ip src_port dst_ip
                dst_port now)
      as [[-> Hbad]|(b' & -> & Eip & Sf & Ll & Lp & Lpath)];
      [lia | lia | lia | unfold sizeof_netlog_log; lia | by left |].
    right. cbn [mbind res_bind].
    eexists. split; [reflexivity|]. split; [done|].
    unfold record_written, record_start, tail_ok, sizeof_size_t.
    rewrite E. cbn.
    rewrite !u32_small by lia.
    rewrite !Z.mod_small in * by lia.
    assert (Hb' : length b' = length (log_buf s)) by apply Sf.
    repeat split; try done; try lia; try congruence.
    intros i Hi1 Hi2. destruct Sf as [_ Sf]. apply Sf. lia.
Qed.

End Writing.

(** ** Reading a path back *)

Lemma load_cons buf p n c bs :
  load buf p (Z.of_nat (S n)) = Ok (c :: bs) ->
  load_le buf p 1 = Ok c /\ load buf (p + 1) (Z.of_nat n) = Ok bs.
Proof.
  unfold load_le, load.
  destruct (in_arena buf p (Z.of_nat (S n))) eqn:E; [|done].
  apply in_arena_iff in E as (Hp & _ & Hb).
  assert (in_arena buf p (Z.of_nat 1) = true) as ->
    by (apply in_arena_iff; lia).
  assert (in_arena buf (p + 1) (Z.of_nat n) = true) as ->
    by (apply in_arena_iff; lia).
  rewrite !Nat2Z.id. intros [= H].
  destruct (drop (Z.to_nat p) buf) as [|x l] eqn:El; [done|].
  cbn in H. injection H as -> Hbs. cbn. split.
  - rewrite take_0. cbn. f_equal. lia.
  - f_equal. replace (Z.to_nat (p + 1)) with (Z.to_nat p + 1)%nat by lia.
    rewrite <- drop_drop, El. done.
Qed.

Lemma load_str_nonzero buf p bs :
  load buf p (Z.of_nat (length bs)) = Ok bs ->
  Forall (fun c => c <> 0) bs ->
  load_str buf p (length bs) = Ok bs.
Proof.
  revert p. induction bs as [|c bs IH]; intros p Hl Hnz; [done|].
  cbn [length] in Hl. apply load_cons in Hl as [Hc Hrest].
  apply Forall_cons in Hnz as [Hc0 Hnz].
  cbn [length load_str]. rewrite Hc. cbn [mbind res_bind].
  apply Z.eqb_neq in Hc0. rewrite Hc0.
  rewrite (IH _ Hrest Hnz). done.
Qed.

Lemma take_strlen_nonzero path n :
  n <= strlen path -> Forall (fun c => c <> 0) (take (Z.to_nat n) path).
Proof.
  revert n. induction path as [|c path IH]; intros n Hn.
  - by rewrite take_nil.
  - destruct (Z.to_nat n) as [|k] eqn:Ek; [constructor|].
    cbn in *. destruct (c =? 0) eqn:Ec; [lia|].
    apply Z.eqb_neq in Ec. constructor; [done|].
    replace k with (Z.to_nat (n - 1)) by lia. apply IH. lia.
Qed.

(** ** Appends *)

Lemma passes_warn LOG_BUF_LEN path s :
  passes (warn_truncation LOG_BUF_LEN path s) = passes s.
Proof. unfold warn_truncation. by destruct (path_too_long _ _). Qed.

Lemma submit_parts LOG_BUF_LEN e s :
  submit LOG_BUF_LEN e s =
  (s1 ← evict LOG_BUF_LEN (passes s) (record_size_for LOG_BUF_LEN (ev_path e))
         (warn_truncation LOG_BUF_LEN (ev_path e) s);
   write_record LOG_BUF_LEN (record_size_for LOG_BUF_LEN (ev_path e))
     (stored_path_len LOG_BUF_LEN (ev_path e)) (ev_pid e) (ev_uid e)
     (ev_path e) (ev_action e) (ev_protocol e) (ev_family e) (ev_src_ip e)
     (ev_src_port e) (ev_dst_ip e) (ev_dst_port e) (ev_now e) s1).
Proof.
  unfold submit, store_record. fold (warn_truncation LOG_BUF_LEN (ev_path e) s).
  fold (passes (warn_truncation LOG_BUF_LEN (ev_path e) s)).
  by rewrite passes_warn.
Qed.

Lemma warn_moved LOG_BUF_LEN path s :
  let s' := warn_truncation LOG_BUF_LEN path s in
  log_buf s' = log_buf s /\ log_first_seq s' = log_first_seq s /\
  log_first_idx s' = log_first_idx s /\ log_next_seq s' = log_next_seq s /\
  log_next_idx s' = log_next_idx s /\ first_read s' = first_read s.
Proof. cbn. unfold warn_truncation. by destruct (path_too_long _ _). Qed.

Lemma drops_warn LOG_BUF_LEN path k s :
  is_ok (drops k (warn_truncation LOG_BUF_LEN path s)) = is_ok (drops k s).
Proof.
  unfold warn_truncation. destruct (path_too_long _ _); [|done].
  revert s. induction k as [|k IH]; intros s; [done|]. cbn.
  unfold drop_oldest. cbn.
  destruct (next_record (log_buf s) (log_first_idx s)); cbn; [|done].
  apply (IH (set_first _ _ s)).
Qed.

Section Appends.

Variable LOG_BUF_LEN : Z.
Hypothesis capacity : 256 <= LOG_BUF_LEN < 2 ^ 31.

(** An append on a state with a sound tail: either a read went outside
    an array (a length header met by the eviction loop, or an address of
    the event), or the record is written as [record_written] says. *)
Lemma submit_spec e s :
  tail_ok LOG_BUF_LEN s ->
  let rs := record_size_for LOG_BUF_LEN (ev_path e) in
  let pl := stored_path_len LOG_BUF_LEN (ev_path e) in
  let s0 := warn_truncation LOG_BUF_LEN (ev_path e) s in
  submit LOG_BUF_LEN e s <> Fault OobWrite /\
  (seq_typed s -> submit LOG_BUF_LEN e s <> Fault Spin) /\
  forall s1, evict LOG_BUF_LEN (passes s) rs s0 = Ok s1 ->
    only_first_moved s0 s1 /\
    ((submit LOG_BUF_LEN e s = Fault OobRead /\ event_ok e = false) \/
     (exists s', submit LOG_BUF_LEN e s = Ok s' /\ event_ok e = true /\
        record_written LOG_BUF_LEN rs pl (ev_path e) s1 s')).
Proof.
  intros Ht rs pl s0. rewrite submit_parts. fold rs pl s0.
  pose proof (warn_moved LOG_BUF_LEN (ev_path e) s) as W. cbn zeta in W.
  fold s0 in W. destruct W as (Wb & Wfs & Wfi & Wns & Wni & Wfr).
  assert (Hstep : forall s1, evict LOG_BUF_LEN (passes s) rs s0 = Ok s1 ->
            only_first_moved s0 s1 /\ tail_ok LOG_BUF_LEN s1).
  { intros s1 E. pose proof (evict_moved _ _ _ _ _ E) as M. split; [done|].
    destruct M as (Mb & _ & Mn & _). destruct Ht as (H1 & H2 & H3).
    unfold tail_ok. rewrite Mb, Mn, Wb, Wni. done. }
  destruct (evict LOG_BUF_LEN (passes s) rs s0) as [s1|f] eqn:E.
  - destruct (Hstep s1 eq_refl) as [M T]. cbn [mbind res_bind].
    pose proof (write_record_spec LOG_BUF_LEN capacity s1 (ev_pid e)
                  (ev_uid e) (ev_path e) (ev_action e) (ev_protocol e)
                  (ev_family e) (ev_src_ip e) (ev_src_port e) (ev_dst_ip e)
                  (ev_dst_port e) (ev_now e) T) as Hw.
    cbn zeta in Hw. fold rs pl in Hw.
    destruct Hw as (_ & _ & [[Hw Hbad]|(s' & Hw & Hok & Hrw)]); rewrite Hw.
    + split; [done|]. split; [done|]. intros ? [= <-]. split; [done|].
      left. split; [done | exact Hbad].
    + split; [done|]. split; [done|]. intros ? [= <-]. split; [done|].
      right. exists s'. split; [done|]. split; [exact Hok | exact Hrw].
  - cbn [mbind res_bind]. split; [|split; [|done]].
    + apply evict_fault in E. intros [= ->]. by destruct E.
    + intros Hty [= ->]. eapply evict_no_spin; [| |exact E].
      * unfold seq_typed in *. by rewrite Wfs, Wns.
      * unfold s0. by rewrite passes_warn.
Qed.

(** The invariants that every state reached by the module has. *)
Lemma reachable_tail s : reachable LOG_BUF_LEN s -> tail_ok LOG_BUF_LEN s.
Proof.
  induction 1 as [|s e s' _ IH Hs|s alloc_ok _ IH].
  - unfold tail_ok, netlog_init, sizeof_size_t. cbn.
    rewrite length_replicate. lia.
  - destruct (submit_spec e s IH) as (_ & _ & H).
    rewrite submit_parts in Hs.
    destruct (evict _ _ _ _) as [s1|] eqn:E; [|done].
    destruct (H s1 eq_refl) as (_ & [[Hf _]|(s'' & Hs' & _ & Hw)]).
    + rewrite submit_parts, E in Hf. cbn [mbind res_bind] in *. congruence.
    + rewrite submit_parts, E in Hs'. cbn [mbind res_bind] in *.
      assert (s'' = s') as -> by congruence. apply Hw.
  - unfold netlog_log_open.
    destruct (negb alloc_ok); [done|]. by destruct (first_read s).
Qed.

End Appends.

Lemma must_wrap_next LOG_BUF_LEN rs s s' :
  log_next_idx s' = log_next_idx s ->
  must_wrap LOG_BUF_LEN rs s' = must_wrap LOG_BUF_LEN rs s /\
  record_start LOG_BUF_LEN rs s' = record_start LOG_BUF_LEN rs s.
Proof. intros H. unfold record_start, must_wrap. by rewrite H. Qed.

Lemma submit_ok LOG_BUF_LEN e s :
  256 <= LOG_BUF_LEN < 2 ^ 31 ->
  tail_ok LOG_BUF_LEN s -> seq_typed s ->
  headers_readable s = true -> event_ok e = true ->
  exists s1 s',
    log_buf s1 = log_buf s /\ log_next_idx s1 = log_next_idx s /\
    log_next_seq s1 = log_next_seq s /\
    dmesg s1 = dmesg (warn_truncation LOG_BUF_LEN (ev_path e) s) /\
    submit LOG_BUF_LEN e s = Ok s' /\
    record_written LOG_BUF_LEN (record_size_for LOG_BUF_LEN (ev_path e))
      (stored_path_len LOG_BUF_LEN (ev_path e)) (ev_path e) s1 s'.
Proof.
  intros capacity Ht Hty Hr He.
  pose proof (warn_moved LOG_BUF_LEN (ev_path e) s) as W. cbn zeta in W.
  destruct W as (Wb & Wfs & Wfi & Wns & Wni & Wfr).
  destruct (evict_readable LOG_BUF_LEN (passes s)
              (record_size_for LOG_BUF_LEN (ev_path e))
              (warn_truncation LOG_BUF_LEN (ev_path e) s)) as [s1 E].
  - unfold seq_typed in *. by rewrite Wfs, Wns.
  - by rewrite passes_warn.
  - rewrite drops_warn. exact Hr.
  - destruct (submit_spec LOG_BUF_LEN capacity e s Ht) as (_ & _ & H).
    destruct (H s1 E) as ((Mb & Mns & Mni & _ & Md) &
                          [[_ Hbad]|(s' & Hs & _ & Hw)]);
      [by rewrite He in Hbad|].
    exists s1, s'. split; [congruence|]. split; [congruence|].
    split; [congruence|]. split; [exact Md|]. split; [exact Hs | exact Hw].
Qed.

(** ** The claims about appends *)

(** C10 — Every byte written by an append stays inside the arena: in
    every state the module can reach, the sentinel, when one is written,
    lies in [log_next_idx, log_next_idx + sizeof(size_t)) within the
    arena, the record lies in [r, r + record_size) within the arena, no
    store of the append leaves the arena, and a completed append has
    changed no byte outside these two ranges. *)
Theorem append_stays_in_arena LOG_BUF_LEN e s :
  256 <= LOG_BUF_LEN < 2 ^ 31 ->
  reachable LOG_BUF_LEN s ->
  let rs := record_size_for LOG_BUF_LEN (ev_path e) in
  let r := record_start LOG_BUF_LEN rs s in
  length (log_buf s) = Z.to_nat LOG_BUF_LEN /\
  (must_wrap LOG_BUF_LEN rs s = true ->
   0 <= log_next_idx s /\ log_next_idx s + sizeof_size_t <= LOG_BUF_LEN) /\
  (0 <= r /\ r + rs <= LOG_BUF_LEN) /\
  submit LOG_BUF_LEN e s <> Fault OobWrite /\
  forall s', submit LOG_BUF_LEN e s = Ok s' ->
    length (log_buf s') = Z.to_nat LOG_BUF_LEN /\
    log_next_idx s' = r + rs /\
    forall i : nat,
      ~ (r <= Z.of_nat i < r + rs) ->
      ~ (must_wrap LOG_BUF_LEN rs s = true /\
         log_next_idx s <= Z.of_nat i < log_next_idx s + sizeof_size_t) ->
      log_buf s' !! i = log_buf s !! i.
Proof.
  intros capacity Hreach rs r.
  pose proof (reachable_tail LOG_BUF_LEN capacity s Hreach) as Ht.
  pose proof (write_record_spec LOG_BUF_LEN capacity s (ev_pid e) (ev_uid e)
                (ev_path e) (ev_action e) (ev_protocol e) (ev_family e)
                (ev_src_ip e) (ev_src_port e) (ev_dst_ip e) (ev_dst_port e)
                (ev_now e) Ht) as (Hsent & Hrec & _).
  destruct (submit_spec LOG_BUF_LEN capacity e s Ht) as (Hnw & _ & H).
  split; [apply Ht|]. split; [exact Hsent|]. split; [exact Hrec|].
  split; [exact Hnw|].
  intros s' Hs. pose proof Hs as Hs0. rewrite submit_parts in Hs0.
  destruct (evict _ _ _ _) as [s1|] eqn:E; [|done].
  destruct (H s1 eq_refl) as ((Mb & _ & Mn & _) & [[Hf _]|(s'' & Hs' & _ & Hw)]);
    [congruence|].
  assert (s'' = s') as -> by congruence.
  pose proof (warn_moved LOG_BUF_LEN (ev_path e) s) as W. cbn zeta in W.
  destruct W as (Wb & _ & _ & _ & Wni & _).
  assert (Hn1 : log_next_idx s1 = log_next_idx s) by congruence.
  destruct (must_wrap_next LOG_BUF_LEN rs s s1 Hn1) as [Hmw Hrs].
  unfold record_written in Hw. fold rs in Hw.
  rewrite Hmw, Hrs, Hn1, Mb, Wb in Hw. fold r in Hw.
  destruct Hw as ((Hlen & _) & _ & _ & _ & Hnext & _ & _ & _ & _ & _ & _ & Hframe).
  done.
Qed.

(** C2, as amended — Once the eviction loop is done, an append writes
    the zero-length sentinel at the old next_offset and resets
    next_offset to 0 before writing the record exactly when
    next_offset + record_size + sizeof(size_t) >= capacity; the record
    then starts at offset 0.  Otherwise the record starts at the old
    next_offset and no sentinel is written. *)
Theorem wrap_exactly_when_tail_short LOG_BUF_LEN e s :
  256 <= LOG_BUF_LEN < 2 ^ 31 ->
  tail_ok LOG_BUF_LEN s -> seq_typed s ->
  headers_readable s = true -> event_ok e = true ->
  let rs := record_size_for LOG_BUF_LEN (ev_path e) in
  exists s', submit LOG_BUF_LEN e s = Ok s' /\
    if LOG_BUF_LEN <=? log_next_idx s + rs + sizeof_size_t
    then load_le (log_buf s') (log_next_idx s) 8 = Ok 0 /\
         load_le (log_buf s') 0 8 = Ok rs /\
         log_next_idx s' = rs
    else load_le (log_buf s') (log_next_idx s) 8 = Ok rs /\
         log_next_idx s' = log_next_idx s + rs.
Proof.
  intros capacity Ht Hty Hr He rs.
  destruct (submit_ok LOG_BUF_LEN e s capacity Ht Hty Hr He)
    as (s1 & s' & Hb & Hn & _ & _ & Hs & Hw).
  exists s'. split; [exact Hs|]. fold rs in Hw.
  destruct (must_wrap_next LOG_BUF_LEN rs s s1 Hn) as [Hmw Hrs].
  pose proof (record_size_for_range LOG_BUF_LEN capacity (ev_path e))
    as (Hrs1 & Hrs2 & Hrs3). cbn zeta in Hrs1, Hrs2, Hrs3. fold rs in Hrs1, Hrs2, Hrs3.
  pose proof (stored_path_len_range LOG_BUF_LEN capacity (ev_path e)) as [Hpl _].
  unfold sizeof_netlog_log, sizeof_size_t in *.
  assert (Hiff : must_wrap LOG_BUF_LEN rs s = true <->
                 LOG_BUF_LEN <= log_next_idx s + rs + 8).
  { destruct Ht as (_ & ? & ?). apply must_wrap_iff; unfold sizeof_size_t in *; lia. }
  unfold record_written in Hw. rewrite Hmw, Hrs, Hn in Hw.
  destruct Hw as (_ & _ & _ & _ & Hnext & _ & _ & Hlen & _ & _ & Hsent & _).
  unfold record_start, field.len in *.
  destruct (LOG_BUF_LEN <=? log_next_idx s + rs + 8) eqn:E.
  - apply Z.leb_le in E. assert (Hm : must_wrap LOG_BUF_LEN rs s = true)
      by (by apply Hiff).
    rewrite Hm in *. rewrite Z.add_0_l in *. auto.
  - apply Z.leb_gt in E.
    destruct (must_wrap LOG_BUF_LEN rs s) eqn:Hm.
    + exfalso. assert (LOG_BUF_LEN <= log_next_idx s + rs + 8) by (by apply Hiff).
      lia.
    + rewrite Z.add_0_r in Hlen. auto.
Qed.


Lemma drops_add a b s :
  drops (a + b) s = (s' ← drops a s; drops b s').
Proof.
  revert s. induction a as [|a IH]; intros s; [done|]. cbn.
  destruct (drop_oldest s) as [s1|]; cbn; [apply IH|done].
Qed.

Lemma drops_count k s s1 :
  seq_typed s -> drops k s = Ok s1 ->
  (forall j sj, (j < k)%nat -> drops j s = Ok sj ->
     log_first_seq sj < log_next_seq sj) ->
  log_first_seq s1 = log_first_seq s + Z.of_nat k.
Proof.
  revert s. induction k as [|k IH]; intros s Ht Hd Hlive.
  - cbn in Hd. injection Hd as <-. lia.
  - cbn in Hd. destruct (drop_oldest s) as [s'|] eqn:E; cbn in Hd; [|done].
    assert (Hl : log_first_seq s < log_next_seq s)
      by (apply (Hlive O s); [lia | done]).
    destruct (passes_drop s s' Ht Hl E) as (Ht' & Hf & _).
    rewrite (IH s' Ht' Hd); [lia|].
    intros j sj Hj Hdj. apply (Hlive (S j) sj); [lia|].
    cbn. by rewrite E.
Qed.

Lemma free_formula LOG_BUF_LEN s :
  0 <= log_next_idx s < LOG_BUF_LEN -> LOG_BUF_LEN <= 2 ^ 32 ->
  0 <= log_first_idx s < 2 ^ 32 ->
  free LOG_BUF_LEN s =
  if log_next_idx s >? log_first_idx s
  then Z.max (LOG_BUF_LEN - log_next_idx s) (log_first_idx s)
  else log_first_idx s - log_next_idx s.
Proof.
  intros Hn HL Hf. unfold free.
  destruct (log_next_idx s >? log_first_idx s) eqn:E.
  - by rewrite u32_small by lia.
  - rewrite Z.gtb_ltb in E. apply Z.ltb_ge in E. by rewrite u32_small by lia.
Qed.

(** C1, as amended — While live records exist, each pass of the
    eviction loop of an append computes the free space as
    max(capacity - next_offset, first_offset) when
    next_offset > first_offset and as first_offset - next_offset
    otherwise; the loop drops the oldest record, setting first_offset to
    [next_record first_offset] and incrementing first_seq, as long as
    first_seq < next_seq and free <= record_size + sizeof(size_t), and it
    stops as soon as free > record_size + sizeof(size_t) or no live
    record is left.  The loop ends within next_seq - first_seq passes,
    and nothing after it in the append moves first_seq or
    first_offset. *)
Theorem eviction_loop LOG_BUF_LEN e s :
  256 <= LOG_BUF_LEN < 2 ^ 31 ->
  tail_ok LOG_BUF_LEN s -> seq_typed s ->
  log_first_seq s < log_next_seq s ->
  let rs := record_size_for LOG_BUF_LEN (ev_path e) in
  let s0 := warn_truncation LOG_BUF_LEN (ev_path e) s in
  submit LOG_BUF_LEN e s <> Fault Spin /\
  (forall s', submit LOG_BUF_LEN e s = Ok s' ->
     exists (k : nat) (s1 : netlog),
       (k <= passes s)%nat /\
       drops k s0 = Ok s1 /\
       (forall j sj, (j < k)%nat -> drops j s0 = Ok sj ->
          log_first_seq sj < log_next_seq sj /\
          free LOG_BUF_LEN sj <= rs + sizeof_size_t) /\
       (log_first_seq s1 = log_next_seq s1 \/
        free LOG_BUF_LEN s1 > rs + sizeof_size_t) /\
       log_first_seq s1 = log_first_seq s + Z.of_nat k /\
       log_first_seq s' = log_first_seq s1 /\
       log_first_idx s' = log_first_idx s1) /\
  (forall t t', drop_oldest t = Ok t' ->
     next_record (log_buf t) (log_first_idx t) = Ok (log_first_idx t') /\
     log_first_seq t' = u64 (log_first_seq t + 1) /\
     only_first_moved t t') /\
  (forall t, 0 <= log_next_idx t < LOG_BUF_LEN ->
     0 <= log_first_idx t < 2 ^ 32 ->
     free LOG_BUF_LEN t =
     if log_next_idx t >? log_first_idx t
     then Z.max (LOG_BUF_LEN - log_next_idx t) (log_first_idx t)
     else log_first_idx t - log_next_idx t).
Proof.
  intros capacity Ht Hty Hlive rs s0.
  destruct (submit_spec LOG_BUF_LEN capacity e s Ht) as (_ & Hspin & H).
  fold rs s0 in H.
  pose proof (warn_moved LOG_BUF_LEN (ev_path e) s) as W. cbn zeta in W.
  fold s0 in W. destruct W as (Wb & Wfs & Wfi & Wns & Wni & Wfr).
  assert (Hty0 : seq_typed s0) by (unfold seq_typed in *; by rewrite Wfs, Wns).
  split; [by apply Hspin|]. split; [|split].
  - intros s' Hs. pose proof Hs as Hs0. rewrite submit_parts in Hs0.
    fold rs s0 in Hs0.
    destruct (evict LOG_BUF_LEN (passes s) rs s0) as [s1|] eqn:E; [|done].
    destruct (H s1 eq_refl) as (_ & [[Hf _]|(s'' & Hs' & _ & Hw)]);
      [congruence|].
    assert (s'' = s') as -> by congruence.
    apply evict_drops in E as (k & Hk & Hd & Hbefore & Hafter).
    assert (Hcount : log_first_seq s1 = log_first_seq s0 + Z.of_nat k).
    { apply drops_count; [done..|]. intros j sj Hj Hdj.
      by apply (Hbefore j sj). }
    exists k, s1. split; [done|]. split; [done|]. split; [done|].
    split; [|split; [congruence|]].
    + destruct Hafter as [Hge|Hgt]; [|by right]. left.
      pose proof (drops_moved _ _ _ Hd) as (_ & Hns & _).
      assert (Z.of_nat k <= log_next_seq s - log_first_seq s)
        by (unfold passes in Hk; lia).
      lia.
    + unfold record_written in Hw. split; apply Hw.
  - intros t t' Hd. apply drop_oldest_inv in Hd as (M & Hf & Hn). done.
  - intros t Hn Hf. apply free_formula; [done | lia | done].
Qed.

(** ** What does hold of the sequence numbers *)

Lemma evict_order LOG_BUF_LEN fuel rs s s' :
  seq_typed s -> log_first_seq s <= log_next_seq s ->
  evict LOG_BUF_LEN fuel rs s = Ok s' ->
  log_first_seq s <= log_first_seq s' <= log_next_seq s' /\
  log_next_seq s' = log_next_seq s.
Proof.
  revert s. induction fuel as [|fuel IH]; intros s Ht Hle;
    rewrite evict_unfold.
  - destruct (log_first_seq s <? log_next_seq s); [|intros [= <-]; lia].
    destruct (free LOG_BUF_LEN s >? rs + sizeof_size_t); [|done].
    intros [= <-]. lia.
  - destruct (log_first_seq s <? log_next_seq s) eqn:Elive;
      [|intros [= <-]; lia].
    destruct (free LOG_BUF_LEN s >? rs + sizeof_size_t);
      [intros [= <-]; lia|].
    apply Z.ltb_lt in Elive.
    destruct (drop_oldest s) as [s1|] eqn:E; cbn [mbind res_bind]; [|done].
    destruct (passes_drop s s1 Ht Elive E) as (Ht1 & Hf & _).
    apply drop_oldest_inv in E as ((_ & En & _) & _ & _).
    intros H. apply IH in H; [|done|lia]. lia.
Qed.

Lemma submit_all_snoc LOG_BUF_LEN es e s :
  submit_all LOG_BUF_LEN (es ++ [e]) s =
  (s' ← submit_all LOG_BUF_LEN es s; submit LOG_BUF_LEN e s').
Proof. unfold submit_all. by rewrite foldl_snoc. Qed.

(** Fewer than 2^64 appends since the module was loaded: the sequence
    numbers are in order, next_seq counts the appends, and the write
    position is in the arena. *)
Lemma appends_keep_order LOG_BUF_LEN es s :
  256 <= LOG_BUF_LEN < 2 ^ 31 ->
  Z.of_nat (length es) < 2 ^ 64 ->
  submit_all LOG_BUF_LEN es (netlog_init LOG_BUF_LEN) = Ok s ->
  0 <= log_first_seq s <= log_next_seq s /\
  log_next_seq s = Z.of_nat (length es) /\
  tail_ok LOG_BUF_LEN s.
Proof.
  intros capacity. revert s.
  induction es as [|e es IH] using rev_ind; intros s Hlen.
  - intros [= <-]. cbn. split; [lia|]. split; [done|].
    unfold tail_ok, sizeof_size_t. cbn. rewrite length_replicate. lia.
  - rewrite length_app in Hlen. cbn in Hlen.
    rewrite submit_all_snoc.
    destruct (submit_all LOG_BUF_LEN es (netlog_init LOG_BUF_LEN))
      as [s0|] eqn:E0; cbn [mbind res_bind]; [|done].
    destruct (IH s0) as (Ho & Hn & Ht); [lia | done |].
    intros Hs. pose proof Hs as Hs'. rewrite submit_parts in Hs'.
    destruct (evict _ _ _ _) as [s1|] eqn:E; cbn [mbind res_bind] in Hs'; [|done].
    destruct (submit_spec LOG_BUF_LEN capacity e s0 Ht) as (_ & _ & H).
    destruct (H s1 E) as (_ & [[Hf _]|(s'' & Hs'' & _ & Hw)]); [congruence|].
    assert (s'' = s) as -> by congruence.
    pose proof (warn_moved LOG_BUF_LEN (ev_path e) s0) as W. cbn zeta in W.
    destruct W as (_ & Wfs & _ & Wns & _).
    apply evict_order in E as (Hf1 & Hn1);
      [|unfold seq_typed; rewrite Wfs, Wns; lia | rewrite Wfs, Wns; lia].
    rewrite Wfs, Wns in *.
    unfold record_written in Hw.
    destruct Hw as (Ht' & Hfs & _ & Hns & _).
    rewrite Hn1, u64_small in Hns by lia.
    rewrite length_app. cbn. split; [lia|]. split; [lia | exact Ht'].
Qed.

Lemma drops_typed k s s' :
  seq_typed s -> drops k s = Ok s' -> seq_typed s'.
Proof.
  revert s. induction k as [|k IH]; intros s Ht; cbn.
  - by intros [= <-].
  - destruct (drop_oldest s) as [s1|] eqn:E; cbn [mbind res_bind]; [|done].
    apply IH. apply drop_oldest_inv in E as ((_ & En & _) & Ef & _).
    destruct Ht as (H0 & H1). unfold seq_typed, u64 in *.
    rewrite En, Ef. lia.
Qed.

(** In every state the module can reach the sequence numbers are values
    of [u64]. *)
Lemma reachable_typed LOG_BUF_LEN s :
  256 <= LOG_BUF_LEN < 2 ^ 31 ->
  reachable LOG_BUF_LEN s -> seq_typed s.
Proof.
  intros capacity. induction 1 as [|s e s' Hr IH Hs|s alloc_ok _ IH].
  - unfold seq_typed. cbn. lia.
  - pose proof (reachable_tail LOG_BUF_LEN capacity s Hr) as Ht.
    pose proof Hs as Hs'. rewrite submit_parts in Hs'.
    destruct (evict _ _ _ _) as [s1|] eqn:E; cbn [mbind res_bind] in Hs'; [|done].
    destruct (submit_spec LOG_BUF_LEN capacity e s Ht) as (_ & _ & H).
    destruct (H s1 E) as (_ & [[Hf _]|(s'' & Hs'' & _ & Hw)]); [congruence|].
    assert (s'' = s') as -> by congruence.
    pose proof (warn_moved LOG_BUF_LEN (ev_path e) s) as W. cbn zeta in W.
    destruct W as (_ & Wfs & _ & Wns & _).
    apply evict_drops in E as (k & _ & Hd & _).
    apply drops_typed in Hd; [|unfold seq_typed in *; by rewrite Wfs, Wns].
    unfold record_written in Hw. destruct Hw as (_ & Hfs & _ & Hns & _).
    destruct Hd as (H0 & H1). unfold seq_typed, u64. rewrite Hfs, Hns.
    unfold u64. lia.
  - unfold netlog_log_open.
    destruct (negb alloc_ok); [done|]. by destruct (first_read s).
Qed.

(** ** The claims about readers *)

Section Readers.

Variable h : netlog_h.
Variable pI4 : list Z -> list Z.
Variable pI6c : list Z -> list Z.

Lemma read_many_after_reset calls d s :
  seq_typed s ->
  log_first_seq s <= log_curr_seq d <= log_next_seq s ->
  Forall (fun r => forall out, r <> Returned (- EPIPE) out)
         (read_many h pI4 pI6c calls d s).1 /\
  log_first_seq s <= log_curr_seq (read_many h pI4 pI6c calls d s).2
    <= log_next_seq s.
Proof.
  intros (Hf0 & Hn0 & Hn1). revert d.
  induction calls as [|[[nonblock count] user_ok] calls IH]; intros d Hd.
  - cbn. split; [constructor | done].
  - cbn [read_many]. unfold read_session.
    destruct (log_curr_seq d =? log_next_seq s) eqn:Eeq.
    + destruct nonblock; cbn [fst snd].
      * destruct (IH d Hd) as [IH1 IH2]. split; [|done].
        constructor; [|done]. intros out Heq. injection Heq as Hret _.
        unfold EPIPE, EAGAIN in Hret. lia.
      * destruct (IH d Hd) as [IH1 IH2]. split; [|done].
        constructor; [|done]. done.
    + apply Z.eqb_neq in Eeq.
      assert ((log_curr_seq d <? log_first_seq s) = false) as ->
        by (apply Z.ltb_ge; lia).
      destruct (render_record h pI4 pI6c (log_buf s) (log_curr_idx d))
        as [line|]; cbn [mbind res_bind]; [|split; [constructor|done]].
      destruct (next_record (log_buf s) (log_curr_idx d)) as [idx|];
        cbn [mbind res_bind]; [|split; [constructor|done]].
      set (d' := UserData (u64 (log_curr_seq d + 1)) idx).
      assert (Hd' : log_first_seq s <= log_curr_seq d' <= log_next_seq s).
      { cbn. rewrite u64_small by lia. lia. }
      destruct (IH d' Hd') as [IH1 IH2].
      destruct (Z.of_nat (length line) >? count);
        [|destruct (negb user_ok)]; cbn [fst snd];
        (split; [|done]); (constructor; [|done]); intros out Heq;
        injection Heq as Hret _; unfold EPIPE, EINVAL, EFAULT in Hret; lia.
Qed.

(** X16 — The part of the protocol after a loss that the code keeps: a
    reader whose cursor has been evicted gets -EPIPE from its next read,
    for that call only, and its cursor is reset to
    (first_seq, first_offset).  As long as the log does not change, no
    later read of the session returns -EPIPE and the cursor stays
    between first_seq and next_seq; the first read that finds a record
    renders the bytes at first_offset and counts them as first_seq. *)
Theorem data_lost_reported_once d s nonblock count user_ok :
  seq_typed s ->
  log_first_seq s <= log_next_seq s ->
  log_curr_seq d < log_first_seq s ->
  let d1 := UserData (log_first_seq s) (log_first_idx s) in
  read_session h pI4 pI6c d nonblock count user_ok s
    = Ok (Returned (- EPIPE) [], d1) /\
  (forall calls,
     Forall (fun r => forall out, r <> Returned (- EPIPE) out)
            (read_many h pI4 pI6c calls d1 s).1 /\
     log_first_seq s <= log_curr_seq (read_many h pI4 pI6c calls d1 s).2
       <= log_next_seq s) /\
  (forall line idx nonblock' count',
     log_first_seq s < log_next_seq s ->
     render_record h pI4 pI6c (log_buf s) (log_first_idx s) = Ok line ->
     next_record (log_buf s) (log_first_idx s) = Ok idx ->
     Z.of_nat (length line) <= count' ->
     read_session h pI4 pI6c d1 nonblock' count' true s
       = Ok (Returned (Z.of_nat (length line)) line,
             UserData (log_first_seq s + 1) idx)).
Proof.
  intros Hty Hle Hlost d1. split; [|split].
  - unfold read_session.
    assert ((log_curr_seq d =? log_next_seq s) = false) as ->
      by (apply Z.eqb_neq; lia).
    assert ((log_curr_seq d <? log_first_seq s) = true) as ->
      by (apply Z.ltb_lt; lia).
    done.
  - intros calls. apply read_many_after_reset; [done|]. cbn. lia.
  - intros line idx nonblock' count' Hlive Hline Hidx Hfit.
    unfold read_session. cbn [log_curr_seq log_curr_idx d1].
    assert ((log_first_seq s =? log_next_seq s) = false) as ->
      by (apply Z.eqb_neq; lia).
    rewrite Z.ltb_irrefl, Hline, Hidx. cbn [mbind res_bind].
    assert ((Z.of_nat (length line) >? count') = false) as ->
      by (rewrite Z.gtb_ltb; apply Z.ltb_ge; lia).
    destruct Hty as (? & ? & ?). rewrite u64_small by lia. done.
Qed.

(** X17 — A read with a valid cursor at a sentinel: the bytes there are
    rendered as a record and the cursor goes to offset 0 with the next
    sequence number. *)
Lemma read_at_sentinel d s line nonblock count :
  log_first_seq s <= log_curr_seq d ->
  log_curr_seq d <> log_next_seq s ->
  load_le (log_buf s) (log_curr_idx d) 8 = Ok 0 ->
  render_record h pI4 pI6c (log_buf s) (log_curr_idx d) = Ok line ->
  Z.of_nat (length line) <= count ->
  read_session h pI4 pI6c d nonblock count true s
    = Ok (Returned (Z.of_nat (length line)) line,
          UserData (u64 (log_curr_seq d + 1)) 0).
Proof.
  intros Hge Hne Hlen Hline Hfit. unfold read_session, next_record.
  assert ((log_curr_seq d =? log_next_seq s) = false) as ->
    by (by apply Z.eqb_neq).
  assert ((log_curr_seq d <? log_first_seq s) = false) as ->
    by (apply Z.ltb_ge; lia).
  rewrite Hline, Hlen. cbn.
  assert ((Z.of_nat (length line) >? count) = false) as ->
    by (rewrite Z.gtb_ltb; apply Z.ltb_ge; lia).
  done.
Qed.

(** C4, as amended — If the rendered line of the current record is
    larger than the output capacity of the caller, read returns -EINVAL
    and copies nothing; the log is unaffected, but the cursor of the
    session has already moved past the record, to
    (seq + 1, next_record offset), so a retry does not deliver that
    record again. *)
Theorem short_buffer_skips_record LOG_BUF_LEN sy f d line idx
    nonblock count user_ok :
  files sy !! f = Some d ->
  log_first_seq (store_of sy) <= log_curr_seq d ->
  log_curr_seq d <> log_next_seq (store_of sy) ->
  render_record h pI4 pI6c (log_buf (store_of sy)) (log_curr_idx d) = Ok line ->
  next_record (log_buf (store_of sy)) (log_curr_idx d) = Ok idx ->
  count < Z.of_nat (length line) ->
  let d' := UserData (u64 (log_curr_seq d + 1)) idx in
  netlog_log_read h pI4 pI6c (Some d) nonblock count user_ok (store_of sy)
    = Ok (Returned (- EINVAL) [], Some d') /\
  step LOG_BUF_LEN h pI4 pI6c (Read f nonblock count user_ok) sy
    = Ok (System (store_of sy) (<[f := d']> (files sy))).
Proof.
  intros Hf Hge Hne Hline Hidx Hshort d'.
  assert (Hread : netlog_log_read h pI4 pI6c (Some d) nonblock count user_ok
                    (store_of sy) = Ok (Returned (- EINVAL) [], Some d')).
  { unfold netlog_log_read, read_session.
    assert ((log_curr_seq d =? log_next_seq (store_of sy)) = false) as ->
      by (by apply Z.eqb_neq).
    assert ((log_curr_seq d <? log_first_seq (store_of sy)) = false) as ->
      by (apply Z.ltb_ge; lia).
    rewrite Hline, Hidx. cbn [mbind res_bind].
    assert ((Z.of_nat (length line) >? count) = true) as ->
      by (rewrite Z.gtb_ltb; apply Z.ltb_lt; lia).
    done. }
  split; [exact Hread|].
  unfold step. rewrite Hf, Hread. done.
Qed.

End Readers.

(** C8, as amended — A seek with offset 0 succeeds for three values of
    whence: SEEK_SET puts the cursor at (first_seq, first_offset),
    SEEK_END puts it at (next_seq, next_offset) and SEEK_CUR leaves it
    where it is.  A seek with a non-zero offset fails with -ESPIPE, and
    one with any other whence with -EINVAL; a failed seek leaves the
    cursor where it is. *)
Theorem seek_targets d offset whence s :
  let r := netlog_log_llseek (Some d) offset whence s in
  (r.1 = 0 <->
   offset = 0 /\ (whence = SEEK_SET \/ whence = SEEK_CUR \/ whence = SEEK_END))
  /\ (offset = 0 -> whence = SEEK_SET ->
      r = (0, Some (UserData (log_first_seq s) (log_first_idx s))))
  /\ (offset = 0 -> whence = SEEK_END ->
      r = (0, Some (UserData (log_next_seq s) (log_next_idx s))))
  /\ (offset = 0 -> whence = SEEK_CUR -> r = (0, Some d))
  /\ (offset <> 0 -> r = (- ESPIPE, Some d))
  /\ (offset = 0 -> whence <> SEEK_SET -> whence <> SEEK_CUR ->
      whence <> SEEK_END -> r = (- EINVAL, Some d)).
Proof.
  cbn zeta. unfold netlog_log_llseek, SEEK_SET, SEEK_CUR, SEEK_END,
    ESPIPE, EINVAL.
  destruct (offset =? 0) eqn:Eo; cbn [negb].
  - apply Z.eqb_eq in Eo.
    destruct (whence =? 0) eqn:E0; [apply Z.eqb_eq in E0|apply Z.eqb_neq in E0].
    { cbn. repeat split; try done; try lia; auto. }
    destruct (whence =? 1) eqn:E1; [apply Z.eqb_eq in E1|apply Z.eqb_neq in E1].
    { cbn. repeat split; try done; try lia; auto. }
    destruct (whence =? 2) eqn:E2; [apply Z.eqb_eq in E2|apply Z.eqb_neq in E2].
    { cbn. repeat split; try done; try lia; auto. }
    cbn. repeat split; try done; try lia.
  - apply Z.eqb_neq in Eo. cbn. repeat split; try done; try lia.
Qed.

(** ** The first session *)

Lemma write_record_first_read LOG_BUF_LEN rs pl pid uid path action protocol
    family src_ip src_port dst_ip dst_port now s s' :
  write_record LOG_BUF_LEN rs pl pid uid path action protocol family
    src_ip src_port dst_ip dst_port now s = Ok s' ->
  first_read s' = first_read s.
Proof.
  unfold write_record, wrap_around.
  destruct (must_wrap LOG_BUF_LEN rs s).
  - destruct (store_le _ _ _ _); cbn [mbind res_bind]; [|done].
    destruct (fill_record _ _ _ _ _ _ _ _ _ _ _ _ _ _ _);
      cbn [mbind res_bind]; [|done].
    by intros [= <-].
  - cbn [mbind res_bind].
    destruct (fill_record _ _ _ _ _ _ _ _ _ _ _ _ _ _ _);
      cbn [mbind res_bind]; [|done].
    by intros [= <-].
Qed.

Lemma submit_first_read LOG_BUF_LEN e s s' :
  submit LOG_BUF_LEN e s = Ok s' -> first_read s' = first_read s.
Proof.
  rewrite submit_parts.
  destruct (evict _ _ _ _) as [s1|] eqn:E; cbn [mbind res_bind]; [|done].
  intros H. apply write_record_first_read in H.
  apply evict_moved in E as (_ & _ & _ & E & _).
  pose proof (warn_moved LOG_BUF_LEN (ev_path e) s) as W. cbn zeta in W.
  destruct W as (_ & _ & _ & _ & _ & W). congruence.
Qed.

Section Sessions.

Variable LOG_BUF_LEN : Z.
Variable h : netlog_h.
Variable pI4 : list Z -> list Z.
Variable pI6c : list Z -> list Z.

Lemma step_first_read c sy sy' :
  step LOG_BUF_LEN h pI4 pI6c c sy = Ok sy' ->
  first_read (store_of sy') = first_read (store_of sy) && negb (opens c).
Proof.
  destruct c as [e|f alloc_ok|f nonblock count user_ok|f offset whence|f];
    cbn [step opens].
  - destruct (submit LOG_BUF_LEN e (store_of sy)) as [s|] eqn:E;
      cbn [mbind res_bind]; [|done].
    intros [= <-]. cbn. apply submit_first_read in E.
    by rewrite E, andb_true_r.
  - intros [= <-]. cbn. unfold netlog_log_open.
    destruct alloc_ok; cbn.
    + destruct (first_read (store_of sy)) eqn:E; cbn; by rewrite ?E.
    + by rewrite andb_true_r.
  - destruct (netlog_log_read _ _ _ _ _ _ _ _); cbn [mbind res_bind]; [|done].
    intros [= <-]. cbn. by rewrite andb_true_r.
  - intros [= <-]. cbn. by rewrite andb_true_r.
  - intros [= <-]. cbn. by rewrite andb_true_r.
Qed.

Lemma run_first_read cs sy sy' :
  run LOG_BUF_LEN h pI4 pI6c cs sy = Ok sy' ->
  first_read (store_of sy') = first_read (store_of sy) && negb (existsb opens cs).
Proof.
  revert sy. induction cs as [|c cs IH]; intros sy; cbn.
  - intros [= <-]. by rewrite andb_true_r.
  - destruct (step LOG_BUF_LEN h pI4 pI6c c sy) as [sy1|] eqn:E;
      cbn [mbind res_bind]; [|done].
    intros H. apply IH in H. apply step_first_read in E.
    rewrite H, E, negb_orb. by rewrite andb_assoc.
Qed.

(** X18 — The seeding of sessions.  After any calls to the module
    since it was loaded, a session that is opened is seeded to
    (first_seq, first_offset) if no session was opened before it, and to
    (next_seq, next_offset) if one was, whether or not that earlier
    session has been released since. *)
Theorem first_session_from_oldest cs sy f :
  run LOG_BUF_LEN h pI4 pI6c cs (boot LOG_BUF_LEN) = Ok sy ->
  exists sy',
    step LOG_BUF_LEN h pI4 pI6c (Open f true) sy = Ok sy' /\
    files sy' !! f =
      Some (if existsb opens cs
            then UserData (log_next_seq (store_of sy))
                          (log_next_idx (store_of sy))
            else UserData (log_first_seq (store_of sy))
                          (log_first_idx (store_of sy))) /\
    first_read (store_of sy') = false.
Proof.
  intros Hrun. apply run_first_read in Hrun. cbn in Hrun.
  eexists. split; [reflexivity|]. cbn. unfold netlog_log_open. cbn.
  rewrite Hrun. destruct (existsb opens cs); cbn.
  - split; [|done]. by rewrite lookup_insert_eq.
  - split; [|done]. by rewrite lookup_insert_eq.
Qed.

End Sessions.

(** ** The claims on concrete runs *)

(** C1, counterexample — After eleven large records in a 4096-byte
    arena the free space ahead of the write position is 312 bytes, which
    is not smaller than the 304 bytes of the next record plus the 8 of a
    sentinel; the loop of the code drops a record all the same, where
    the loop worded as in the claim drops none (and two, if the header of
    the claim is the 80-byte record header). *)
Lemma eviction_at_exact_fit :
  record_size_for 4096 (ev_path event_304) = 304 /\
  observe (fun s =>
      (log_first_seq s <? log_next_seq s, free 4096 s,
       observe log_first_seq (evict 4096 (passes s) 304 s),
       observe log_first_seq
         (evict_as_specified 4096 sizeof_size_t (passes s) 304 s),
       observe log_first_seq
         (evict_as_specified 4096 sizeof_netlog_log (passes s) 304 s)))
    eleven_large
  = Some (true, 304 + sizeof_size_t, Some 1, Some 0, Some 2).
Proof. vm_compute. split; reflexivity. Qed.

(** C2, counterexample — With 312 bytes left in the tail of a
    4096-byte arena a record of 304 bytes would fit, even with the 8
    bytes of a sentinel after it, yet the append writes the sentinel at
    the old write position, 3784, and puts the record at offset 0. *)
Lemma wrap_with_room_in_tail :
  record_size_for 4096 (ev_path event_304) = 304 /\
  observe (fun s =>
      (log_next_idx s, 4096 - log_next_idx s,
       must_wrap_as_specified 4096 304 s,
       must_wrap_as_specified 4096 (304 + sizeof_size_t) s,
       observe (fun s' => (load_le (log_buf s') 3784 8,
                           load_le (log_buf s') 0 8, log_next_idx s'))
         (submit 4096 event_304 s)))
    eleven_large
  = Some (3784, 312, false, false, Some (Ok 0, Ok 304, 304)).
Proof. vm_compute. split; reflexivity. Qed.

(** C3, the code at the failing input — A second session is opened
    when eleven records are in the log and stands at (11, 3784); the
    twelfth append wraps, leaving a sentinel at 3784 and its record at
    offset 0.  The cursor is valid (2 <= 11 < 12), and the specified read
    would deliver the twelfth record and move to (12, 344).  The code
    renders the bytes at the sentinel as a record and moves to (12, 0);
    the next read finds nothing new, so the twelfth record is not
    delivered. *)
Theorem sentinel_decoded_as_record :
  observe (fun sy =>
      let s := store_of sy in
      (log_first_seq s, log_next_seq s, files sy !! 1%nat,
       load_le (log_buf s) 3784 8,
       read_at_as_specified sample_h dotted_quad hex_groups
         (UserData 11 3784) s,
       read_session sample_h dotted_quad hex_groups
         (UserData 11 3784) true 8192 true s,
       read_session sample_h dotted_quad hex_groups
         (UserData 12 0) true 8192 true s))
    system_across_wrap
  = Some (2, 12, Some (UserData 11 3784), Ok 0,
          Ok (line_of_twelfth, UserData 12 344),
          Ok (Returned 73 line_of_sentinel, UserData 12 0),
          Ok (Returned (- EAGAIN) [], UserData 12 0)).
Proof. vm_compute. reflexivity. Qed.

(** C4, counterexample — One record is in the log and the session
    stands at (0, 0).  A read with room for 10 bytes returns -EINVAL and
    leaves the cursor at (1, 88); the retry with room for 8192 bytes
    finds nothing to read, where a first read with that room delivers the
    record. *)
Lemma short_buffer_loses_record :
  observe (fun s =>
      (read_session sample_h dotted_quad hex_groups
         (UserData 0 0) true 10 true s,
       read_session sample_h dotted_quad hex_groups
         (UserData 1 88) true 8192 true s,
       read_session sample_h dotted_quad hex_groups
         (UserData 0 0) true 8192 true s))
    one_record
  = Some (Ok (Returned (- EINVAL) [], UserData 1 88),
          Ok (Returned (- EAGAIN) [], UserData 1 88),
          Ok (Returned 93 line_of_first, UserData 1 88)).
Proof. vm_compute. reflexivity. Qed.

(** C5, the code at the failing input — A session stands at (0, 0)
    while twenty-one large records are appended; first is then
    (11, 3784), the offset of the sentinel that the first lap left.  The
    next read returns -EPIPE and resets the cursor to (11, 3784), as the
    claim says.  The read after it does not deliver the record with
    sequence number 11, which is that of the twelfth event and lies at
    offset 0: it renders the bytes at the sentinel as a record and moves
    to (12, 0), and the read after that delivers the record of the
    twelfth event as number 12. *)
Theorem reset_reader_reads_sentinel :
  observe (fun s =>
      (log_first_seq s, log_first_idx s, log_next_seq s, log_next_idx s,
       load_le (log_buf s) 3784 8,
       read_session sample_h dotted_quad hex_groups
         (UserData 0 0) true 8192 true s,
       read_session sample_h dotted_quad hex_groups
         (UserData 11 3784) true 8192 true s,
       read_at_as_specified sample_h dotted_quad hex_groups
         (UserData 11 3784) s,
       read_session sample_h dotted_quad hex_groups
         (UserData 12 0) true 8192 true s))
    twenty_one_large
  = Some (11, 3784, 21, 3440, Ok 0,
          Ok (Returned (- EPIPE) [], UserData 11 3784),
          Ok (Returned 73 line_of_sentinel, UserData 12 0),
          Ok (line_of_twelfth, UserData 12 344),
          Ok (Returned 343 line_of_twelfth, UserData 13 344)).
Proof. vm_compute. reflexivity. Qed.

(** C6, the code at the failing input — After twenty-two large records
    in a 4096-byte arena, eleven framed records lie between first_offset
    and next_offset while next_seq - first_seq is ten, and the record at
    first_offset is that of the twelfth event, whose sequence number is
    11, not first_seq = 12.  In a 256-byte arena, after the eight
    appends of [short_run], first_offset is 1633772049, far outside the
    arena, while first_seq <= next_seq and next_offset is inside. *)
Theorem first_offset_leaves_arena :
  observe (fun s =>
      (log_first_seq s, log_first_idx s, log_next_seq s, log_next_idx s,
       frames_between 64 (log_buf s) (log_first_idx s) (log_next_idx s),
       load_le (log_buf s) (log_first_idx s + field.pid) 4))
    twenty_two_large
  = Some (12, 0, 22, 3784, Ok 11, Ok 12) /\
  observe (fun s =>
      (log_first_seq s, log_first_idx s, log_next_seq s, log_next_idx s,
       256 <=? log_first_idx s))
    (submit_all 256 short_run (netlog_init 256))
  = Some (6, 1633772049, 8, 176, true).
Proof. vm_compute. split; reflexivity. Qed.

(** The same in the 4096-byte arena, after the 147 appends of
    [long_run]. *)
Lemma first_offset_leaves_larger_arena :
  observe (fun s =>
      (log_first_seq s, log_first_idx s, log_next_seq s, log_next_idx s))
    (submit_all 4096 long_run (netlog_init 4096))
  = Some (136, 1633772393, 147, 688).
Proof. vm_compute. reflexivity. Qed.

(** C7, the code at the failing input — Sessions are seeded as the
    claim says, and the seed can be the offset of a sentinel.  In a
    256-byte log that took three records before the first open, the
    first session is seeded to first = (2, 176), where the third append
    left its sentinel; the record of the third event lies at offset 0
    and is the one live record.  The specified read would deliver it and
    move to (3, 88); the code renders the bytes at the sentinel and
    moves to (3, 0), where the next read finds nothing: the first
    consumer never gets the record.  In a 512-byte log a second session
    is opened after nine appends, at next = (9, 384), where the record
    of the fifth event started; the tenth append wraps and puts its
    sentinel there.  The specified read would deliver the tenth event
    and move to (10, 120); the code renders what is left of the fifth
    record behind the sentinel, an event appended before the session
    was opened, and the tenth event is not delivered. *)
Theorem seeded_session_reads_at_sentinel :
  observe (fun sy =>
      let s := store_of sy in
      (log_first_seq s, log_first_idx s, log_next_seq s, log_next_idx s,
       files sy !! 0%nat,
       load_le (log_buf s) 176 8, load_le (log_buf s) (0 + field.pid) 4,
       read_at_as_specified sample_h dotted_quad hex_groups
         (UserData 2 176) s,
       read_session sample_h dotted_quad hex_groups
         (UserData 2 176) true 8192 true s,
       read_session sample_h dotted_quad hex_groups
         (UserData 3 0) true 8192 true s))
    (run 256 sample_h dotted_quad hex_groups first_open_after_wrap
       (boot 256))
  = Some (2, 176, 3, 88, Some (UserData 2 176), Ok 0, Ok 3,
          Ok (line_of_third, UserData 3 88),
          Ok (Returned 73 line_of_sentinel, UserData 3 0),
          Ok (Returned (- EAGAIN) [], UserData 3 0)) /\
  observe (fun sy =>
      let s := store_of sy in
      (log_next_seq s, log_next_idx s, files sy !! 1%nat,
       load_le (log_buf s) (384 + field.pid) 4))
    (run 512 sample_h dotted_quad hex_groups late_joiner (boot 512))
  = Some (9, 384, Some (UserData 9 384), Ok 5) /\
  observe (fun sy =>
      let s := store_of sy in
      (log_first_seq s, log_next_seq s, log_next_idx s, files sy !! 1%nat,
       load_le (log_buf s) 384 8, load_le (log_buf s) (0 + field.pid) 4,
       read_at_as_specified sample_h dotted_quad hex_groups
         (UserData 9 384) s,
       read_session sample_h dotted_quad hex_groups
         (UserData 9 384) true 8192 true s,
       read_session sample_h dotted_quad hex_groups
         (UserData 10 0) true 8192 true s))
    (run 512 sample_h dotted_quad hex_groups late_joiner_at_wrap (boot 512))
  = Some (8, 10, 120, Some (UserData 9 384), Ok 0, Ok 10,
          Ok (line_of_tenth, UserData 10 120),
          Ok (Returned 93 line_of_fifth, UserData 10 0),
          Ok (Returned (- EAGAIN) [], UserData 10 0)).
Proof. vm_compute. repeat split; reflexivity. Qed.

(** C8, counterexample — A seek to the current position, SEEK_CUR with
    offset 0, succeeds and leaves the cursor where it was. *)
Lemma seek_cur_succeeds :
  netlog_log_llseek (Some (UserData 5 440)) 0 SEEK_CUR (netlog_init 256)
  = (0, Some (UserData 5 440)) /\
  SEEK_CUR <> SEEK_SET /\ SEEK_CUR <> SEEK_END.
Proof. vm_compute. repeat split; discriminate. Qed.

(** ** The theorems at concrete inputs *)

(** [eviction_loop] on a 256-byte log that holds two records, for the
    append of a third: both records are dropped. *)
Lemma eviction_loop_witness :
  log_first_seq (state_after (small_log 2))
    < log_next_seq (state_after (small_log 2)) /\
  exists (k : nat) (s1 : netlog),
    (k <= passes (state_after (small_log 2)))%nat /\
    drops k (warn_truncation 256 (ev_path (sample_event 3 7))
               (state_after (small_log 2))) = Ok s1 /\
    (log_first_seq s1 = log_next_seq s1 \/
     free 256 s1
       > record_size_for 256 (ev_path (sample_event 3 7)) + sizeof_size_t)
    /\ log_first_seq s1
       = log_first_seq (state_after (small_log 2)) + Z.of_nat k.
Proof.
  assert (C : 256 <= 256 < 2 ^ 31) by lia.
  assert (T : tail_ok 256 (state_after (small_log 2)))
    by (split; [vm_compute; reflexivity | split; vm_compute; done]).
  assert (Y : seq_typed (state_after (small_log 2)))
    by (split; [|split]; vm_compute; done).
  assert (L : log_first_seq (state_after (small_log 2))
              < log_next_seq (state_after (small_log 2)))
    by (vm_compute; reflexivity).
  assert (S : submit 256 (sample_event 3 7) (state_after (small_log 2))
              = Ok (state_after (submit 256 (sample_event 3 7)
                                   (state_after (small_log 2)))))
    by (vm_compute; reflexivity).
  split; [exact L|].
  destruct (eviction_loop 256 (sample_event 3 7) (state_after (small_log 2))
              C T Y L) as (_ & H & _).
  destruct (H _ S) as (k & s1 & Hk & Hd & _ & Hstop & Hcount & _).
  exists k, s1. split; [exact Hk|]. split; [exact Hd|].
  split; [exact Hstop | exact Hcount].
Defined.

(** [wrap_exactly_when_tail_short] on a 256-byte log that holds two
    records: the append of a third wraps. *)
Lemma wrap_exactly_when_tail_short_witness :
  headers_readable (state_after (small_log 2)) = true /\
  event_ok (sample_event 3 7) = true /\
  exists s',
    submit 256 (sample_event 3 7) (state_after (small_log 2)) = Ok s' /\
    load_le (log_buf s') (log_next_idx (state_after (small_log 2))) 8 = Ok 0 /\
    load_le (log_buf s') 0 8
      = Ok (record_size_for 256 (ev_path (sample_event 3 7))) /\
    log_next_idx s' = record_size_for 256 (ev_path (sample_event 3 7)).
Proof.
  assert (C : 256 <= 256 < 2 ^ 31) by lia.
  assert (T : tail_ok 256 (state_after (small_log 2)))
    by (split; [vm_compute; reflexivity | split; vm_compute; done]).
  assert (Y : seq_typed (state_after (small_log 2)))
    by (split; [|split]; vm_compute; done).
  assert (R : headers_readable (state_after (small_log 2)) = true)
    by (vm_compute; reflexivity).
  assert (E : event_ok (sample_event 3 7) = true)
    by (vm_compute; reflexivity).
  assert (W : (256 <=? log_next_idx (state_after (small_log 2))
                       + record_size_for 256 (ev_path (sample_event 3 7))
                       + sizeof_size_t) = true)
    by (vm_compute; reflexivity).
  split; [exact R|]. split; [exact E|].
  destruct (wrap_exactly_when_tail_short 256 (sample_event 3 7)
              (state_after (small_log 2)) C T Y R E) as (s' & Hs & H).
  exists s'. split; [exact Hs|].
  rewrite W in H. exact H.
Defined.


(** [append_stays_in_arena] on a 256-byte log that holds one record. *)
Lemma append_stays_in_arena_witness :
  reachable 256 (state_after (small_log 1)) /\
  submit 256 (sample_event 2 7) (state_after (small_log 1))
    <> Fault OobWrite.
Proof.
  assert (C : 256 <= 256 < 2 ^ 31) by lia.
  assert (R : reachable 256 (state_after (small_log 1))).
  { apply (reachable_store 256 (netlog_init 256) (sample_event 1 7));
      [apply reachable_init | vm_compute; reflexivity]. }
  split; [exact R|].
  destruct (append_stays_in_arena 256 (sample_event 2 7)
              (state_after (small_log 1)) C R) as (_ & _ & _ & H & _).
  exact H.
Defined.

(** [short_buffer_skips_record] for a session at the only record of a
    256-byte log and a buffer of 10 bytes. *)
Lemma short_buffer_skips_record_witness :
  netlog_log_read sample_h dotted_quad hex_groups (Some (UserData 0 0))
    true 10 true (state_after (small_log 1))
  = Ok (Returned (- EINVAL) [], Some (UserData (u64 (0 + 1)) 88)).
Proof.
  pose (sy := System (state_after (small_log 1)) {[ 0%nat := UserData 0 0 ]}).
  assert (F : files sy !! 0%nat = Some (UserData 0 0))
    by (vm_compute; reflexivity).
  assert (G : log_first_seq (store_of sy) <= log_curr_seq (UserData 0 0))
    by (vm_compute; done).
  assert (N : log_curr_seq (UserData 0 0) <> log_next_seq (store_of sy))
    by (vm_compute; done).
  assert (R : render_record sample_h dotted_quad hex_groups
                (log_buf (store_of sy)) (log_curr_idx (UserData 0 0))
              = Ok line_of_first) by (vm_compute; reflexivity).
  assert (X : next_record (log_buf (store_of sy))
                (log_curr_idx (UserData 0 0)) = Ok 88)
    by (vm_compute; reflexivity).
  assert (S : 10 < Z.of_nat (length line_of_first))
    by (vm_compute; reflexivity).
  destruct (short_buffer_skips_record sample_h dotted_quad hex_groups 256 sy
              0%nat (UserData 0 0) line_of_first 88 true 10 true F G N R X S)
    as [H _].
  exact H.
Defined.

(** [first_session_from_oldest] after a session was opened and
    released: the next session starts at the write position. *)
Lemma first_session_from_oldest_witness :
  exists sy',
    step 256 sample_h dotted_quad hex_groups (Open 1 true)
      (system_after (run 256 sample_h dotted_quad hex_groups
                       open_write_release (boot 256))) = Ok sy' /\
    files sy' !! 1%nat = Some (UserData 1 88) /\
    first_read (store_of sy') = false.
Proof.
  assert (R : run 256 sample_h dotted_quad hex_groups open_write_release
                (boot 256)
              = Ok (system_after (run 256 sample_h dotted_quad hex_groups
                                    open_write_release (boot 256))))
    by (vm_compute; reflexivity).
  destruct (first_session_from_oldest 256 sample_h dotted_quad hex_groups
              open_write_release _ 1%nat R) as (sy' & Hs & Hf & Hr).
  exists sy'. split; [exact Hs|]. split; [|exact Hr].
  rewrite Hf. vm_compute. reflexivity.
Defined.

(** [seek_targets] for a seek to the end of a log that holds one
    record. *)
Lemma seek_targets_witness :
  netlog_log_llseek (Some (UserData 0 0)) 0 SEEK_END
    (state_after (small_log 1))
  = (0, Some (UserData (log_next_seq (state_after (small_log 1)))
                       (log_next_idx (state_after (small_log 1))))).
Proof.
  destruct (seek_targets (UserData 0 0) 0 SEEK_END (state_after (small_log 1)))
    as (_ & _ & H & _).
  apply H; reflexivity.
Defined.

(** The protocol after a loss, [data_lost_reported_once], for a session
    left at (0, 0) while three records went into a 256-byte log. *)
Lemma data_lost_reported_once_at_small_log :
  log_curr_seq (UserData 0 0) < log_first_seq (state_after (small_log 3)) /\
  read_session sample_h dotted_quad hex_groups (UserData 0 0) true 8192 true
    (state_after (small_log 3))
  = Ok (Returned (- EPIPE) [],
        UserData (log_first_seq (state_after (small_log 3)))
                 (log_first_idx (state_after (small_log 3)))).
Proof.
  assert (Y : seq_typed (state_after (small_log 3)))
    by (split; [|split]; vm_compute; done).
  assert (O : log_first_seq (state_after (small_log 3))
              <= log_next_seq (state_after (small_log 3)))
    by (vm_compute; done).
  assert (L : log_curr_seq (UserData 0 0)
              < log_first_seq (state_after (small_log 3)))
    by (vm_compute; reflexivity).
  split; [exact L|].
  destruct (data_lost_reported_once sample_h dotted_quad hex_groups
              (UserData 0 0) (state_after (small_log 3)) true 8192 true Y O L)
    as [H _].
  exact H.
Defined.

(** ** Registering the device *)

Lemma remove_first_head r l : remove_first r (r :: l) = l.
Proof. cbn. by rewrite decide_True. Qed.

(** X1 — [init_netlog_dev] registers all or nothing.  If the four
    kernel calls succeed it returns 0, holds the class, the device
    number, the character device and the device node, and has logged the
    creation.  Otherwise it returns the negative value of the first call
    that failed, and every registration made before the failure has been
    taken back: the kernel is as it was before the call. *)
Theorem init_netlog_dev_all_or_nothing h env k :
  let r := init_netlog_dev h env k in
  if dev_calls_succeed env then
    r.1 = 0 /\
    registered r.2
      = DevNode :: CharDev :: ChrdevRegion :: DevClass :: registered k /\
    kmsg r.2 = kmsg k ++ [created_message h]
  else
    r.1 = first_error env /\ r.1 < 0 /\ r.2 = k.
Proof.
  destruct k as [regs msgs].
  unfold init_netlog_dev, dev_calls_succeed, first_error, clean_cdev,
    clean_chrdev_region, clean_class, unregister, register, kprint.
  destruct (IS_ERR (class_create_ret env)) eqn:E1; cbn.
  { unfold IS_ERR in E1. apply andb_true_iff in E1 as [_ E1].
    apply Z.ltb_lt in E1. done. }
  destruct (alloc_chrdev_region_ret env <? 0) eqn:E2.
  { assert ((0 <=? alloc_chrdev_region_ret env) = false) as ->
      by (apply Z.leb_gt; by apply Z.ltb_lt).
    cbn. rewrite decide_True by done. apply Z.ltb_lt in E2. done. }
  assert ((0 <=? alloc_chrdev_region_ret env) = true) as ->
    by (apply Z.leb_le; by apply Z.ltb_ge).
  destruct (cdev_add_ret env <? 0) eqn:E3.
  { assert ((0 <=? cdev_add_ret env) = false) as ->
      by (apply Z.leb_gt; by apply Z.ltb_lt).
    cbn. rewrite !decide_True by done. apply Z.ltb_lt in E3. done. }
  assert ((0 <=? cdev_add_ret env) = true) as ->
    by (apply Z.leb_le; by apply Z.ltb_ge).
  destruct (IS_ERR (device_create_ret env)) eqn:E4; cbn.
  { rewrite !decide_True by done.
    unfold IS_ERR in E4. apply andb_true_iff in E4 as [_ E4].
    apply Z.ltb_lt in E4. done. }
  done.
Qed.

(** X2 — [destroy_netlog_dev] undoes a successful [init_netlog_dev]:
    after the two calls the kernel holds the registrations it held
    before, and the log has gained the two messages. *)
Theorem destroy_undoes_init h env k k' :
  init_netlog_dev h env k = (0, k') ->
  registered (destroy_netlog_dev h k') = registered k /\
  kmsg (destroy_netlog_dev h k')
    = kmsg k ++ [created_message h; removing_message h].
Proof.
  destruct k as [regs msgs].
  unfold init_netlog_dev, clean_cdev, clean_chrdev_region, clean_class.
  destruct (IS_ERR (class_create_ret env)) eqn:E1.
  { unfold IS_ERR in E1. apply andb_true_iff in E1 as [_ E1].
    apply Z.ltb_lt in E1. intros [= E _]. lia. }
  destruct (alloc_chrdev_region_ret env <? 0) eqn:E2.
  { apply Z.ltb_lt in E2. intros [= E _]. lia. }
  destruct (cdev_add_ret env <? 0) eqn:E3.
  { apply Z.ltb_lt in E3. intros [= E _]. lia. }
  destruct (IS_ERR (device_create_ret env)) eqn:E4.
  { unfold IS_ERR in E4. apply andb_true_iff in E4 as [_ E4].
    apply Z.ltb_lt in E4. intros [= E _]. lia. }
  intros [= <-].
  unfold destroy_netlog_dev, unregister, register, kprint. cbn.
  rewrite !decide_True by done. split; [done|]. by rewrite <- app_assoc.
Qed.

(** ** One append, in terms of the state before it *)

Lemma submit_step LOG_BUF_LEN e s s' :
  256 <= LOG_BUF_LEN < 2 ^ 31 ->
  tail_ok LOG_BUF_LEN s ->
  0 <= log_first_seq s <= log_next_seq s ->
  log_next_seq s + 1 < 2 ^ 64 ->
  submit LOG_BUF_LEN e s = Ok s' ->
  exists s1,
    evict LOG_BUF_LEN (passes s) (record_size_for LOG_BUF_LEN (ev_path e))
      (warn_truncation LOG_BUF_LEN (ev_path e) s) = Ok s1 /\
    log_buf s1 = log_buf s /\ log_next_idx s1 = log_next_idx s /\
    log_next_seq s1 = log_next_seq s /\
    log_first_seq s <= log_first_seq s1 <= log_next_seq s /\
    event_ok e = true /\
    record_written LOG_BUF_LEN (record_size_for LOG_BUF_LEN (ev_path e))
      (stored_path_len LOG_BUF_LEN (ev_path e)) (ev_path e) s1 s' /\
    log_first_seq s' = log_first_seq s1 /\
    log_next_seq s' = log_next_seq s + 1.
Proof.
  intros capacity Ht Ho Hn Hs.
  pose proof Hs as Hs'. rewrite submit_parts in Hs'.
  destruct (evict _ _ _ _) as [s1|] eqn:E; cbn [mbind res_bind] in Hs';
    [|done].
  destruct (submit_spec LOG_BUF_LEN capacity e s Ht) as (_ & _ & H).
  destruct (H s1 E) as ((Mb & Mns & Mni & _) &
                        [[Hf _]|(s'' & Hs'' & Hok & Hw)]); [congruence|].
  assert (s'' = s') as -> by congruence.
  pose proof (warn_moved LOG_BUF_LEN (ev_path e) s) as W. cbn zeta in W.
  destruct W as (Wb & Wfs & _ & Wns & Wni & _).
  pose proof E as E'.
  apply evict_order in E' as (Hf1 & Hn1);
    [|unfold seq_typed; rewrite Wfs, Wns; lia | rewrite Wfs, Wns; lia].
  rewrite Wfs, Wns in *.
  exists s1. split; [done|]. split; [congruence|]. split; [congruence|].
  split; [done|]. split; [lia|]. split; [done|]. split; [done|].
  destruct Hw as (_ & Hfs & _ & Hns & _).
  rewrite Hn1, u64_small in Hns by lia. done.
Qed.

(** X3 — One append moves the sequence numbers forward: while fewer
    than 2^64 records have been appended, a completed [store_record]
    adds one to [log_next_seq], never moves [log_first_seq] back or past
    [log_next_seq], and leaves the write position inside the arena with
    room for a sentinel. *)
Theorem append_advances_sequence LOG_BUF_LEN e s s' :
  256 <= LOG_BUF_LEN < 2 ^ 31 ->
  tail_ok LOG_BUF_LEN s ->
  0 <= log_first_seq s <= log_next_seq s ->
  log_next_seq s + 1 < 2 ^ 64 ->
  submit LOG_BUF_LEN e s = Ok s' ->
  log_next_seq s' = log_next_seq s + 1 /\
  log_first_seq s <= log_first_seq s' <= log_next_seq s /\
  tail_ok LOG_BUF_LEN s'.
Proof.
  intros capacity Ht Ho Hn Hs.
  destruct (submit_step _ _ _ _ capacity Ht Ho Hn Hs)
    as (s1 & _ & _ & _ & _ & Hf & _ & Hw & Hfs & Hns).
  split; [done|]. split; [lia|]. apply Hw.
Qed.

(** ** [poll] and [read] *)

Section Polling.

Variable h : netlog_h.
Variable pI4 : list Z -> list Z.
Variable pI6c : list Z -> list Z.

Lemma read_session_decoded d nonblock count user_ok s r d' :
  log_curr_seq d <> log_next_seq s ->
  log_first_seq s <= log_curr_seq d ->
  read_session h pI4 pI6c d nonblock count user_ok s = Ok (r, d') ->
  exists line idx,
    render_record h pI4 pI6c (log_buf s) (log_curr_idx d) = Ok line /\
    next_record (log_buf s) (log_curr_idx d) = Ok idx /\
    d' = UserData (u64 (log_curr_seq d + 1)) idx /\
    (r = Returned (- EINVAL) [] \/ r = Returned (- EFAULT) [] \/
     r = Returned (Z.of_nat (length line)) line).
Proof.
  intros Hne Hge. unfold read_session.
  assert ((log_curr_seq d =? log_next_seq s) = false) as ->
    by (by apply Z.eqb_neq).
  assert ((log_curr_seq d <? log_first_seq s) = false) as ->
    by (apply Z.ltb_ge; lia).
  destruct (render_record _ _ _ _ _) as [line|]; cbn [mbind res_bind];
    [|done].
  destruct (next_record _ _) as [idx|]; cbn [mbind res_bind]; [|done].
  intros H. exists line, idx. split; [done|]. split; [done|].
  destruct (_ >? count); [injection H as <- <-; auto|].
  destruct (negb user_ok); injection H as <- <-; auto.
Qed.

(** X4 — [poll] and [read] agree on a session whose cursor is not ahead
    of the writer.  [poll] reports nothing exactly when a non-blocking
    [read] returns -EAGAIN, and exactly when a blocking [read] goes to
    sleep; it reports POLLERR | POLLPRI on top of POLLIN | POLLRDNORM
    exactly when [read] returns -EPIPE and moves the cursor to the
    oldest record; in the remaining case it reports POLLIN | POLLRDNORM
    and [read] goes on to decode the record at the cursor. *)
Theorem poll_agrees_with_read d s count user_ok :
  log_curr_seq d <= log_next_seq s ->
  let mask := netlog_log_poll (Some d) s in
  (mask = 0 <->
   read_session h pI4 pI6c d true count user_ok s
     = Ok (Returned (- EAGAIN) [], d)) /\
  (mask = 0 <->
   read_session h pI4 pI6c d false count user_ok s = Ok (Sleeping, d)) /\
  (mask = Z.lor (Z.lor (Z.lor POLLIN POLLRDNORM) POLLERR) POLLPRI <->
   forall nonblock,
     read_session h pI4 pI6c d nonblock count user_ok s
       = Ok (Returned (- EPIPE) [],
             UserData (log_first_seq s) (log_first_idx s))) /\
  (mask = 0 \/
   mask = Z.lor (Z.lor (Z.lor POLLIN POLLRDNORM) POLLERR) POLLPRI \/
   mask = Z.lor POLLIN POLLRDNORM /\
   log_first_seq s <= log_curr_seq d < log_next_seq s).
Proof.
  intros Hle. cbn zeta. unfold netlog_log_poll.
  destruct (log_curr_seq d <? log_next_seq s) eqn:Elt.
  - apply Z.ltb_lt in Elt.
    destruct (log_curr_seq d <? log_first_seq s) eqn:Ef.
    + assert (Hr : forall nonblock,
                read_session h pI4 pI6c d nonblock count user_ok s
                = Ok (Returned (- EPIPE) [],
                      UserData (log_first_seq s) (log_first_idx s))).
      { intros nonblock. unfold read_session. rewrite Ef.
        assert ((log_curr_seq d =? log_next_seq s) = false) as ->
          by (apply Z.eqb_neq; lia). done. }
      split; [|split; [|split]].
      * rewrite Hr. split; [done|]. intros H. discriminate H.
      * rewrite Hr. split; done.
      * split; auto.
      * auto.
    + apply Z.ltb_ge in Ef.
      assert (Hd : forall nonblock r d',
                read_session h pI4 pI6c d nonblock count user_ok s
                = Ok (r, d') ->
                r <> Returned (- EAGAIN) [] /\ r <> Sleeping /\
                r <> Returned (- EPIPE) []).
      { intros nonblock r d' H.
        apply read_session_decoded in H
          as (line & idx & _ & _ & _ & [-> | [-> | ->]]); [| | |lia|lia].
        - repeat split; intros H; discriminate H.
        - repeat split; intros H; discriminate H.
        - unfold EAGAIN, EPIPE.
          repeat split; intros H; try discriminate H;
            injection H as H _; lia. }
      split; [|split; [|split]].
      * split; [done|]. intros H. apply Hd in H as (H & _). done.
      * split; [done|]. intros H. apply Hd in H as (_ & H & _). done.
      * split; [done|]. intros H. specialize (H true).
        apply Hd in H as (_ & _ & H). done.
      * right. right. split; [done | lia].
  - apply Z.ltb_ge in Elt. assert (log_curr_seq d = log_next_seq s) as E
      by lia.
    unfold read_session. rewrite E, Z.eqb_refl.
    split; [|split; [|split]]; try done.
    + split; [done|]. intros H. specialize (H true). discriminate H.
    + auto.
Qed.

(** X5 — A seek followed by a read.  After [llseek(fd, 0, SEEK_END)] a
    non-blocking [read] returns -EAGAIN and [poll] reports nothing,
    whatever the log holds.  After [llseek(fd, 0, SEEK_SET)] the next
    [read] does not return -EPIPE, and on an empty log it returns
    -EAGAIN. *)
Theorem seek_then_read d s count user_ok :
  let d_end := UserData (log_next_seq s) (log_next_idx s) in
  let d_set := UserData (log_first_seq s) (log_first_idx s) in
  netlog_log_llseek (Some d) 0 SEEK_END s = (0, Some d_end) /\
  read_session h pI4 pI6c d_end true count user_ok s
    = Ok (Returned (- EAGAIN) [], d_end) /\
  netlog_log_poll (Some d_end) s = 0 /\
  netlog_log_llseek (Some d) 0 SEEK_SET s = (0, Some d_set) /\
  (forall nonblock out d',
     read_session h pI4 pI6c d_set nonblock count user_ok s
       <> Ok (Returned (- EPIPE) out, d')) /\
  (log_first_seq s = log_next_seq s ->
   read_session h pI4 pI6c d_set true count user_ok s
     = Ok (Returned (- EAGAIN) [], d_set)).
Proof.
  cbn zeta. split; [done|]. split; [|split; [|split; [done|split]]].
  - unfold read_session. cbn. by rewrite Z.eqb_refl.
  - unfold netlog_log_poll. cbn. by rewrite Z.ltb_irrefl.
  - intros nonblock out d' H.
    destruct (decide (log_first_seq s = log_next_seq s)) as [E|E].
    + unfold read_session in H. cbn in H. rewrite E, Z.eqb_refl in H.
      destruct nonblock; discriminate H.
    + apply read_session_decoded in H
        as (line & idx & _ & _ & _ & [H|[H|H]]); cbn; try done; try lia.
      injection H as H _. unfold EPIPE in H. lia.
  - intros E. unfold read_session. cbn. rewrite E, Z.eqb_refl. done.
Qed.

End Polling.

(** ** The cursors of the open files *)

Section Cursors.

Variable LOG_BUF_LEN : Z.
Hypothesis capacity : 256 <= LOG_BUF_LEN < 2 ^ 31.
Variable h : netlog_h.
Variable pI4 : list Z -> list Z.
Variable pI6c : list Z -> list Z.

Lemma cursors_set_file f data sy s' :
  log_next_seq (store_of sy) <= log_next_seq s' ->
  (forall d, data = Some d -> log_curr_seq d <= log_next_seq s') ->
  cursors_behind sy ->
  cursors_behind (System s' (set_file f data (files sy))).
Proof.
  intros Hn Hd Hc. unfold cursors_behind in *. cbn.
  assert (Hc' : map_Forall (fun _ d => log_curr_seq d <= log_next_seq s')
                  (files sy)).
  { eapply map_Forall_impl; [exact Hc|]. cbn. intros; lia. }
  destruct data as [d|]; cbn.
  - apply map_Forall_insert_2; auto.
  - by apply map_Forall_delete.
Qed.

Lemma step_device_inv c sy sy' n :
  (if appends c then n + 1 else n) < 2 ^ 64 ->
  device_inv LOG_BUF_LEN n sy ->
  step LOG_BUF_LEN h pI4 pI6c c sy = Ok sy' ->
  device_inv LOG_BUF_LEN (if appends c then n + 1 else n) sy'.
Proof.
  intros Hn (Ht & Ho & Hseq & Hc). destruct sy as [s fs]. cbn in *.
  destruct c as [e|f alloc_ok|f nonblock count user_ok|f offset whence|f];
    cbn; cbn in Hn.
  - destruct (submit LOG_BUF_LEN e s) as [s'|] eqn:Hs;
      cbn [mbind res_bind]; [|done].
    intros [= <-].
    destruct (submit_step _ _ _ _ capacity Ht Ho ltac:(lia) Hs)
      as (s1 & _ & _ & _ & _ & Hf & _ & Hw & Hfs & Hns).
    split; [apply Hw|]. cbn. split; [lia|]. split; [lia|].
    unfold cursors_behind in *. cbn in *.
    eapply map_Forall_impl; [exact Hc|]. cbn. intros; lia.
  - intros [= <-]. unfold netlog_log_open.
    destruct alloc_ok; cbn; [|done].
    destruct (first_read s); cbn.
    + split; [done|]. split; [done|]. split; [done|].
      unfold cursors_behind in *. cbn.
      apply map_Forall_insert_2; [cbn; lia | done].
    + split; [done|]. split; [done|]. split; [done|].
      unfold cursors_behind in *. cbn.
      apply map_Forall_insert_2; [cbn; lia | done].
  - unfold netlog_log_read.
    destruct (fs !! f) as [d|] eqn:Ef; cbn [mbind res_bind].
    + destruct (read_session h pI4 pI6c d nonblock count user_ok s)
        as [[r d']|] eqn:Hr; cbn [mbind res_bind]; [|done].
      intros [= <-]. cbn. split; [done|]. split; [done|]. split; [done|].
      apply (cursors_set_file f (Some d') (System s fs) s); [cbn; lia| |done].
      intros ? [= <-].
      pose proof (Hc f d Ef) as Hd. cbn in Hd.
      unfold read_session in Hr.
      destruct (log_curr_seq d =? log_next_seq s) eqn:E1.
      { destruct nonblock; injection Hr as _ <-; done. }
      apply Z.eqb_neq in E1.
      destruct (log_curr_seq d <? log_first_seq s) eqn:E2.
      { injection Hr as _ <-. cbn. lia. }
      apply Z.ltb_ge in E2.
      destruct (render_record _ _ _ _ _); cbn [mbind res_bind] in Hr;
        [|done].
      destruct (next_record _ _); cbn [mbind res_bind] in Hr; [|done].
      assert (d' = UserData (u64 (log_curr_seq d + 1)) a0) as ->.
      { destruct (_ >? count); [by injection Hr as _ <-|].
        destruct (negb user_ok); by injection Hr as _ <-. }
      cbn. rewrite u64_small by lia. lia.
    + intros [= <-]. cbn. split; [done|]. split; [done|]. split; [done|].
      apply (cursors_set_file f None (System s fs) s); [cbn; lia|done|done].
  - intros [= <-]. cbn. split; [done|]. split; [done|]. split; [done|].
    apply (cursors_set_file f _ (System s fs) s); [cbn; lia| |done].
    intros d'. unfold netlog_log_llseek.
    destruct (fs !! f) as [d|] eqn:Ef; [|done].
    pose proof (Hc f d Ef) as Hd. cbn in Hd.
    destruct (negb (offset =? 0)); [by intros [= <-]|].
    destruct (whence =? SEEK_SET); [intros [= <-]; cbn; lia|].
    destruct (whence =? SEEK_CUR); [by intros [= <-]|].
    destruct (whence =? SEEK_END); [intros [= <-]; cbn; lia|].
    by intros [= <-].
  - intros [= <-]. cbn. split; [done|]. split; [done|]. split; [done|].
    apply (cursors_set_file f None (System s fs) s); [cbn; lia|done|done].
Qed.

Lemma run_device_inv cs sy sy' n :
  n + Z.of_nat (length (filter (fun c => appends c = true) cs)) < 2 ^ 64 ->
  device_inv LOG_BUF_LEN n sy ->
  run LOG_BUF_LEN h pI4 pI6c cs sy = Ok sy' ->
  device_inv LOG_BUF_LEN (n + Z.of_nat (length (filter (fun c => appends c = true) cs)))
    sy'.
Proof.
  revert sy n. induction cs as [|c cs IH]; intros sy n Hn Hi; cbn [run].
  - intros [= <-]. cbn. by rewrite Z.add_0_r.
  - destruct (step LOG_BUF_LEN h pI4 pI6c c sy) as [sy1|] eqn:Hs;
      cbn [mbind res_bind]; [|done].
    intros Hr. rewrite filter_cons in *.
    destruct (decide (appends c = true)) as [Ea|Ea].
    + rewrite length_cons in *.
      apply (step_device_inv _ _ _ n) in Hs; [|rewrite Ea; clear -Hn; lia|exact Hi].
      rewrite Ea in Hs. apply (IH _ (n + 1)) in Hr; [|clear -Hn; lia|exact Hs].
      replace (n + Z.of_nat (S (length (filter (fun c => appends c = true) cs))))
        with (n + 1 + Z.of_nat (length (filter (fun c => appends c = true) cs)))
        by lia.
      exact Hr.
    + destruct (appends c) eqn:Ea'; [done|].
      apply (step_device_inv _ _ _ n) in Hs; [|rewrite Ea'; clear -Hn; lia|exact Hi].
      rewrite Ea' in Hs. apply (IH _ n) in Hr; [exact Hr|clear -Hn; lia|exact Hs].
Qed.

End Cursors.

(** X6 — No session is ever ahead of the writer.  After any sequence of
    calls on the device since the module was loaded, with fewer than
    2^64 appends among them, [log_next_seq] is the number of appends,
    [log_first_seq] is not past it, and the cursor of every open file is
    at most [log_next_seq]. *)
Theorem cursors_never_ahead LOG_BUF_LEN h pI4 pI6c cs sy f d :
  256 <= LOG_BUF_LEN < 2 ^ 31 ->
  Z.of_nat (length (filter (fun c => appends c = true) cs)) < 2 ^ 64 ->
  run LOG_BUF_LEN h pI4 pI6c cs (boot LOG_BUF_LEN) = Ok sy ->
  files sy !! f = Some d ->
  log_curr_seq d <= log_next_seq (store_of sy) /\
  log_next_seq (store_of sy)
    = Z.of_nat (length (filter (fun c => appends c = true) cs)) /\
  0 <= log_first_seq (store_of sy) <= log_next_seq (store_of sy).
Proof.
  intros capacity Hn Hrun Hf.
  apply (run_device_inv LOG_BUF_LEN capacity h pI4 pI6c cs _ _ 0) in Hrun.
  - destruct Hrun as (_ & Ho & Hseq & Hc). split; [exact (Hc f d Hf)|].
    split; [lia | done].
  - lia.
  - unfold device_inv, boot, cursors_behind. cbn.
    split; [|split; [lia|split; [done|apply map_Forall_empty]]].
    unfold tail_ok, sizeof_size_t. cbn. rewrite length_replicate. lia.
Qed.

(** ** Alignment *)

(** X7 — The size of a record is the size of the fixed part, the path
    and its terminating NUL, rounded up to the next multiple of the
    alignment of [struct netlog_log]. *)
Theorem record_size_rounds_up p :
  0 <= p < 2 ^ 32 ->
  record_size_of p
  = LOG_ALIGN * ((sizeof_netlog_log + p + 1 + (LOG_ALIGN - 1)) / LOG_ALIGN).
Proof.
  intros Hp. destruct (record_size_bounds p Hp) as [H1 H2].
  unfold sizeof_netlog_log, LOG_ALIGN in *. lia.
Qed.

Lemma reachable_aligned LOG_BUF_LEN s :
  256 <= LOG_BUF_LEN < 2 ^ 31 ->
  reachable LOG_BUF_LEN s -> log_next_idx s mod LOG_ALIGN = 0.
Proof.
  intros capacity. induction 1 as [|s e s' Hr IH Hs|s alloc_ok _ IH].
  - done.
  - pose proof (reachable_tail LOG_BUF_LEN capacity s Hr) as Ht.
    pose proof Hs as Hs'. rewrite submit_parts in Hs'.
    destruct (evict _ _ _ _) as [s1|] eqn:E; cbn [mbind res_bind] in Hs';
      [|done].
    destruct (submit_spec LOG_BUF_LEN capacity e s Ht) as (_ & _ & H).
    destruct (H s1 E) as ((_ & _ & Mni & _) &
                          [[Hf _]|(s'' & Hs'' & _ & Hw)]); [congruence|].
    assert (s'' = s') as -> by congruence.
    pose proof (warn_moved LOG_BUF_LEN (ev_path e) s) as W. cbn zeta in W.
    destruct W as (_ & _ & _ & _ & Wni & _).
    destruct Hw as (_ & _ & _ & _ & Hni & _).
    pose proof (stored_path_len_range LOG_BUF_LEN capacity (ev_path e))
      as [Hpl Hpl'].
    destruct (record_size_bounds (stored_path_len LOG_BUF_LEN (ev_path e)))
      as [_ Hmod]; [lia|].
    fold (record_size_for LOG_BUF_LEN (ev_path e)) in Hmod.
    rewrite Hni. unfold record_start.
    destruct (must_wrap _ _ _); unfold LOG_ALIGN in *; [lia|].
    rewrite Mni, Wni. lia.
  - unfold netlog_log_open.
    destruct (negb alloc_ok); [done|]. by destruct (first_read s).
Qed.

(** X8 — Records start on the alignment of [struct netlog_log]: in
    every state the module can reach, the write position is a multiple
    of [LOG_ALIGN], whether or not [LOG_BUF_LEN] is one; so is the start
    of the record that the next append writes. *)
Theorem records_are_aligned LOG_BUF_LEN s rs :
  256 <= LOG_BUF_LEN < 2 ^ 31 ->
  reachable LOG_BUF_LEN s ->
  log_next_idx s mod LOG_ALIGN = 0 /\
  record_start LOG_BUF_LEN rs s mod LOG_ALIGN = 0.
Proof.
  intros capacity Hr.
  pose proof (reachable_aligned _ _ capacity Hr) as H. split; [done|].
  unfold record_start. by destruct (must_wrap _ _ _).
Qed.

(** ** The members of a record *)

Lemma load_prefix b p n m bs :
  load b p n = Ok bs -> 0 <= m <= n ->
  load b p m = Ok (take (Z.to_nat m) bs).
Proof.
  unfold load. destruct (in_arena b p n) eqn:E; [|done].
  apply in_arena_iff in E. intros [= <-] Hm.
  assert (in_arena b p m = true) as -> by (apply in_arena_iff; lia).
  f_equal. rewrite take_take. f_equal. lia.
Qed.

Lemma load_in_arena b p n :
  0 <= p -> 0 <= n -> p + n <= Z.of_nat (length b) ->
  exists bs, load b p n = Ok bs /\ length bs = Z.to_nat n.
Proof.
  intros Hp Hn Hb. unfold load.
  assert (in_arena b p n = true) as -> by (apply in_arena_iff; lia).
  eexists. split; [done|]. rewrite length_take, length_drop. lia.
Qed.

Lemma holds_same_outside lo hi b b' facts :
  same_outside lo hi b b' -> apart lo (hi - lo) facts ->
  holds facts b -> holds facts b'.
Proof.
  intros Hs Ha Hh. unfold holds, apart in *.
  rewrite Forall_forall in *. intros f Hf.
  rewrite (load_same_outside _ _ _ _ _ _ Hs); [by apply Hh|].
  specialize (Ha f Hf). lia.
Qed.

Lemma holds_store b p bs b' facts :
  store b p bs = Ok b' ->
  apart p (Z.of_nat (length bs)) facts ->
  holds facts b -> holds ((p, bs) :: facts) b'.
Proof.
  intros Hs Ha Hh. apply Forall_cons. split.
  - cbn. by apply load_store_same in Hs.
  - apply store_same_outside in Hs.
    eapply holds_same_outside; [exact Hs| |exact Hh].
    by replace (p + Z.of_nat (length bs) - p) with (Z.of_nat (length bs))
      by lia.
Qed.

Lemma load_le_fact b p n v :
  load b p (Z.of_nat (length (le_bytes n v))) = Ok (le_bytes n v) ->
  load_le b p n = Ok (v mod 256 ^ Z.of_nat n).
Proof.
  rewrite length_le_bytes. intros H. unfold load_le. rewrite H. cbn.
  by rewrite le_value_bytes.
Qed.

(** An address member after its store: sixteen bytes [X] that begin
    with the address of the family. *)
Lemma put_ip_facts b p family ip b' facts :
  match ip with
  | None => memset b p 0 16
  | Some a => copy_ip b p a (u16 family)
  end = Ok b' ->
  0 <= p -> p + 16 <= Z.of_nat (length b) ->
  apart p 16 facts -> holds facts b ->
  exists X, length X = 16%nat /\ length b' = length b /\
    holds ((p, X) :: facts) b' /\
    (u16 family = AF_INET -> take 4 X = ip_field 4 ip) /\
    (u16 family = AF_INET6 -> X = ip_field 16 ip).
Proof.
  intros Hm Hp Hb Ha Hh.
  assert (Hgen : forall bs, store b p bs = Ok b' ->
            Z.of_nat (length bs) <= 16 ->
            exists X, length X = 16%nat /\ length b' = length b /\
              holds ((p, X) :: facts) b' /\
              take (length bs) X = bs).
  { intros bs Hs Hl.
    pose proof (store_same_outside _ _ _ _ Hs) as Hso.
    destruct (load_in_arena b' p 16) as (X & HX & HlX);
      [lia | lia | destruct Hso as [-> _]; lia |].
    exists X. split; [exact HlX|]. split; [apply Hso|]. split.
    - apply Forall_cons. split; [cbn; by rewrite HlX|].
      eapply holds_same_outside; [exact Hso| |exact Hh].
      unfold apart in *. eapply Forall_impl; [exact Ha|]. cbn. intros; lia.
    - apply (load_prefix _ _ _ (Z.of_nat (length bs))) in HX; [|lia].
      apply load_store_same in Hs. rewrite Nat2Z.id in HX. congruence. }
  destruct ip as [a|].
  - unfold copy_ip in Hm.
    destruct (u16 family =? AF_INET) eqn:E4.
    + apply Z.eqb_eq in E4. unfold memcpy in Hm.
      destruct (load a 0 sizeof_in_addr) as [bs|] eqn:El;
        cbn [mbind res_bind] in Hm; [|done].
      pose proof (load_length _ _ _ _ El) as Hlen.
      assert (bs = take 4 a) as Hbs.
      { unfold load in El. destruct (in_arena _ _ _); [|done].
        by injection El as <-. }
      change (Z.to_nat sizeof_in_addr) with 4%nat in Hlen.
      destruct (Hgen bs Hm) as (X & H1 & H2 & H3 & H4); [lia|].
      exists X. split; [done|]. split; [done|]. split; [done|]. split.
      * intros _. cbn. rewrite Hlen in H4. congruence.
      * intros E6. rewrite E4 in E6. discriminate E6.
    + destruct (u16 family =? AF_INET6) eqn:E6.
      * apply Z.eqb_eq in E6. apply Z.eqb_neq in E4. unfold memcpy in Hm.
        destruct (load a 0 sizeof_in6_addr) as [bs|] eqn:El;
          cbn [mbind res_bind] in Hm; [|done].
        pose proof (load_length _ _ _ _ El) as Hlen.
        assert (bs = take 16 a) as Hbs.
        { unfold load in El. destruct (in_arena _ _ _); [|done].
          by injection El as <-. }
        change (Z.to_nat sizeof_in6_addr) with 16%nat in Hlen.
        destruct (Hgen bs Hm) as (X & H1 & H2 & H3 & H4); [lia|].
        exists X. split; [done|]. split; [done|]. split; [done|].
        split; [done|]. intros _. cbn.
        rewrite Hlen, (take_ge X 16) in H4 by lia. congruence.
      * apply Z.eqb_neq in E4. apply Z.eqb_neq in E6. injection Hm as <-.
        destruct (load_in_arena b p 16) as (X & HX & HlX); [lia..|].
        exists X. split; [exact HlX|]. split; [done|]. split; [|done].
        apply Forall_cons. split; [cbn; by rewrite HlX | done].
  - unfold memset in Hm.
    change (replicate (Z.to_nat 16) (u8 0)) with (replicate 16 0) in Hm.
    destruct (Hgen _ Hm) as (X & H1 & H2 & H3 & H4);
      [rewrite length_replicate; lia|].
    rewrite length_replicate, (take_ge X 16) in H4 by lia.
    exists X. split; [done|]. split; [done|]. split; [done|].
    subst X. split; done.
Qed.

Ltac apart_tac :=
  unfold apart;
  repeat (apply List.Forall_cons;
          [cbn [fst snd]; rewrite ?length_le_bytes; lia|]);
  apply List.Forall_nil.

(* One store of [fill_record] that succeeded: its bytes join the facts. *)
Ltac fill_store H Hh Hl :=
  let E := fresh "E" in
  let b := fresh "b" in
  lazymatch type of H with
  | mbind _ ?m = Ok _ =>
      destruct m as [b|] eqn:E; cbn [mbind res_bind] in H;
      [|discriminate H];
      unfold store_le in E;
      eapply (holds_store _ _ _ _ _ E) in Hh; [|apart_tac];
      apply store_same_outside in E as [E _];
      apply (fun H => eq_trans H Hl) in E; clear Hl; rename E into Hl
  end.

Lemma fill_record_intact LOG_BUF_LEN e buf record buf' :
  256 <= LOG_BUF_LEN < 2 ^ 31 ->
  0 <= record ->
  record + record_size_for LOG_BUF_LEN (ev_path e) <= Z.of_nat (length buf) ->
  fill_record buf record (record_size_for LOG_BUF_LEN (ev_path e))
    (stored_path_len LOG_BUF_LEN (ev_path e)) (ev_pid e) (ev_uid e)
    (ev_path e) (ev_action e) (ev_protocol e) (ev_family e) (ev_src_ip e)
    (ev_src_port e) (ev_dst_ip e) (ev_dst_port e) (ev_now e) = Ok buf' ->
  record_intact LOG_BUF_LEN e buf' record /\ length buf' = length buf.
Proof.
  intros capacity Hr Hb H.
  pose proof (stored_path_len_range LOG_BUF_LEN capacity (ev_path e))
    as [Hpl Hpl'].
  pose proof (record_size_for_range LOG_BUF_LEN capacity (ev_path e))
    as (Hrs1 & Hrs2 & Hrs3). cbn zeta in Hrs1, Hrs2, Hrs3.
  unfold record_intact.
  set (rs := record_size_for LOG_BUF_LEN (ev_path e)) in *.
  set (pl := stored_path_len LOG_BUF_LEN (ev_path e)) in *.
  unfold fill_record in H.
  unfold field.len, field.path_len, field.nsec, field.pid, field.uid,
    field.action, field.protocol, field.family, field.src_port,
    field.dst_port, field.dst, field.src, log_path, sizeof_netlog_log,
    sizeof_size_t, sizeof_in_addr, sizeof_in6_addr in *.
  assert (Hh : holds [] buf) by apply List.Forall_nil.
  assert (Hl : length buf = length buf) by done.
  fill_store H Hh Hl. fill_store H Hh Hl. fill_store H Hh Hl.
  fill_store H Hh Hl. fill_store H Hh Hl. fill_store H Hh Hl.
  fill_store H Hh Hl. fill_store H Hh Hl.
  lazymatch type of H with
  | mbind _ ?m = Ok _ =>
      destruct m as [b8|] eqn:E; cbn [mbind res_bind] in H; [|discriminate H]
  end.
  apply (put_ip_facts _ _ _ _ _ _ E) in Hh
    as (X1 & HX1 & Hl1 & Hh & H4s & H6s); [|lia|lia|apart_tac].
  rewrite Hl in Hl1. clear Hl E.
  lazymatch type of H with
  | mbind _ ?m = Ok _ =>
      destruct m as [b9|] eqn:E; cbn [mbind res_bind] in H; [|discriminate H]
  end.
  apply (put_ip_facts _ _ _ _ _ _ E) in Hh
    as (X2 & HX2 & Hl & Hh & H4d & H6d);
    [|lia|lia|apart_tac].
  rewrite Hl1 in Hl. clear Hl1 E.
  fill_store H Hh Hl. fill_store H Hh Hl.
  unfold memcpy in H.
  destruct (load (ev_path e) 0 pl) as [bs|] eqn:El;
    cbn [mbind res_bind] in H; [|discriminate H].
  pose proof (load_length _ _ _ _ El) as Hbs.
  assert (bs = take (Z.to_nat pl) (ev_path e)) as Ebs.
  { unfold load in El. destruct (in_arena _ _ _); [|done].
    by injection El as <-. }
  eapply (holds_store _ _ _ _ _ H) in Hh; [|apart_tac].
  apply store_same_outside in H as [H _]. rewrite Hl in H.
  split; [|exact H].
  unfold holds in Hh.
  apply Forall_cons in Hh as [Fpath Hh].
  apply Forall_cons in Hh as [Fdp Hh]. apply Forall_cons in Hh as [Fsp Hh].
  apply Forall_cons in Hh as [Fdst Hh]. apply Forall_cons in Hh as [Fsrc Hh].
  apply Forall_cons in Hh as [Ffam Hh]. apply Forall_cons in Hh as [Fpro Hh].
  apply Forall_cons in Hh as [Fact Hh]. apply Forall_cons in Hh as [Fuid Hh].
  apply Forall_cons in Hh as [Fpid Hh]. apply Forall_cons in Hh as [Fns Hh].
  apply Forall_cons in Hh as [Fpl [Frs _]%Forall_cons].
  cbn [fst snd] in *.
  apply load_le_fact in Fdp, Fsp, Ffam, Fpro, Fact, Fuid, Fpid, Fns, Fpl, Frs.
  rewrite HX2 in Fdst. rewrite HX1 in Fsrc.
  rewrite Hbs, Z2Nat.id in Fpath by lia.
  change (256 ^ Z.of_nat 8) with (2 ^ 64) in *.
  change (256 ^ Z.of_nat 4) with (2 ^ 32) in *.
  change (256 ^ Z.of_nat 2) with (2 ^ 16) in *.
  change (256 ^ Z.of_nat 1) with (2 ^ 8) in *.
  unfold u64, u32, u16, u8 in Fdp, Fsp, Ffam, Fpro, Fact, Fuid, Fpid, Fns.
  rewrite Z.mod_mod in Fdp, Fsp, Ffam, Fpro, Fact, Fuid, Fpid, Fns by lia.
  rewrite Z.mod_small in Fpl, Frs by lia.
  split; [done|]. split; [done|]. split; [done|]. split; [done|].
  split; [done|]. split; [done|]. split; [done|]. split; [done|].
  split; [done|]. split; [done|]. split; [by rewrite <- Ebs|].
  split.
  - intros E4. split.
    + rewrite <- (H4s E4). by apply (load_prefix _ _ 16).
    + rewrite <- (H4d E4). by apply (load_prefix _ _ 16).
  - intros E6. by rewrite <- (H6s E6), <- (H6d E6).
Qed.

Lemma write_record_intact LOG_BUF_LEN e s1 s' :
  256 <= LOG_BUF_LEN < 2 ^ 31 ->
  tail_ok LOG_BUF_LEN s1 ->
  write_record LOG_BUF_LEN (record_size_for LOG_BUF_LEN (ev_path e))
    (stored_path_len LOG_BUF_LEN (ev_path e)) (ev_pid e) (ev_uid e)
    (ev_path e) (ev_action e) (ev_protocol e) (ev_family e) (ev_src_ip e)
    (ev_src_port e) (ev_dst_ip e) (ev_dst_port e) (ev_now e) s1 = Ok s' ->
  record_intact LOG_BUF_LEN e (log_buf s')
    (record_start LOG_BUF_LEN (record_size_for LOG_BUF_LEN (ev_path e)) s1).
Proof.
  intros capacity Ht H.
  pose proof (write_record_spec LOG_BUF_LEN capacity s1 (ev_pid e)
                (ev_uid e) (ev_path e) (ev_action e) (ev_protocol e)
                (ev_family e) (ev_src_ip e) (ev_src_port e) (ev_dst_ip e)
                (ev_dst_port e) (ev_now e) Ht) as (_ & [Hr0 Hr1] & _).
  destruct Ht as (Hlen & _ & _).
  unfold record_start in *. unfold write_record, wrap_around in H.
  destruct (must_wrap _ _ s1).
  - destruct (store_le _ _ _ _) as [b0|] eqn:E0; cbn [mbind res_bind] in H;
      [|done].
    apply store_same_outside in E0 as [E0 _]. cbn in H.
    destruct (fill_record _ _ _ _ _ _ _ _ _ _ _ _ _ _ _) as [buf'|] eqn:Ef;
      cbn [mbind res_bind] in H; [|done].
    injection H as <-. cbn.
    apply fill_record_intact in Ef as [Hi _]; [done|done|lia|lia].
  - cbn [mbind res_bind] in H.
    destruct (fill_record _ _ _ _ _ _ _ _ _ _ _ _ _ _ _) as [buf'|] eqn:Ef;
      cbn [mbind res_bind] in H; [|done].
    injection H as <-. cbn.
    apply fill_record_intact in Ef as [Hi _]; [done|done|lia|lia].
Qed.

(** X9 — An append stores what it was called with.  After a completed
    [store_record] the record that ends at the new write position starts
    at the old write position or, after a wrap-around, at offset 0, and
    every member reads back as the argument it was given, truncated to
    the width of the member: len, path_len, the path bytes, nsec, pid,
    uid, action, protocol, family, the two ports, and the two addresses
    in the size of the family (zeroes for a NULL address). *)
Theorem record_reads_back LOG_BUF_LEN e s s' :
  256 <= LOG_BUF_LEN < 2 ^ 31 ->
  tail_ok LOG_BUF_LEN s ->
  submit LOG_BUF_LEN e s = Ok s' ->
  let record := log_next_idx s' - record_size_for LOG_BUF_LEN (ev_path e) in
  record_intact LOG_BUF_LEN e (log_buf s') record /\
  (record = log_next_idx s \/ record = 0).
Proof.
  intros capacity Ht Hs record.
  pose proof Hs as Hs'. rewrite submit_parts in Hs'.
  destruct (evict _ _ _ _) as [s1|] eqn:E; cbn [mbind res_bind] in Hs';
    [|done].
  destruct (submit_spec LOG_BUF_LEN capacity e s Ht) as (_ & _ & H).
  destruct (H s1 E) as ((Mb & _ & Mni & _) &
                        [[Hf _]|(s'' & Hs'' & _ & Hw)]); [congruence|].
  assert (s'' = s') as -> by congruence.
  pose proof (warn_moved LOG_BUF_LEN (ev_path e) s) as W. cbn zeta in W.
  destruct W as (Wb & _ & _ & _ & Wni & _).
  assert (T : tail_ok LOG_BUF_LEN s1).
  { destruct Ht as (H1 & H2 & H3). unfold tail_ok.
    rewrite Mb, Mni, Wb, Wni. done. }
  apply write_record_intact in Hs'; [|done|done].
  destruct Hw as (_ & _ & _ & _ & Hni & _).
  assert (record = record_start LOG_BUF_LEN
                     (record_size_for LOG_BUF_LEN (ev_path e)) s1) as ->
    by (unfold record; lia).
  split; [done|]. unfold record_start.
  destruct (must_wrap _ _ _); [by right | left; congruence].
Qed.

(** ** The line of a record *)

Lemma s32_u32 z : s32 (u32 z) = s32 z.
Proof. unfold s32, u32. by rewrite Z.mod_mod by lia. Qed.

Section Rendering.

Variable h : netlog_h.
Variable pI4 : list Z -> list Z.
Variable pI6c : list Z -> list Z.
Variable LOG_BUF_LEN : Z.
Hypothesis capacity : 256 <= LOG_BUF_LEN < 2 ^ 31.

Lemma print_endpoint_intact e buf record :
  record_intact LOG_BUF_LEN e buf record ->
  print_endpoint pI4 pI6c buf (u16 (ev_family e)) (record + field.src)
    (record + field.src_port)
    = Ok (endpoint_of_event pI4 pI6c e (ev_src_ip e) (ev_src_port e)) /\
  print_endpoint pI4 pI6c buf (u16 (ev_family e)) (record + field.dst)
    (record + field.dst_port)
    = Ok (endpoint_of_event pI4 pI6c e (ev_dst_ip e) (ev_dst_port e)).
Proof.
  intros (_ & _ & _ & _ & _ & _ & _ & _ & Hsp & Hdp & _ & H4 & H6).
  unfold print_endpoint, endpoint_of_event.
  destruct (u16 (ev_family e) =? AF_INET) eqn:E4.
  - apply Z.eqb_eq in E4. destruct (H4 E4) as [-> ->].
    cbn [mbind res_bind]. rewrite Hsp, Hdp. cbn [mbind res_bind].
    by rewrite !s32_u32.
  - destruct (u16 (ev_family e) =? AF_INET6) eqn:E6; [|done].
    apply Z.eqb_eq in E6. destruct (H6 E6) as [-> ->].
    cbn [mbind res_bind]. rewrite Hsp, Hdp. cbn [mbind res_bind].
    by rewrite !s32_u32.
Qed.

Lemma render_record_intact e buf record :
  record_intact LOG_BUF_LEN e buf record ->
  render_record h pI4 pI6c buf record
  = if Z.of_nat (length (line_of_event h pI4 pI6c LOG_BUF_LEN e)) + 1
       >? sizeof_user_buf
    then Fault OobWrite
    else Ok (line_of_event h pI4 pI6c LOG_BUF_LEN e).
Proof.
  intros Hi. destruct (print_endpoint_intact _ _ _ Hi) as [Hsrc Hdst].
  destruct Hi as (_ & Hpl & Hns & Hpid & Huid & Hact & Hpro & Hfam & _ & _ &
                  Hpath & _).
  pose proof (stored_path_len_range LOG_BUF_LEN capacity (ev_path e))
    as [Hr Hr'].
  pose proof (stored_path_len_value LOG_BUF_LEN capacity (ev_path e)) as Hv.
  set (pl := stored_path_len LOG_BUF_LEN (ev_path e)) in *.
  assert (Hstr : load_str buf (log_path record) (Z.to_nat (s32 pl))
                 = Ok (take (Z.to_nat pl) (ev_path e))).
  { assert (s32 pl = pl) as ->.
    { unfold s32. rewrite u32_small by lia.
      assert ((pl <? 2 ^ 31) = true) as -> by (apply Z.ltb_lt; lia). done. }
    assert (Hlen : length (take (Z.to_nat pl) (ev_path e)) = Z.to_nat pl)
      by (rewrite length_take; lia).
    rewrite <- Hlen at 1. apply load_str_nonzero.
    - rewrite Hlen, Z2Nat.id by lia. exact Hpath.
    - apply take_strlen_nonzero. lia. }
  unfold render_record, log_protocol, line_of_event.
  rewrite Hns. cbn [mbind res_bind]. rewrite Hpl. cbn [mbind res_bind].
  rewrite Hstr. cbn [mbind res_bind]. rewrite Hpid. cbn [mbind res_bind].
  rewrite Hpro. cbn [mbind res_bind]. rewrite s32_u32.
  destruct (u8 (ev_protocol e) =? PROTO_TCP h);
    [|destruct (u8 (ev_protocol e) =? PROTO_UDP h)];
    cbn [mbind res_bind]; rewrite Hfam; cbn [mbind res_bind];
    rewrite Hsrc; cbn [mbind res_bind]; rewrite Hact; cbn [mbind res_bind];
    rewrite Hdst; cbn [mbind res_bind];
    (destruct (u8 (ev_action e) =? ACTION_CONNECT h);
     [|destruct (u8 (ev_action e) =? ACTION_ACCEPT h);
       [|destruct (u8 (ev_action e) =? ACTION_CLOSE h);
         [|destruct (u8 (ev_action e) =? ACTION_BIND h)]]]);
    cbn [mbind res_bind]; rewrite Huid; cbn [mbind res_bind];
    rewrite s32_u32; reflexivity.
Qed.

End Rendering.

(** ** Reading what was appended *)

Section Delivery.

Variable h : netlog_h.
Variable pI4 : list Z -> list Z.
Variable pI6c : list Z -> list Z.
Variable LOG_BUF_LEN : Z.
Hypothesis capacity : 256 <= LOG_BUF_LEN < 2 ^ 31.

Lemma next_record_intact e buf record :
  record_intact LOG_BUF_LEN e buf record ->
  0 <= record ->
  record + record_size_for LOG_BUF_LEN (ev_path e) < 2 ^ 32 ->
  next_record buf record
  = Ok (record + record_size_for LOG_BUF_LEN (ev_path e)).
Proof.
  intros (Hlen & _) Hr Hb. unfold next_record.
  unfold field.len in Hlen. rewrite Z.add_0_r in Hlen. rewrite Hlen.
  cbn [mbind res_bind].
  pose proof (record_size_for_range LOG_BUF_LEN capacity (ev_path e))
    as (Hrs1 & _). cbn zeta in Hrs1.
  pose proof (stored_path_len_range LOG_BUF_LEN capacity (ev_path e))
    as [Hpl _]. unfold sizeof_netlog_log in *.
  assert ((record_size_for LOG_BUF_LEN (ev_path e) =? 0) = false) as ->
    by (apply Z.eqb_neq; lia).
  by rewrite u32_small by lia.
Qed.

Lemma read_session_delivers e s d nonblock count :
  record_intact LOG_BUF_LEN e (log_buf s) (log_curr_idx d) ->
  0 <= log_first_seq s <= log_curr_seq d ->
  log_curr_seq d <> log_next_seq s ->
  log_curr_seq d + 1 < 2 ^ 64 ->
  0 <= log_curr_idx d ->
  log_curr_idx d + record_size_for LOG_BUF_LEN (ev_path e) < 2 ^ 32 ->
  Z.of_nat (length (line_of_event h pI4 pI6c LOG_BUF_LEN e)) + 1
    <= sizeof_user_buf ->
  Z.of_nat (length (line_of_event h pI4 pI6c LOG_BUF_LEN e)) <= count ->
  read_session h pI4 pI6c d nonblock count true s
  = Ok (delivered h pI4 pI6c LOG_BUF_LEN e,
        UserData (log_curr_seq d + 1)
          (log_curr_idx d + record_size_for LOG_BUF_LEN (ev_path e))).
Proof.
  intros Hi Hge Hne Hseq Hidx Hb Hfit Hcount. unfold read_session.
  assert ((log_curr_seq d =? log_next_seq s) = false) as ->
    by (by apply Z.eqb_neq).
  assert ((log_curr_seq d <? log_first_seq s) = false) as ->
    by (apply Z.ltb_ge; lia).
  rewrite (render_record_intact h pI4 pI6c LOG_BUF_LEN capacity e _ _ Hi).
  assert ((Z.of_nat (length (line_of_event h pI4 pI6c LOG_BUF_LEN e)) + 1
           >? sizeof_user_buf) = false) as ->
    by (rewrite Z.gtb_ltb; apply Z.ltb_ge; lia).
  cbn [mbind res_bind]. rewrite (next_record_intact e _ _ Hi Hidx Hb).
  cbn [mbind res_bind].
  assert ((Z.of_nat (length (line_of_event h pI4 pI6c LOG_BUF_LEN e))
           >? count) = false) as ->
    by (rewrite Z.gtb_ltb; apply Z.ltb_ge; lia).
  cbn. by rewrite u64_small by lia.
Qed.

(** X10 — A session that waits at the write position reads the next
    record.  If an append completes without a wrap-around, a session
    whose cursor was at (log_next_seq, log_next_idx) before the append
    gets from its next read the line of exactly that event, as the
    format strings print the arguments of [store_record], and its cursor
    is at the new write position; the line must fit [user_data.buf] and
    the buffer of the caller. *)
Theorem read_after_append e s s' nonblock count :
  tail_ok LOG_BUF_LEN s ->
  0 <= log_first_seq s <= log_next_seq s ->
  log_next_seq s + 1 < 2 ^ 64 ->
  submit LOG_BUF_LEN e s = Ok s' ->
  must_wrap LOG_BUF_LEN (record_size_for LOG_BUF_LEN (ev_path e)) s = false ->
  Z.of_nat (length (line_of_event h pI4 pI6c LOG_BUF_LEN e)) + 1
    <= sizeof_user_buf ->
  Z.of_nat (length (line_of_event h pI4 pI6c LOG_BUF_LEN e)) <= count ->
  read_session h pI4 pI6c (UserData (log_next_seq s) (log_next_idx s))
    nonblock count true s'
  = Ok (delivered h pI4 pI6c LOG_BUF_LEN e,
        UserData (log_next_seq s') (log_next_idx s')).
Proof.
  intros Ht Ho Hn Hs Hw Hfit Hcount.
  destruct (submit_step _ _ _ _ capacity Ht Ho Hn Hs)
    as (s1 & E & Mb & Mni & Mns & Hf & _ & Hrw & Hfs & Hns).
  pose proof Hs as Hs'. rewrite submit_parts, E in Hs'.
  cbn [mbind res_bind] in Hs'.
  assert (T : tail_ok LOG_BUF_LEN s1).
  { destruct Ht as (H1 & H2 & H3). unfold tail_ok. rewrite Mb, Mni. done. }
  apply write_record_intact in Hs'; [|done|done].
  destruct Hrw as ((_ & Hn0 & Hn1) & _ & _ & _ & Hni & _).
  unfold record_start in Hs', Hni.
  assert (must_wrap LOG_BUF_LEN (record_size_for LOG_BUF_LEN (ev_path e)) s1
          = false) as Hw1 by (unfold must_wrap in *; by rewrite Mni).
  rewrite Hw1, Mni in Hs', Hni.
  rewrite Hns, Hni. destruct Ht as (_ & Ht0 & Ht1).
  unfold sizeof_size_t in *.
  apply read_session_delivers; cbn; try done; lia.
Qed.

Lemma line_longer_than_path e :
  stored_path_len LOG_BUF_LEN (ev_path e)
  < Z.of_nat (length (line_of_event h pI4 pI6c LOG_BUF_LEN e)).
Proof.
  pose proof (stored_path_len_range LOG_BUF_LEN capacity (ev_path e))
    as [Hr _].
  unfold line_of_event.
  set (pl := stored_path_len LOG_BUF_LEN (ev_path e)) in *.
  assert (Hlen : length (take (Z.to_nat pl) (ev_path e)) = Z.to_nat pl)
    by (rewrite length_take; lia).
  destruct (u8 (ev_action e) =? ACTION_CONNECT h);
    [|destruct (u8 (ev_action e) =? ACTION_ACCEPT h);
      [|destruct (u8 (ev_action e) =? ACTION_CLOSE h);
        [|destruct (u8 (ev_action e) =? ACTION_BIND h)]]];
    rewrite !length_app, Hlen; cbn [length]; lia.
Qed.

(** X11 — A long path does not fit the line buffer of a session.  The
    line of a record is built with [sprintf] in [user_data.buf], of 8192
    bytes, and holds the stored path and more.  If the stored path has
    8191 bytes or more, which [store_record] allows once LOG_BUF_LEN is
    16 * 8191 or more, the append succeeds and rendering the record it
    stored writes past the end of the array. *)
Theorem long_path_overflows_line_buffer e s :
  tail_ok LOG_BUF_LEN s -> seq_typed s ->
  headers_readable s = true -> event_ok e = true ->
  sizeof_user_buf - 1 <= stored_path_len LOG_BUF_LEN (ev_path e) ->
  exists s',
    submit LOG_BUF_LEN e s = Ok s' /\
    render_record h pI4 pI6c (log_buf s')
      (log_next_idx s' - record_size_for LOG_BUF_LEN (ev_path e))
    = Fault OobWrite.
Proof.
  intros Ht Hty Hr He Hlong.
  destruct (submit_ok LOG_BUF_LEN e s capacity Ht Hty Hr He)
    as (s1 & s' & Mb & Mni & _ & _ & Hs & Hrw).
  exists s'. split; [exact Hs|].
  pose proof Hs as Hs'. rewrite submit_parts in Hs'.
  destruct (evict _ _ _ _) as [s1'|] eqn:E; cbn [mbind res_bind] in Hs';
    [|done].
  pose proof (evict_moved _ _ _ _ _ E) as (Mb' & _ & Mni' & _).
  pose proof (warn_moved LOG_BUF_LEN (ev_path e) s) as W. cbn zeta in W.
  destruct W as (Wb & _ & _ & _ & Wni & _).
  assert (T : tail_ok LOG_BUF_LEN s1').
  { destruct Ht as (H1 & H2 & H3). unfold tail_ok.
    rewrite Mb', Mni', Wb, Wni. done. }
  apply write_record_intact in Hs'; [|done|done].
  destruct Hrw as (_ & _ & _ & _ & Hni & _).
  assert (record_start LOG_BUF_LEN
            (record_size_for LOG_BUF_LEN (ev_path e)) s1'
          = log_next_idx s' - record_size_for LOG_BUF_LEN (ev_path e)) as <-.
  { unfold record_start, must_wrap in *. rewrite Mni', Wni.
    rewrite Mni in Hni. lia. }
  rewrite (render_record_intact h pI4 pI6c LOG_BUF_LEN capacity e _ _ Hs').
  pose proof (line_longer_than_path e) as Hl.
  assert ((Z.of_nat (length (line_of_event h pI4 pI6c LOG_BUF_LEN e)) + 1
           >? sizeof_user_buf) = true) as ->
    by (rewrite Z.gtb_ltb; apply Z.ltb_lt; lia).
  done.
Qed.

End Delivery.

(** ** A log that has not wrapped *)

Lemma offset_after_cons LOG_BUF_LEN e es :
  offset_after LOG_BUF_LEN (e :: es)
  = record_size_for LOG_BUF_LEN (ev_path e) + offset_after LOG_BUF_LEN es.
Proof. done. Qed.

Lemma offset_after_app LOG_BUF_LEN a b :
  offset_after LOG_BUF_LEN (a ++ b)
  = offset_after LOG_BUF_LEN a + offset_after LOG_BUF_LEN b.
Proof.
  induction a as [|e a IH]; cbn; [done|].
  fold (offset_after LOG_BUF_LEN (a ++ b)). fold (offset_after LOG_BUF_LEN a).
  rewrite IH. lia.
Qed.

Lemma record_written_frame LOG_BUF_LEN rs pl path s s' :
  record_written LOG_BUF_LEN rs pl path s s' ->
  must_wrap LOG_BUF_LEN rs s = false ->
  tail_ok LOG_BUF_LEN s ->
  same_outside (log_next_idx s) (log_next_idx s + rs) (log_buf s) (log_buf s').
Proof.
  intros ((Hl' & _) & _ & _ & _ & _ & _ & _ & _ & _ & _ & _ & Hframe) Hw
         (Hl & _).
  unfold record_start in Hframe. rewrite Hw in Hframe.
  split; [congruence|]. intros i Hi. apply Hframe; [lia|].
  intros [? _]. done.
Qed.

Section Layout.

Variable LOG_BUF_LEN : Z.
Hypothesis capacity : 256 <= LOG_BUF_LEN < 2 ^ 31.

Lemma offset_after_length es :
  Z.of_nat (length es) <= offset_after LOG_BUF_LEN es.
Proof.
  induction es as [|e es IH]; cbn; [done|].
  fold (offset_after LOG_BUF_LEN es).
  pose proof (record_size_for_range LOG_BUF_LEN capacity (ev_path e))
    as (Hrs1 & _). cbn zeta in Hrs1.
  pose proof (stored_path_len_range LOG_BUF_LEN capacity (ev_path e))
    as [Hpl _]. unfold sizeof_netlog_log in *. lia.
Qed.

Lemma record_intact_same_outside e lo hi b b' record :
  same_outside lo hi b b' ->
  record + record_size_for LOG_BUF_LEN (ev_path e) <= lo ->
  record_intact LOG_BUF_LEN e b record ->
  record_intact LOG_BUF_LEN e b' record.
Proof.
  intros Hs Hlo.
  pose proof (record_size_for_range LOG_BUF_LEN capacity (ev_path e))
    as (Hrs1 & _). cbn zeta in Hrs1.
  pose proof (stored_path_len_range LOG_BUF_LEN capacity (ev_path e))
    as [Hpl _].
  unfold record_intact.
  unfold field.len, field.path_len, field.nsec, field.pid, field.uid,
    field.action, field.protocol, field.family, field.src_port,
    field.dst_port, field.dst, field.src, log_path, sizeof_netlog_log,
    sizeof_in_addr, sizeof_in6_addr in *.
  rewrite !(load_le_same_outside _ _ _ _ _ _ Hs) by (left; lia).
  rewrite !(load_same_outside _ _ _ _ _ _ Hs) by (left; lia).
  done.
Qed.

Lemma fresh_log_inv es :
  offset_after LOG_BUF_LEN es + sizeof_size_t < LOG_BUF_LEN ->
  Forall (fun e => event_ok e = true) es ->
  exists s,
    submit_all LOG_BUF_LEN es (netlog_init LOG_BUF_LEN) = Ok s /\
    log_first_seq s = 0 /\ log_first_idx s = 0 /\
    log_next_seq s = Z.of_nat (length es) /\
    log_next_idx s = offset_after LOG_BUF_LEN es /\
    first_read s = true /\
    tail_ok LOG_BUF_LEN s /\
    stored_in_order LOG_BUF_LEN es (log_buf s).
Proof.
  induction es as [|e es IH] using rev_ind; intros Hfit Hok.
  - exists (netlog_init LOG_BUF_LEN). cbn.
    split; [done|]. split; [done|]. split; [done|]. split; [done|].
    split; [done|]. split; [done|]. split.
    + unfold tail_ok, sizeof_size_t. cbn. rewrite length_replicate. lia.
    + intros es1 e es2 Heq. by destruct es1.
  - rewrite offset_after_app in Hfit. cbn in Hfit.
    apply Forall_app in Hok as [Hok He].
    apply Forall_cons in He as [He _].
    pose proof (record_size_for_range LOG_BUF_LEN capacity (ev_path e))
      as (Hrs1 & _). cbn zeta in Hrs1.
    pose proof (stored_path_len_range LOG_BUF_LEN capacity (ev_path e))
      as [Hpl _].
    set (rs := record_size_for LOG_BUF_LEN (ev_path e)) in *.
    unfold sizeof_netlog_log, sizeof_size_t in *.
    destruct IH as (s & Hs & Hfs & Hfi & Hns & Hni & Hfr & Ht & Hst);
      [lia | done |].
    pose proof (offset_after_length es) as Hlen.
    pose proof (warn_moved LOG_BUF_LEN (ev_path e) s) as W. cbn zeta in W.
    set (s0 := warn_truncation LOG_BUF_LEN (ev_path e) s) in *.
    destruct W as (Wb & Wfs & Wfi & Wns & Wni & Wfr).
    assert (T0 : tail_ok LOG_BUF_LEN s0).
    { destruct Ht as (H1 & H2 & H3). unfold tail_ok.
      rewrite Wb, Wni. done. }
    assert (Hev : evict LOG_BUF_LEN (passes s) rs s0 = Ok s0).
    { rewrite evict_unfold.
      destruct (log_first_seq s0 <? log_next_seq s0) eqn:Elive; [|done].
      apply Z.ltb_lt in Elive.
      assert ((free LOG_BUF_LEN s0 >? rs + sizeof_size_t) = true) as ->;
        [|done].
      unfold free, sizeof_size_t. rewrite Wni, Wfi, Hni, Hfi.
      assert ((offset_after LOG_BUF_LEN es >? 0) = true) as ->
        by (rewrite Z.gtb_ltb; apply Z.ltb_lt; lia).
      rewrite u32_small by lia. rewrite Z.gtb_ltb. apply Z.ltb_lt. lia. }
    assert (Hw : must_wrap LOG_BUF_LEN rs s0 = false).
    { unfold must_wrap, sizeof_size_t. rewrite Wni, Hni.
      rewrite u64_small by lia. rewrite Z.geb_leb. apply Z.leb_gt. lia. }
    pose proof (write_record_spec LOG_BUF_LEN capacity s0 (ev_pid e)
                  (ev_uid e) (ev_path e) (ev_action e) (ev_protocol e)
                  (ev_family e) (ev_src_ip e) (ev_src_port e) (ev_dst_ip e)
                  (ev_dst_port e) (ev_now e) T0)
      as (_ & _ & [[_ Hbad]|(s' & Hwr & _ & Hrw)]).
    { unfold event_ok in He. congruence. }
    fold rs in Hwr, Hrw.
    exists s'. rewrite submit_all_snoc, Hs. cbn [mbind res_bind].
    rewrite submit_parts. fold rs s0. rewrite Hev. cbn [mbind res_bind].
    split; [exact Hwr|].
    pose proof (record_written_frame _ _ _ _ _ _ Hrw Hw T0) as Hframe.
    pose proof (write_record_intact _ _ _ _ capacity T0 Hwr) as Hnew.
    fold rs in Hnew. unfold record_start in Hnew. rewrite Hw in Hnew.
    destruct Hrw as (Ht' & Hfs' & Hfi' & Hns' & Hni' & Hfr' & _).
    unfold record_start in Hni'. rewrite Hw in Hni'.
    rewrite Wni, Hni in *.
    split; [congruence|]. split; [congruence|]. split.
    { rewrite Hns', Wns, Hns, u64_small by lia.
      rewrite length_app. cbn. lia. }
    split.
    { rewrite Hni', offset_after_app. cbn. fold rs. lia. }
    split; [congruence|]. split; [exact Ht'|].
    intros es1 e' es2 Heq.
    destruct es2 as [|x es2 _] using rev_ind.
    + apply app_inj_tail in Heq as [-> ->]. exact Hnew.
    + rewrite app_comm_cons, app_assoc in Heq.
      apply app_inj_tail in Heq as [-> ->].
      eapply record_intact_same_outside; [exact Hframe| |].
      * rewrite offset_after_app, offset_after_cons.
        pose proof (offset_after_length es2). lia.
      * rewrite Wb. by eapply Hst.
Qed.

End Layout.

Section Fresh.

Variable h : netlog_h.
Variable pI4 : list Z -> list Z.
Variable pI6c : list Z -> list Z.
Variable LOG_BUF_LEN : Z.
Hypothesis capacity : 256 <= LOG_BUF_LEN < 2 ^ 31.

Lemma read_in_order es s :
  log_first_seq s = 0 ->
  log_next_seq s = Z.of_nat (length es) ->
  stored_in_order LOG_BUF_LEN es (log_buf s) ->
  offset_after LOG_BUF_LEN es + sizeof_size_t < LOG_BUF_LEN ->
  Forall (fun e =>
            Z.of_nat (length (line_of_event h pI4 pI6c LOG_BUF_LEN e)) + 1
            <= sizeof_user_buf) es ->
  forall es2 es1, es = es1 ++ es2 ->
    read_many h pI4 pI6c (replicate (length es2) read_call)
      (UserData (Z.of_nat (length es1)) (offset_after LOG_BUF_LEN es1)) s
    = (delivered h pI4 pI6c LOG_BUF_LEN <$> es2,
       UserData (Z.of_nat (length es)) (offset_after LOG_BUF_LEN es)).
Proof.
  intros Hfs Hns Hst Hfit Hlines.
  pose proof (offset_after_length LOG_BUF_LEN capacity es) as Hlen.
  unfold sizeof_size_t in *.
  induction es2 as [|e es2 IH]; intros es1 Heq.
  - rewrite app_nil_r in Heq. subst es1. done.
  - cbn [length replicate read_many read_call].
    assert (Hoff : offset_after LOG_BUF_LEN es
                   = offset_after LOG_BUF_LEN es1
                     + record_size_for LOG_BUF_LEN (ev_path e)
                     + offset_after LOG_BUF_LEN es2).
    { rewrite Heq, offset_after_app. cbn.
      fold (offset_after LOG_BUF_LEN es2). lia. }
    pose proof (offset_after_length LOG_BUF_LEN capacity es1).
    pose proof (offset_after_length LOG_BUF_LEN capacity es2).
    assert (Hl : length es = (length es1 + S (length es2))%nat)
      by (rewrite Heq, length_app; done).
    assert (He : Z.of_nat (length (line_of_event h pI4 pI6c LOG_BUF_LEN e))
                 + 1 <= sizeof_user_buf).
    { rewrite Forall_forall in Hlines. apply Hlines. rewrite Heq.
      apply elem_of_app. right. apply elem_of_cons. by left. }
    rewrite (read_session_delivers h pI4 pI6c LOG_BUF_LEN capacity e);
      cbn [log_curr_seq log_curr_idx]; try lia.
    + specialize (IH (es1 ++ [e])).
      rewrite <- app_assoc in IH. specialize (IH Heq).
      rewrite length_app, offset_after_app in IH. cbn in IH.
      replace (Z.of_nat (length es1 + 1)) with (Z.of_nat (length es1) + 1)
        in IH by lia.
      rewrite Z.add_0_r in IH. rewrite IH. done.
    + by eapply Hst.
Qed.

(** X12 — A log that has not wrapped is read back in order.  If the
    records of a list of events fit the arena from offset 0 with room
    for a sentinel, appending them to the log of a freshly loaded module
    succeeds and evicts nothing; the first session then opened starts at
    (0, 0), and as many reads as there are events return, in the order
    of the appends, the line of each event; the cursor ends at the write
    position, where one more non-blocking read returns -EAGAIN. *)
Theorem fresh_log_reads_in_order es :
  offset_after LOG_BUF_LEN es + sizeof_size_t < LOG_BUF_LEN ->
  Forall (fun e => event_ok e = true) es ->
  Forall (fun e =>
            Z.of_nat (length (line_of_event h pI4 pI6c LOG_BUF_LEN e)) + 1
            <= sizeof_user_buf) es ->
  exists s,
    submit_all LOG_BUF_LEN es (netlog_init LOG_BUF_LEN) = Ok s /\
    log_first_seq s = 0 /\
    log_next_seq s = Z.of_nat (length es) /\
    log_next_idx s = offset_after LOG_BUF_LEN es /\
    let opened := netlog_log_open true s in
    let last := UserData (log_next_seq s) (log_next_idx s) in
    opened.1 = (0, Some (UserData 0 0)) /\
    read_many h pI4 pI6c (replicate (length es) read_call) (UserData 0 0)
      opened.2
    = (delivered h pI4 pI6c LOG_BUF_LEN <$> es, last) /\
    read_session h pI4 pI6c last true sizeof_user_buf true opened.2
    = Ok (Returned (- EAGAIN) [], last).
Proof.
  intros Hfit Hok Hlines.
  destruct (fresh_log_inv LOG_BUF_LEN capacity es Hfit Hok)
    as (s & Hs & Hfs & Hfi & Hns & Hni & Hfr & Ht & Hst).
  exists s. split; [done|]. split; [done|]. split; [done|]. split; [done|].
  cbn zeta. unfold netlog_log_open. rewrite Hfr, Hfs, Hfi. cbn [negb fst snd].
  split; [done|]. split.
  - rewrite Hns, Hni.
    apply (read_in_order es (set_first_read false s) Hfs Hns Hst Hfit Hlines
             es []). done.
  - unfold read_session. cbn. by rewrite Z.eqb_refl.
Qed.

End Fresh.

Lemma frames_in_order LOG_BUF_LEN es buf :
  256 <= LOG_BUF_LEN < 2 ^ 31 ->
  stored_in_order LOG_BUF_LEN es buf ->
  offset_after LOG_BUF_LEN es < 2 ^ 32 ->
  forall es2 es1, es = es1 ++ es2 ->
    frames_between (length es2) buf (offset_after LOG_BUF_LEN es1)
      (offset_after LOG_BUF_LEN es)
    = Ok (Z.of_nat (length es2)).
Proof.
  intros capacity Hst Hb.
  induction es2 as [|e es2 IH]; intros es1 Heq.
  - rewrite app_nil_r in Heq. subst es1. cbn. by rewrite Z.eqb_refl.
  - pose proof (record_size_for_range LOG_BUF_LEN capacity (ev_path e))
      as (Hrs1 & _). cbn zeta in Hrs1.
    pose proof (stored_path_len_range LOG_BUF_LEN capacity (ev_path e))
      as [Hpl _]. unfold sizeof_netlog_log in *.
    pose proof (offset_after_length LOG_BUF_LEN capacity es1).
    pose proof (offset_after_length LOG_BUF_LEN capacity es2).
    assert (Hoff : offset_after LOG_BUF_LEN es
                   = offset_after LOG_BUF_LEN es1
                     + record_size_for LOG_BUF_LEN (ev_path e)
                     + offset_after LOG_BUF_LEN es2)
      by (rewrite Heq, offset_after_app, offset_after_cons; lia).
    cbn [length frames_between].
    assert ((offset_after LOG_BUF_LEN es1 =? offset_after LOG_BUF_LEN es)
            = false) as -> by (apply Z.eqb_neq; lia).
    destruct (Hst es1 e es2 Heq) as (Hlen & _).
    unfold field.len in Hlen. rewrite Z.add_0_r in Hlen. rewrite Hlen.
    cbn [mbind res_bind].
    assert ((record_size_for LOG_BUF_LEN (ev_path e) =? 0) = false) as ->
      by (apply Z.eqb_neq; lia).
    rewrite u32_small by lia.
    specialize (IH (es1 ++ [e])). rewrite <- app_assoc in IH.
    specialize (IH Heq).
    rewrite offset_after_app, offset_after_cons in IH. cbn in IH.
    rewrite Z.add_0_r in IH. rewrite IH. cbn [mbind res_bind].
    f_equal. lia.
Qed.

(** X13 — In a log that has not wrapped, the sequence numbers count the
    records.  If the records of a list of events fit the arena from
    offset 0 with room for a sentinel, then after appending them to the
    log of a freshly loaded module the walk along the length headers
    from [log_first_idx] reaches [log_next_idx] after exactly
    [log_next_seq - log_first_seq] records, one for each event. *)
Theorem fresh_log_frames_match_sequence LOG_BUF_LEN es :
  256 <= LOG_BUF_LEN < 2 ^ 31 ->
  offset_after LOG_BUF_LEN es + sizeof_size_t < LOG_BUF_LEN ->
  Forall (fun e => event_ok e = true) es ->
  exists s,
    submit_all LOG_BUF_LEN es (netlog_init LOG_BUF_LEN) = Ok s /\
    frames_between (length es) (log_buf s) (log_first_idx s) (log_next_idx s)
      = Ok (log_next_seq s - log_first_seq s) /\
    log_next_seq s - log_first_seq s = Z.of_nat (length es).
Proof.
  intros capacity Hfit Hok.
  destruct (fresh_log_inv LOG_BUF_LEN capacity es Hfit Hok)
    as (s & Hs & Hfs & Hfi & Hns & Hni & _ & _ & Hst).
  exists s. split; [done|]. rewrite Hfs, Hfi, Hns, Hni, Z.sub_0_r.
  split; [|done].
  apply (frames_in_order LOG_BUF_LEN es (log_buf s) capacity Hst) with (es1 := []);
    [unfold sizeof_size_t in *; lia | done].
Qed.

(** ** A copy to user space that fails *)

(** X14 — A failed [copy_to_user] loses the record for the session.
    When the line fits the buffer of the caller but cannot be copied to
    it, [read] returns -EFAULT and nothing is delivered; the cursor has
    moved on to (seq + 1, next_record offset) before the copy, so the
    next read of the session is for the following record. *)
Theorem failed_copy_skips_record h pI4 pI6c d s line idx nonblock count :
  log_first_seq s <= log_curr_seq d ->
  log_curr_seq d <> log_next_seq s ->
  render_record h pI4 pI6c (log_buf s) (log_curr_idx d) = Ok line ->
  next_record (log_buf s) (log_curr_idx d) = Ok idx ->
  Z.of_nat (length line) <= count ->
  netlog_log_read h pI4 pI6c (Some d) nonblock count false s
  = Ok (Returned (- EFAULT) [],
        Some (UserData (u64 (log_curr_seq d + 1)) idx)).
Proof.
  intros Hge Hne Hline Hidx Hfit. unfold netlog_log_read, read_session.
  assert ((log_curr_seq d =? log_next_seq s) = false) as ->
    by (by apply Z.eqb_neq).
  assert ((log_curr_seq d <? log_first_seq s) = false) as ->
    by (apply Z.ltb_ge; lia).
  rewrite Hline, Hidx. cbn [mbind res_bind].
  assert ((Z.of_nat (length line) >? count) = false) as ->
    by (rewrite Z.gtb_ltb; apply Z.ltb_ge; lia).
  done.
Qed.

(** ** Addresses of another family *)

(* One store of [fill_record] that leaves the address members alone. *)
Ltac keep_store record H Hk :=
  let E := fresh "E" in
  let b := fresh "b" in
  lazymatch type of H with
  | mbind _ ?m = Ok _ =>
      destruct m as [b|] eqn:E; cbn [mbind res_bind] in H;
      [|discriminate H];
      unfold store_le in E;
      apply store_same_outside in E;
      rewrite ?length_le_bytes in E;
      apply (load_same_outside _ _ _ _ (record + field.dst) 32) in E;
      [|unfold field.dst; lia];
      apply (fun S => eq_trans S Hk) in E; clear Hk; rename E into Hk
  end.

(** X15 — [copy_ip] copies nothing for a family it does not know.  When
    [store_record] is given addresses and a family other than AF_INET
    and AF_INET6, no store of the record touches the 32 bytes of its
    dst and src members: they keep what the arena held there before. *)
Theorem unknown_family_leaves_addresses buf record rs path_len pid uid path
    action protocol family src_ip src_port dst_ip dst_port now buf' :
  u16 family <> AF_INET -> u16 family <> AF_INET6 ->
  fill_record buf record rs path_len pid uid path action protocol family
    (Some src_ip) src_port (Some dst_ip) dst_port now = Ok buf' ->
  load buf' (record + field.dst) (sizeof_in6_addr + sizeof_in6_addr)
  = load buf (record + field.dst) (sizeof_in6_addr + sizeof_in6_addr).
Proof.
  intros H4 H6 H.
  change (sizeof_in6_addr + sizeof_in6_addr) with 32.
  unfold fill_record, copy_ip in H.
  apply Z.eqb_neq in H4, H6. rewrite H4, H6 in H.
  unfold field.len, field.path_len, field.nsec, field.pid, field.uid,
    field.action, field.protocol, field.family, field.src_port,
    field.dst_port, log_path, sizeof_netlog_log in H.
  assert (Hk : load buf (record + field.dst) 32
               = load buf (record + field.dst) 32) by done.
  keep_store record H Hk. keep_store record H Hk. keep_store record H Hk.
  keep_store record H Hk. keep_store record H Hk. keep_store record H Hk.
  keep_store record H Hk. keep_store record H Hk.
  cbn [mbind res_bind] in H.
  keep_store record H Hk. keep_store record H Hk.
  unfold memcpy in H.
  destruct (load path 0 path_len) as [bs|]; cbn [mbind res_bind] in H;
    [|discriminate H].
  apply store_same_outside in H.
  apply (load_same_outside _ _ _ _ (record + field.dst) 32) in H;
    [|unfold field.dst; lia].
  congruence.
Qed.

(** ** The properties above on concrete inputs *)

(** [destroy_undoes_init] after an initialisation whose four calls
    succeed, on a kernel that holds nothing of the driver. *)
Lemma destroy_undoes_init_witness :
  registered (destroy_netlog_dev sample_h
                (init_netlog_dev sample_h sample_results (Kernel [] [])).2)
    = [] /\
  kmsg (destroy_netlog_dev sample_h
          (init_netlog_dev sample_h sample_results (Kernel [] [])).2)
    = [created_message sample_h; removing_message sample_h].
Proof.
  apply (destroy_undoes_init sample_h sample_results (Kernel [] [])).
  reflexivity.
Defined.

(** [append_advances_sequence] for the third append to a 256-byte log,
    which evicts the two records before it. *)
Lemma append_advances_sequence_witness :
  log_next_seq (state_after (small_log 3))
    = log_next_seq (state_after (small_log 2)) + 1 /\
  log_first_seq (state_after (small_log 2))
    <= log_first_seq (state_after (small_log 3))
    <= log_next_seq (state_after (small_log 2)).
Proof.
  assert (C : 256 <= 256 < 2 ^ 31) by lia.
  assert (T : tail_ok 256 (state_after (small_log 2)))
    by (split; [vm_compute; reflexivity | split; vm_compute; done]).
  assert (O : 0 <= log_first_seq (state_after (small_log 2))
              <= log_next_seq (state_after (small_log 2)))
    by (split; vm_compute; done).
  assert (N : log_next_seq (state_after (small_log 2)) + 1 < 2 ^ 64)
    by (vm_compute; reflexivity).
  assert (S : submit 256 (sample_event 3 7) (state_after (small_log 2))
              = Ok (state_after (small_log 3)))
    by (vm_compute; reflexivity).
  destruct (append_advances_sequence 256 (sample_event 3 7) _ _ C T O N S)
    as (H1 & H2 & _).
  split; [exact H1 | exact H2].
Defined.

(** [poll_agrees_with_read] for a session at the write position of a
    log that holds one record. *)
Lemma poll_agrees_with_read_witness :
  netlog_log_poll (Some (UserData 1 88)) (state_after (small_log 1)) = 0 <->
  read_session sample_h dotted_quad hex_groups (UserData 1 88) true 8192 true
    (state_after (small_log 1))
  = Ok (Returned (- EAGAIN) [], UserData 1 88).
Proof.
  assert (L : log_curr_seq (UserData 1 88)
              <= log_next_seq (state_after (small_log 1)))
    by (vm_compute; done).
  destruct (poll_agrees_with_read sample_h dotted_quad hex_groups
              (UserData 1 88) (state_after (small_log 1)) 8192 true L)
    as (H & _).
  exact H.
Defined.

(** [cursors_never_ahead] for a session opened before the first
    append. *)
Lemma cursors_never_ahead_witness :
  log_curr_seq (UserData 0 0)
    <= log_next_seq
         (store_of (system_after
                      (run 256 sample_h dotted_quad hex_groups
                         open_then_write (boot 256)))) /\
  log_next_seq
    (store_of (system_after
                 (run 256 sample_h dotted_quad hex_groups open_then_write
                    (boot 256)))) = 1.
Proof.
  assert (C : 256 <= 256 < 2 ^ 31) by lia.
  assert (N : Z.of_nat (length (filter (fun c => appends c = true)
                                  open_then_write)) < 2 ^ 64)
    by (vm_compute; reflexivity).
  assert (R : run 256 sample_h dotted_quad hex_groups open_then_write
                (boot 256)
              = Ok (system_after (run 256 sample_h dotted_quad hex_groups
                                    open_then_write (boot 256))))
    by (vm_compute; reflexivity).
  assert (F : files (system_after (run 256 sample_h dotted_quad hex_groups
                                     open_then_write (boot 256))) !! 0%nat
              = Some (UserData 0 0))
    by (vm_compute; reflexivity).
  destruct (cursors_never_ahead 256 sample_h dotted_quad hex_groups
              open_then_write _ 0%nat (UserData 0 0) C N R F)
    as (H1 & H2 & _).
  split; [exact H1 | exact H2].
Defined.

(** [record_size_rounds_up] for a path of seven bytes: 88 bytes. *)
Lemma record_size_rounds_up_witness :
  record_size_of 7
  = LOG_ALIGN * ((sizeof_netlog_log + 7 + 1 + (LOG_ALIGN - 1)) / LOG_ALIGN).
Proof. apply (record_size_rounds_up 7). lia. Defined.

(** [records_are_aligned] for the state after one append. *)
Lemma records_are_aligned_witness :
  log_next_idx (state_after (small_log 1)) mod LOG_ALIGN = 0 /\
  record_start 256 88 (state_after (small_log 1)) mod LOG_ALIGN = 0.
Proof.
  assert (C : 256 <= 256 < 2 ^ 31) by lia.
  assert (S : submit 256 (sample_event 1 7) (netlog_init 256)
              = Ok (state_after (small_log 1)))
    by (vm_compute; reflexivity).
  apply (records_are_aligned 256 (state_after (small_log 1)) 88 C).
  exact (reachable_store 256 _ _ _ (reachable_init 256) S).
Defined.

(** [record_reads_back] for the third append to a 256-byte log: the
    record is at offset 0, after a wrap-around. *)
Lemma record_reads_back_witness :
  let record := log_next_idx (state_after (small_log 3))
                - record_size_for 256 (ev_path (sample_event 3 7)) in
  record_intact 256 (sample_event 3 7) (log_buf (state_after (small_log 3)))
    record /\
  (record = log_next_idx (state_after (small_log 2)) \/ record = 0).
Proof.
  assert (C : 256 <= 256 < 2 ^ 31) by lia.
  assert (T : tail_ok 256 (state_after (small_log 2)))
    by (split; [vm_compute; reflexivity | split; vm_compute; done]).
  assert (S : submit 256 (sample_event 3 7) (state_after (small_log 2))
              = Ok (state_after (small_log 3)))
    by (vm_compute; reflexivity).
  exact (record_reads_back 256 (sample_event 3 7) _ _ C T S).
Defined.

(** [read_after_append] for a session that waits at (1, 88) while the
    second record goes into a 256-byte log. *)
Lemma read_after_append_witness :
  read_session sample_h dotted_quad hex_groups
    (UserData (log_next_seq (state_after (small_log 1)))
              (log_next_idx (state_after (small_log 1))))
    true 8192 true (state_after (small_log 2))
  = Ok (delivered sample_h dotted_quad hex_groups 256 (sample_event 2 7),
        UserData (log_next_seq (state_after (small_log 2)))
                 (log_next_idx (state_after (small_log 2)))).
Proof.
  assert (C : 256 <= 256 < 2 ^ 31) by lia.
  assert (T : tail_ok 256 (state_after (small_log 1)))
    by (split; [vm_compute; reflexivity | split; vm_compute; done]).
  assert (O : 0 <= log_first_seq (state_after (small_log 1))
              <= log_next_seq (state_after (small_log 1)))
    by (split; vm_compute; done).
  assert (N : log_next_seq (state_after (small_log 1)) + 1 < 2 ^ 64)
    by (vm_compute; reflexivity).
  assert (S : submit 256 (sample_event 2 7) (state_after (small_log 1))
              = Ok (state_after (small_log 2)))
    by (vm_compute; reflexivity).
  assert (W : must_wrap 256 (record_size_for 256 (ev_path (sample_event 2 7)))
                (state_after (small_log 1)) = false)
    by (vm_compute; reflexivity).
  assert (F : Z.of_nat (length (line_of_event sample_h dotted_quad hex_groups
                                  256 (sample_event 2 7))) + 1
              <= sizeof_user_buf)
    by (vm_compute; done).
  assert (K : Z.of_nat (length (line_of_event sample_h dotted_quad hex_groups
                                  256 (sample_event 2 7))) <= 8192)
    by (vm_compute; done).
  exact (read_after_append sample_h dotted_quad hex_groups 256 C
           (sample_event 2 7) _ _ true 8192 T O N S W F K).
Defined.

(** [long_path_overflows_line_buffer] for a path of 8191 bytes and an
    arena of 128 KiB. *)
Lemma long_path_overflows_line_buffer_witness :
  exists s',
    submit 131072 event_8191 (netlog_init 131072) = Ok s' /\
    render_record sample_h dotted_quad hex_groups (log_buf s')
      (log_next_idx s' - record_size_for 131072 (ev_path event_8191))
    = Fault OobWrite.
Proof.
  assert (C : 256 <= 131072 < 2 ^ 31) by lia.
  assert (T : tail_ok 131072 (netlog_init 131072)).
  { unfold tail_ok, netlog_init, sizeof_size_t.
    cbn [log_buf log_next_idx]. split; [apply length_replicate | lia]. }
  assert (Y : seq_typed (netlog_init 131072)).
  { unfold seq_typed, netlog_init. cbn [log_first_seq log_next_seq]. lia. }
  assert (R : headers_readable (netlog_init 131072) = true)
    by reflexivity.
  assert (E : event_ok event_8191 = true) by reflexivity.
  assert (P : sizeof_user_buf - 1 <= stored_path_len 131072 (ev_path event_8191))
    by (vm_compute; done).
  exact (long_path_overflows_line_buffer sample_h dotted_quad hex_groups
           131072 C event_8191 (netlog_init 131072) T Y R E P).
Defined.

(** [fresh_log_reads_in_order] for two records in a 256-byte log. *)
Lemma fresh_log_reads_in_order_witness :
  exists s,
    submit_all 256 (small_events 1 2) (netlog_init 256) = Ok s /\
    read_many sample_h dotted_quad hex_groups
      (replicate (length (small_events 1 2)) read_call) (UserData 0 0)
      (netlog_log_open true s).2
    = (delivered sample_h dotted_quad hex_groups 256 <$> small_events 1 2,
       UserData (log_next_seq s) (log_next_idx s)).
Proof.
  assert (C : 256 <= 256 < 2 ^ 31) by lia.
  assert (F : offset_after 256 (small_events 1 2) + sizeof_size_t < 256)
    by (vm_compute; reflexivity).
  assert (E : Forall (fun e => event_ok e = true) (small_events 1 2))
    by (repeat (apply List.Forall_cons; [vm_compute; reflexivity|]);
        apply List.Forall_nil).
  assert (K : Forall (fun e =>
                Z.of_nat (length (line_of_event sample_h dotted_quad
                                    hex_groups 256 e)) + 1
                <= sizeof_user_buf) (small_events 1 2))
    by (repeat (apply List.Forall_cons; [vm_compute; done|]);
        apply List.Forall_nil).
  destruct (fresh_log_reads_in_order sample_h dotted_quad hex_groups 256 C
              (small_events 1 2) F E K)
    as (s & Hs & _ & _ & _ & _ & Hread & _).
  exists s. split; [exact Hs | exact Hread].
Defined.

(** [fresh_log_frames_match_sequence] for two records in a 256-byte
    log. *)
Lemma fresh_log_frames_match_sequence_witness :
  exists s,
    submit_all 256 (small_events 1 2) (netlog_init 256) = Ok s /\
    frames_between (length (small_events 1 2)) (log_buf s) (log_first_idx s)
      (log_next_idx s)
    = Ok (log_next_seq s - log_first_seq s).
Proof.
  assert (C : 256 <= 256 < 2 ^ 31) by lia.
  assert (F : offset_after 256 (small_events 1 2) + sizeof_size_t < 256)
    by (vm_compute; reflexivity).
  assert (E : Forall (fun e => event_ok e = true) (small_events 1 2))
    by (repeat (apply List.Forall_cons; [vm_compute; reflexivity|]);
        apply List.Forall_nil).
  destruct (fresh_log_frames_match_sequence 256 (small_events 1 2) C F E)
    as (s & Hs & Hframes & _).
  exists s. split; [exact Hs | exact Hframes].
Defined.

(** [failed_copy_skips_record] for the first read of a log that holds
    one record. *)
Lemma failed_copy_skips_record_witness :
  netlog_log_read sample_h dotted_quad hex_groups (Some (UserData 0 0))
    true 8192 false (state_after (small_log 1))
  = Ok (Returned (- EFAULT) [], Some (UserData (u64 (0 + 1)) 88)).
Proof.
  assert (G : log_first_seq (state_after (small_log 1))
              <= log_curr_seq (UserData 0 0))
    by (vm_compute; done).
  assert (N : log_curr_seq (UserData 0 0)
              <> log_next_seq (state_after (small_log 1)))
    by (vm_compute; done).
  assert (R : render_record sample_h dotted_quad hex_groups
                (log_buf (state_after (small_log 1)))
                (log_curr_idx (UserData 0 0))
              = Ok line_of_first) by (vm_compute; reflexivity).
  assert (X : next_record (log_buf (state_after (small_log 1)))
                (log_curr_idx (UserData 0 0)) = Ok 88)
    by (vm_compute; reflexivity).
  assert (S : Z.of_nat (length line_of_first) <= 8192)
    by (vm_compute; done).
  exact (failed_copy_skips_record sample_h dotted_quad hex_groups
           (UserData 0 0) (state_after (small_log 1)) line_of_first 88 true
           8192 G N R X S).
Defined.

(** [unknown_family_leaves_addresses] for a record of family AF_UNIX
    in an arena filled with the byte 7. *)
Lemma unknown_family_leaves_addresses_witness :
  load (bytes_after unix_record) (0 + field.dst)
    (sizeof_in6_addr + sizeof_in6_addr)
  = load (replicate 256 7) (0 + field.dst)
      (sizeof_in6_addr + sizeof_in6_addr).
Proof.
  assert (H4 : u16 1 <> AF_INET) by (vm_compute; done).
  assert (H6 : u16 1 <> AF_INET6) by (vm_compute; done).
  assert (F : fill_record (replicate 256 7) 0 88 7 1 1000 (replicate 7 97)
                0 0 1 (Some [1; 2; 3; 4]) 1 (Some [5; 6; 7; 8]) 2 0
              = Ok (bytes_after unix_record))
    by (vm_compute; reflexivity).
  exact (unknown_family_leaves_addresses _ _ _ _ _ _ _ _ _ _ _ _ _ _ _ _
           H4 H6 F).
Defined.

(** [read_at_sentinel] for a session at (2, 176) after the third append
    to a 256-byte log, which left its sentinel there. *)
Lemma read_at_sentinel_witness :
  read_session sample_h dotted_quad hex_groups (UserData 2 176) true 8192
    true (state_after (small_log 3))
  = Ok (Returned (Z.of_nat (length line_of_sentinel)) line_of_sentinel,
        UserData (u64 (2 + 1)) 0).
Proof.
  assert (G : log_first_seq (state_after (small_log 3))
              <= log_curr_seq (UserData 2 176))
    by (vm_compute; done).
  assert (N : log_curr_seq (UserData 2 176)
              <> log_next_seq (state_after (small_log 3)))
    by (vm_compute; done).
  assert (Z0 : load_le (log_buf (state_after (small_log 3)))
                 (log_curr_idx (UserData 2 176)) 8 = Ok 0)
    by (vm_compute; reflexivity).
  assert (R : render_record sample_h dotted_quad hex_groups
                (log_buf (state_after (small_log 3)))
                (log_curr_idx (UserData 2 176))
              = Ok line_of_sentinel) by (vm_compute; reflexivity).
  assert (S : Z.of_nat (length line_of_sentinel) <= 8192)
    by (vm_compute; done).
  exact (read_at_sentinel sample_h dotted_quad hex_groups (UserData 2 176)
           (state_after (small_log 3)) line_of_sentinel true 8192 G N Z0 R S).
Defined.
